(** * Arks/DistanceEst.h: barcode statistics and distance estimation

    A shallow embedding of the functions of [Arks/DistanceEst.h] (sample
    builder, calibration index, eligibility test, pair statistics
    builder, distance estimator and sample writer), followed by the
    properties proved about them.

    Conventions of the embedding:
    - [unsigned] and [int] are 32-bit, [size_t] is 64-bit; a value of such a
      type is a [Z] and every operation writes its wrap-around out;
    - [std::unordered_map] and [std::map] keyed by strings or contig ends
      are [gmap]s; a loop over such a map is a [for_each], which visits
      the entries in an order left open ([IterationOrder]);
    - [std::map<double, DistSample>] is a list of entries sorted by key;
      a finite [double] is the rational it denotes, and the quotient of
      two counters is the quotient of the rationals rounded to the
      nearest [double] ([round64]: 53 significant bits, ties to even;
      the counters are below 2^32, so their conversion is exact and the
      quotient is in the normal range).  A quotient by zero is an
      infinity or a NaN in the code and has no value here: the
      properties of the index are stated for samples with a positive
      union, which [calcDistSamples] guarantees, and [estimateDistance]
      tests the union before it divides;
    - a C++ exception, a failed [assert] and undefined behaviour end the
      run: functions that can meet one return a [result];
    - a [std::ostream] is the text written to it so far. *)

From Stdlib Require Import ZArith QArith Qround Qpower Lqa.
From Stdlib Require SpecFloat.
From Stdlib Require Import Sorting.Sorted Sorting.Permutation.
From stdpp Require Import gmap strings list fin_maps sorting pretty.
From Stdlib Require Import Ascii.

Open Scope Z_scope.

(** ** Machine integers *)

Definition UINT_MAX : Z := 2 ^ 32 - 1.
Definition INT_MIN : Z := - 2 ^ 31.
Definition INT_MAX : Z := 2 ^ 31 - 1.

(** Conversion to [unsigned]: reduction modulo 2^32. *)
Definition to_unsigned (z : Z) : Z := z mod 2 ^ 32.

(** Two's complement wrap-around of an [int] result. *)
Definition to_int (z : Z) : Z := (z + 2 ^ 31) mod 2 ^ 32 - 2 ^ 31.

(** Conversion to [size_t]. *)
Definition to_size_t (z : Z) : Z := z mod 2 ^ 64.

(** [x++] on an [unsigned] and on a [size_t]. *)
Definition uincr (x : Z) : Z := to_unsigned (x + 1).
Definition szincr (x : Z) : Z := to_size_t (x + 1).

(** The values of an [unsigned]. *)
Definition is_unsigned (z : Z) : Prop := 0 <= z <= UINT_MAX.

#[global] Instance is_unsigned_dec z : Decision (is_unsigned z).
Proof. unfold is_unsigned. apply _. Defined.

(** ** Abnormal termination *)

Inductive exn : Set :=
| out_of_range        (* thrown by [at] on a missing key *)
| assertion_failed    (* a failed [assert] *)
| undefined_behaviour (* no defined result *).

Inductive result (A : Type) : Type :=
| Ok (a : A)
| Raise (e : exn).
Arguments Ok {A} a.
Arguments Raise {A} e.

#[global] Instance result_ret : MRet result := fun A a => Ok a.
#[global] Instance result_bind : MBind result := fun A B f r =>
  match r with
  | Ok a => f a
  | Raise e => Raise e
  end.

(** [m.at(k)]: the value, or [std::out_of_range]. *)
Definition at_key `{Countable K} {A} (m : gmap K A) (k : K) : result A :=
  match m !! k with
  | Some a => Ok a
  | None => Raise out_of_range
  end.

(** [assert(b)]. *)
Definition assert (b : bool) : result unit :=
  if b then Ok tt else Raise assertion_failed.

(** ** Doubles *)

(** A finite [double] is the rational it denotes.  The result of an
    arithmetic operation is the exact result rounded to the nearest
    [double], the one with the even significand when two are equally
    near (IEEE 754 binary64). *)

(** [floor (log2 q)] for a positive rational: the [e] with
    [2^e <= q < 2^(e+1)]. *)
Definition Qlog2 (q : Q) : Z :=
  let k := Z.log2 (Qnum q) - Z.log2 (Zpos (Qden q)) in
  if Qle_bool (2 ^ k) q then k else k - 1.

(** The integer nearest to [x], the even one of the two when [x] lies
    half-way between them. *)
Definition round_half_even (x : Q) : Z :=
  let f := Qfloor x in
  match (x - inject_Z f ?= 1 # 2)%Q with
  | Lt => f
  | Gt => f + 1
  | Eq => if Z.even f then f else f + 1
  end.

(** The [double] nearest to a positive rational: with
    [2^e <= q < 2^(e+1)], the significand is [q / 2^(e-52)] rounded to
    an integer of 53 bits.  The exponent is not bounded: the quotient of
    two counters that is not 0 lies between 2^-32 and 2^32, far from the
    subnormal numbers and from the overflow of a [double]. *)
Definition round_pos (q : Q) : Q :=
  let e := Qlog2 q in
  Qred (inject_Z (round_half_even (q * 2 ^ (52 - e))) * 2 ^ (e - 52)).

Definition round64 (q : Q) : Q :=
  match (0 ?= q)%Q with
  | Eq => 0%Q
  | Lt => round_pos q
  | Gt => (- round_pos (- q))%Q
  end.

(** [double(a) / b] for two counters [a] and [b], [b] not 0: the
    conversions are exact and the quotient is rounded.  (For [b = 0] the
    code computes an infinity or a NaN, which is no rational; the
    functions below divide by a union that is positive.) *)
Definition ddiv (a b : Z) : Q := round64 (inject_Z a / inject_Z b).

(** The division of IEEE 754 binary64 as the Standard Library specifies
    it ([SpecFloat], the specification of the floating-point numbers of
    the kernel), and the rational that a finite result denotes; used to
    check [ddiv] on examples. *)
Definition binary64_of_Z (a : Z) : SpecFloat.spec_float :=
  SpecFloat.binary_normalize 53 1024 a 0 false.

Definition binary64_div (a b : Z) : SpecFloat.spec_float :=
  SpecFloat.SFdiv 53 1024 (binary64_of_Z a) (binary64_of_Z b).

Definition binary64_value (f : SpecFloat.spec_float) : option Q :=
  match f with
  | SpecFloat.S754_zero _ => Some 0%Q
  | SpecFloat.S754_finite s m e =>
      Some ((if s then - 1 else 1) * inject_Z (Zpos m) * 2 ^ e)%Q
  | _ => None
  end.

(** [<] and [<=] on [double]s. *)
Definition Qltb (x y : Q) : bool := negb (Qle_bool y x).
Definition Qleb (x y : Q) : bool := Qle_bool x y.

(** ** Iteration over a container *)

(** The order in which a container is traversed: some enumeration of its
    entries, each of them once.  The order of a [std::unordered_map] is
    not specified, so the functions and their properties are stated for
    every order. *)
Class IterationOrder (K : Type) `{Countable K} : Type := {
  entries : forall {A : Type}, gmap K A -> list (K * A);
  entries_perm : forall {A : Type} (m : gmap K A), entries m ≡ₚ map_to_list m
}.

(** [for (it = m.begin(); it != m.end(); ++it) body], on the state [b]. *)
Definition for_each `{IterationOrder K} {A B : Type}
    (body : K -> A -> B -> B) (b : B) (m : gmap K A) : B :=
  foldl (fun acc e => body (e.1) (e.2) acc) b (entries m).

(** The order used to run the examples. *)
Definition map_order `{Countable K} : IterationOrder K :=
  {| entries := fun A m => map_to_list m;
     entries_perm := fun A m => reflexivity (map_to_list m) |}.

(** The same entries in the opposite order. *)
Definition rev_order `{Countable K} : IterationOrder K :=
  {| entries := fun A m => reverse (map_to_list m);
     entries_perm := fun A m => reverse_Permutation (map_to_list m) |}.

(** ** Output streams *)

(** A [std::ostream] is the text written to it so far; [<<] appends. *)
Definition tab : ascii := "009"%char.
Definition newline : ascii := "010"%char.

(** [out << s] for a string and for a character. *)
Definition put (out : string) (s : string) : string := out +:+ s.
Definition put_char (out : string) (c : ascii) : string := out +:+ String c "".

(** [out << x] for an [unsigned]: its decimal digits. *)
Definition put_unsigned (out : string) (x : Z) : string :=
  out +:+ pretty (Z.to_N x).

(** ** Types of [Arks/Arks.h] *)

Module ARCS.

(** Modelled from the spec: the fields of [ArcsParams] that
    [DistanceEst.h] reads ([Arks/Arks.h] is not part of the sources).
    The integer thresholds are [int]s, the bin size is a [double]. *)
Record ArcsParams : Type := {
  min_reads : Z;
  min_mult : Z;
  max_mult : Z;
  end_length : Z;
  dist_bin_size : Q
}.

(** Modelled from the spec: a contig end, [std::pair<std::string, bool>];
    the flag is [true] for the head. *)
Abbreviation CI := (string * bool)%type.

(** Modelled from the spec: an unordered pair of contig identifiers,
    stored with the smaller one first. *)
Abbreviation ContigPair := (string * string)%type.

(** Modelled from the spec: the four orientation variants, in the order
    of the enumeration ([HH] = 0 ... [TT] = 3). *)
Inductive PairOrientation : Set := HH | HT | TH | TT.

#[global] Instance PairOrientation_eq_dec : EqDecision PairOrientation.
Proof. solve_decision. Defined.

(** Modelled from the spec: the counters of one orientation variant,
    all [unsigned] and zero in a fresh record. *)
Record PairRecord : Type := {
  barcodesIntersect : Z;
  barcodes1 : Z;
  barcodes2 : Z;
  barcodesUnion : Z
}.

Definition PairRecord_default : PairRecord :=
  {| barcodesIntersect := 0; barcodes1 := 0; barcodes2 := 0;
     barcodesUnion := 0 |}.

(** Modelled from the spec: [std::array<PairRecord, NUM_ORIENTATIONS>]. *)
Record PairRecords : Type := {
  recHH : PairRecord;
  recHT : PairRecord;
  recTH : PairRecord;
  recTT : PairRecord
}.

Definition get_rec (o : PairOrientation) (rs : PairRecords) : PairRecord :=
  match o with
  | HH => recHH rs
  | HT => recHT rs
  | TH => recTH rs
  | TT => recTT rs
  end.

Definition set_rec (o : PairOrientation) (r : PairRecord)
    (rs : PairRecords) : PairRecords :=
  match o with
  | HH => {| recHH := r; recHT := recHT rs; recTH := recTH rs; recTT := recTT rs |}
  | HT => {| recHH := recHH rs; recHT := r; recTH := recTH rs; recTT := recTT rs |}
  | TH => {| recHH := recHH rs; recHT := recHT rs; recTH := r; recTT := recTT rs |}
  | TT => {| recHH := recHH rs; recHT := recHT rs; recTH := recTH rs; recTT := r |}
  end.

(** [array.fill(r)] *)
Definition fill (r : PairRecord) : PairRecords :=
  {| recHH := r; recHT := r; recTH := r; recTT := r |}.

End ARCS.

Import ARCS.

(** [ScafMap]: contig end => number of mapped read pairs ([int]).
    [IndexMap]: barcode => [ScafMap].  [ContigToLength]: contig =>
    length ([unsigned]).  [PairMap]: contig pair => the four records. *)
Abbreviation ScafMap := (gmap CI Z).
Abbreviation IndexMap := (gmap string (gmap CI Z)).
Abbreviation ContigToLength := (gmap string Z).
Abbreviation PairMap := (gmap ContigPair PairRecords).

(** ** [DistanceEstimate] and [DistSample] *)

Record DistanceEstimate : Type := {
  minDist : Z;
  maxDist : Z;
  jaccard : Q
}.

(** The default constructor. *)
Definition DistanceEstimate_default : DistanceEstimate :=
  {| minDist := 0; maxDist := 0; jaccard := 0%Q |}.

Record DistSample : Type := {
  distance : Z;
  barcodesHead : Z;
  barcodesTail : Z;
  barcodesUnion : Z;
  barcodesIntersect : Z
}.

Definition DistSample_default : DistSample :=
  {| distance := UINT_MAX; barcodesHead := 0; barcodesTail := 0;
     barcodesUnion := 0; barcodesIntersect := 0 |}.

Abbreviation DistSampleMap := (gmap string DistSample).

(** [std::map<double, DistSample>]: entries in increasing key order. *)
Abbreviation JaccardToDist := (list (Q * DistSample)).

(** ** Example inputs *)

Module Examples.

Definition params : ArcsParams :=
  {| min_reads := 3; min_mult := 1; max_mult := 100; end_length := 100;
     dist_bin_size := (1 # 20)%Q |}.

Definition lengths : ContigToLength :=
  <["C1"%string := 300]> (<["S"%string := 150]>
    (<["A"%string := 300]> (<["B"%string := 400]> ∅))).

Definition mults : gmap string Z :=
  <["BX1"%string := 2]> (<["BX2"%string := 1]> ∅).

(** One barcode on both ends of the contig C1 (300 bases). *)
Definition both_ends : ScafMap :=
  <[("C1"%string, true) := 5]> (<[("C1"%string, false) := 5]> ∅).
Definition scenarioA : IndexMap := <["BX1"%string := both_ends]> ∅.
Definition scenarioA_samples : DistSampleMap :=
  <["C1"%string := {| distance := 100; barcodesHead := 1; barcodesTail := 1;
                      barcodesUnion := 1; barcodesIntersect := 1 |}]> ∅.

(** A second barcode on the head of C1 only. *)
Definition head_only : ScafMap := <[("C1"%string, true) := 4]> ∅.
Definition scenarioB : IndexMap := <["BX2"%string := head_only]> scenarioA.
Definition scenarioB_samples : DistSampleMap :=
  <["C1"%string := {| distance := 100; barcodesHead := 2; barcodesTail := 1;
                      barcodesUnion := 2; barcodesIntersect := 1 |}]> ∅.

(** One barcode on both ends of the contig S, which has 150 bases and
    is shorter than twice the end length. *)
Definition short_ends : ScafMap :=
  <[("S"%string, true) := 5]> (<[("S"%string, false) := 5]> ∅).
Definition short_contig : IndexMap := <["BX1"%string := short_ends]> ∅.

(** One barcode on the heads of the contigs A and B. *)
Definition two_heads : ScafMap :=
  <[("A"%string, true) := 5]> (<[("B"%string, true) := 5]> ∅).
Definition heads_only : IndexMap := <["BX1"%string := two_heads]> ∅.

(** One barcode on both ends of the contigs A and B. *)
Definition four_ends : ScafMap :=
  <[("A"%string, true) := 5]> (<[("A"%string, false) := 5]>
    (<[("B"%string, true) := 5]> (<[("B"%string, false) := 5]> ∅))).
Definition all_ends : IndexMap := <["BX1"%string := four_ends]> ∅.
Definition all_ends_samples : DistSampleMap :=
  <["A"%string := {| distance := 100; barcodesHead := 1; barcodesTail := 1;
                     barcodesUnion := 1; barcodesIntersect := 1 |}]>
    (<["B"%string := {| distance := 200; barcodesHead := 1;
                        barcodesTail := 1; barcodesUnion := 1;
                        barcodesIntersect := 1 |}]> ∅).

(** The pair map that [calcContigPairBarcodeStats] builds from
    [all_ends]: every variant of (A,A), (A,B) and (B,B) shares the one
    barcode. *)
Definition shared_once : PairRecord :=
  {| ARCS.barcodesIntersect := 1; barcodes1 := 1; barcodes2 := 1;
     ARCS.barcodesUnion := 1 |}.
Definition all_ends_pairs : PairMap :=
  <[("A"%string, "A"%string) := fill shared_once]>
    (<[("A"%string, "B"%string) := fill shared_once]>
       (<[("B"%string, "B"%string) := fill shared_once]> ∅)).

(** A pair record with Jaccard score 3/15 and an index whose only key,
    9/10, is further than the bin size 1/20 from it. *)
Definition far_record : PairRecord :=
  {| ARCS.barcodesIntersect := 3; barcodes1 := 10; barcodes2 := 8;
     ARCS.barcodesUnion := 15 |}.
Definition far_index : JaccardToDist :=
  [(ddiv 9 10, {| distance := 80; barcodesHead := 10; barcodesTail := 9;
                  barcodesUnion := 10; barcodesIntersect := 9 |})].

(** Scenario D of the spec: seven samples with the distances 80, 90,
    100, 100, 110, 120 and 500 at keys within 1/20 of the score 3/15,
    and one sample outside the window. *)
Definition sample_at (d i : Z) : Q * DistSample :=
  (ddiv i 100, {| distance := d; barcodesHead := 100; barcodesTail := i;
                  barcodesUnion := 100; barcodesIntersect := i |}).
Definition scenarioD_index : JaccardToDist :=
  [sample_at 80 17; sample_at 90 18; sample_at 100 19; sample_at 100 20;
   sample_at 110 21; sample_at 120 22; sample_at 500 23;
   sample_at 1000 90].
Definition scenarioD_estimate : DistanceEstimate :=
  {| minDist := 80; maxDist := 478; jaccard := ddiv 3 15 |}.

(** The second barcode alone. *)
Definition second_barcode : IndexMap := <["BX2"%string := head_only]> ∅.

(** The lengths of a run in which every contig is shorter than twice the
    end length. *)
Definition short_lengths : ContigToLength := <["S"%string := 150]> ∅.

(** A record whose intersection exceeds its union. *)
Definition inconsistent_record : PairRecord :=
  {| ARCS.barcodesIntersect := 5; barcodes1 := 2; barcodes2 := 1;
     ARCS.barcodesUnion := 3 |}.

(** The pair map that a second run of [calcContigPairBarcodeStats] on
    [all_ends] builds from [all_ends_pairs]: the shared count is counted
    twice. *)
Definition shared_twice : PairRecord :=
  {| ARCS.barcodesIntersect := 2; barcodes1 := 1; barcodes2 := 1;
     ARCS.barcodesUnion := 0 |}.
Definition all_ends_pairs_twice : PairMap :=
  <[("A"%string, "A"%string) := fill shared_twice]>
    (<[("A"%string, "B"%string) := fill shared_twice]>
       (<[("B"%string, "B"%string) := fill shared_twice]> ∅)).

(** An end length of -1. *)
Definition negative_params : ArcsParams :=
  {| min_reads := 3; min_mult := 1; max_mult := 100; end_length := -1;
     dist_bin_size := (1 # 20)%Q |}.

(** The samples of three contigs.  The scores of P and Q,
    4294967294/4294967295 and 4294967293/4294967294, are different
    quotients and round to the same [double], 1 - 2^-32; the score of C1
    is 1/2. *)
Definition sample_P : DistSample :=
  {| distance := 100; barcodesHead := 4294967295; barcodesTail := 4294967294;
     barcodesUnion := 4294967295; barcodesIntersect := 4294967294 |}.
Definition sample_Q : DistSample :=
  {| distance := 200; barcodesHead := 4294967294; barcodesTail := 4294967293;
     barcodesUnion := 4294967294; barcodesIntersect := 4294967293 |}.
Definition sample_C1 : DistSample :=
  {| distance := 100; barcodesHead := 2; barcodesTail := 1;
     barcodesUnion := 2; barcodesIntersect := 1 |}.
Definition near_one_samples : DistSampleMap :=
  <["P"%string := sample_P]>
    (<["Q"%string := sample_Q]> (<["C1"%string := sample_C1]> ∅)).

(** Pairs of counters on which [ddiv] is compared with the division of
    binary64: those of the examples, and every pair of a counter and a
    counter other than 0 among 0 ... 40 and the ten greatest values of
    an [unsigned]. *)
Definition quotients : list (Z * Z) :=
  [(3, 15); (9, 10); (17, 100); (23, 100); (90, 100);
   (4294967294, 4294967295); (4294967293, 4294967294);
   (2147483647, 4294967295); (123456789, 987654321);
   (987654321, 123456789)].
Definition counters : list Z :=
  map Z.of_nat (seq 0 41) ++ map (fun k => UINT_MAX - Z.of_nat k) (seq 0 10).
Definition quotient_grid : list (Z * Z) :=
  List.filter (fun p : Z * Z => negb (p.2 =? 0)) (list_prod counters counters).

End Examples.

(** * The functions of [DistanceEst.h] *)

Section DistanceEst.

Context {index_order : IterationOrder string}
        {end_order : IterationOrder (string * bool)}
        {pair_order : IterationOrder (string * string)}.

(** ** [calcDistSamples] *)

(** The bound [(unsigned) 2 * params.end_length]: the [int] operand is
    converted to [unsigned] and the product is taken modulo 2^32. *)
Definition sample_min_length (params : ArcsParams) : Z :=
  to_unsigned (to_unsigned 2 * to_unsigned (end_length params)).

(** The two [continue] tests of the inner loop, lines 86 and 96. *)
Definition sample_eligible (l readPairs : Z) (params : ArcsParams) : bool :=
  if readPairs <? min_reads params then false
  else if l <? sample_min_length params then false
  else true.

(** [foundOther], lines 116-119. *)
Definition foundOther (contigToCount : ScafMap) (contigID : string)
    (isHead : bool) (params : ArcsParams) : bool :=
  match contigToCount !! (contigID, negb isHead) with
  | Some n => min_reads params <=? n
  | None => false
  end.

(** [l - 2 * params.end_length]: an [int] product, converted to
    [unsigned] for the subtraction. *)
Definition sample_distance (l : Z) (params : ArcsParams) : Z :=
  to_unsigned (l - to_unsigned (to_int (2 * end_length params))).

(** Lines 100-126 on the sample of the contig. *)
Definition update_sample (l : Z) (isHead found : bool) (params : ArcsParams)
    (s : DistSample) : DistSample :=
  let d := sample_distance l params in
  let h := if isHead then uincr (barcodesHead s) else barcodesHead s in
  let t := if isHead then barcodesTail s else uincr (barcodesTail s) in
  if found && isHead then
    {| distance := d; barcodesHead := h; barcodesTail := t;
       barcodesUnion := uincr (barcodesUnion s);
       barcodesIntersect := uincr (barcodesIntersect s) |}
  else if negb found then
    {| distance := d; barcodesHead := h; barcodesTail := t;
       barcodesUnion := uincr (barcodesUnion s);
       barcodesIntersect := barcodesIntersect s |}
  else
    {| distance := d; barcodesHead := h; barcodesTail := t;
       barcodesUnion := barcodesUnion s;
       barcodesIntersect := barcodesIntersect s |}.

(** The body of the inner loop for one entry of [contigToCount]. *)
Definition sample_observation (contigToLength : ContigToLength)
    (params : ArcsParams) (contigToCount : ScafMap)
    (key : CI) (readPairs : Z) (distSamples : DistSampleMap)
    : result DistSampleMap :=
  let '(contigID, isHead) := key in
  if readPairs <? min_reads params then Ok distSamples else
  l ← at_key contigToLength contigID;
  if l <? sample_min_length params then Ok distSamples else
  let distSample := default DistSample_default (distSamples !! contigID) in
  let found := foundOther contigToCount contigID isHead params in
  Ok (<[contigID := update_sample l isHead found params distSample]> distSamples).

(** The inner loop: all the contig ends of one barcode. *)
Definition sample_barcode (contigToLength : ContigToLength)
    (params : ArcsParams) (contigToCount : ScafMap)
    (distSamples : DistSampleMap) : result DistSampleMap :=
  for_each (fun key readPairs acc =>
              acc ≫= sample_observation contigToLength params contigToCount
                       key readPairs)
           (Ok distSamples) contigToCount.

(** The multiplicity filter of lines 67-69 (and 199-201). *)
Definition mult_in_range (indexMult : Z) (params : ArcsParams) : bool :=
  negb ((indexMult <? min_mult params) || (max_mult params <? indexMult)).

(** The body of the outer loop (lines 65-127) for one barcode. *)
Definition sample_index (contigToLength : ContigToLength)
    (indexMultMap : gmap string Z) (params : ArcsParams)
    (index : string) (contigToCount : ScafMap) (distSamples : DistSampleMap)
    : result DistSampleMap :=
  indexMult ← at_key indexMultMap index;
  if mult_in_range indexMult params
  then sample_barcode contigToLength params contigToCount distSamples
  else Ok distSamples.

Definition calcDistSamples (imap : IndexMap) (contigToLength : ContigToLength)
    (indexMultMap : gmap string Z) (params : ArcsParams)
    (distSamples : DistSampleMap) : result DistSampleMap :=
  for_each (fun index contigToCount acc =>
              acc ≫= sample_index contigToLength indexMultMap params
                       index contigToCount)
           (Ok distSamples) imap.

(** ** [buildJaccardToDist] *)

(** The key of a sample, lines 146-147: a finite [double] when the union
    of the sample is not 0. *)
Definition sample_jaccard (sample : DistSample) : Q :=
  ddiv (barcodesIntersect sample) (barcodesUnion sample).

(** [std::map::insert] on finite keys: the entry is placed in key order;
    when an entry with an equal key, that is the same [double], is
    present the map is left as it is. *)
Fixpoint map_insert (k : Q) (s : DistSample) (m : JaccardToDist)
    : JaccardToDist :=
  match m with
  | [] => [(k, s)]
  | (k', s') :: rest =>
      match (k ?= k')%Q with
      | Lt => (k, s) :: m
      | Eq => m
      | Gt => (k', s') :: map_insert k s rest
      end
  end.

Definition buildJaccardToDist (distSamples : DistSampleMap)
    (jaccardToDist : JaccardToDist) : JaccardToDist :=
  for_each (fun _ sample acc => map_insert (sample_jaccard sample) sample acc)
           jaccardToDist distSamples.

(** ** [validBarcodeMapping] *)

(** The bound [unsigned(2 * params.end_length)]: an [int] product
    converted to [unsigned]. *)
Definition valid_min_length (params : ArcsParams) : Z :=
  to_unsigned (to_int (2 * end_length params)).

Definition validBarcodeMapping (contigLength pairs : Z)
    (params : ArcsParams) : bool :=
  if pairs <? min_reads params then false
  else if contigLength <? valid_min_length params then false
  else true.

(** ** [calcContigPairBarcodeStats] *)

(** The orientation chosen by the if-chain of lines 247-258. *)
Definition orientation (head1 head2 : bool) : PairOrientation :=
  if head1 && head2 then HH
  else if head1 && negb head2 then HT
  else if negb head1 && head2 then TH
  else TT.

(** [rec.barcodesIntersect++] *)
Definition incr_intersect (r : PairRecord) : PairRecord :=
  {| ARCS.barcodesIntersect := uincr (ARCS.barcodesIntersect r);
     barcodes1 := barcodes1 r;
     barcodes2 := barcodes2 r;
     ARCS.barcodesUnion := ARCS.barcodesUnion r |}.

(** [pmap[pair][o].barcodesIntersect++] on a pair that is present. *)
Definition bump (o : PairOrientation) (rs : PairRecords) : PairRecords :=
  set_rec o (incr_intersect (get_rec o rs)) rs.

(** The body of the innermost loop (lines 226-258) for the second end. *)
Definition pair_end2 (contigToLength : ContigToLength) (params : ArcsParams)
    (id1 : string) (head1 : bool) (key2 : CI) (pairs2 : Z) (pmap : PairMap)
    : result PairMap :=
  let '(id2, head2) := key2 in
  length2 ← at_key contigToLength id2;
  if negb (validBarcodeMapping length2 pairs2 params) then Ok pmap else
  if String.ltb id2 id1 then Ok pmap else
  let pair : ContigPair := (id1, id2) in
  let pmap :=
    match pmap !! pair with
    | None => <[pair := fill PairRecord_default]> pmap
    | Some _ => pmap
    end in
  Ok (alter (bump (orientation head1 head2)) pair pmap).

(** The body of the middle loop (lines 209-259) for the first end; the
    state is the side table [contigEndToBarcodeCount] and the pair map. *)
Definition pair_end1 (contigToLength : ContigToLength) (params : ArcsParams)
    (contigEndToPairCount : ScafMap) (key1 : CI) (pairs1 : Z)
    (st : gmap CI Z * PairMap) : result (gmap CI Z * PairMap) :=
  let '(id1, head1) := key1 in
  length1 ← at_key contigToLength id1;
  if negb (validBarcodeMapping length1 pairs1 params) then Ok st else
  let counts := <[key1 := szincr (default 0 (st.1 !! key1))]> (st.1) in
  pmap ← for_each (fun key2 pairs2 acc =>
                     acc ≫= pair_end2 contigToLength params id1 head1
                              key2 pairs2)
                  (Ok (st.2)) contigEndToPairCount;
  Ok (counts, pmap).

(** The loop over the ends of one barcode. *)
Definition pair_barcode (contigToLength : ContigToLength)
    (params : ArcsParams) (contigEndToPairCount : ScafMap)
    (st : gmap CI Z * PairMap) : result (gmap CI Z * PairMap) :=
  for_each (fun key1 pairs1 acc =>
              acc ≫= pair_end1 contigToLength params contigEndToPairCount
                       key1 pairs1)
           (Ok st) contigEndToPairCount.

(** The body of the outer loop (lines 197-260) for one barcode. *)
Definition pair_index (indexMultMap : gmap string Z)
    (contigToLength : ContigToLength) (params : ArcsParams)
    (index : string) (contigEndToPairCount : ScafMap)
    (st : gmap CI Z * PairMap) : result (gmap CI Z * PairMap) :=
  indexMult ← at_key indexMultMap index;
  if mult_in_range indexMult params
  then pair_barcode contigToLength params contigEndToPairCount st
  else Ok st.

(** The first pass (lines 194-261). *)
Definition pair_scan (imap : IndexMap) (indexMultMap : gmap string Z)
    (contigToLength : ContigToLength) (params : ArcsParams)
    (pmap : PairMap) : result (gmap CI Z * PairMap) :=
  for_each (fun index contigEndToPairCount acc =>
              acc ≫= pair_index indexMultMap contigToLength params
                       index contigEndToPairCount)
           (Ok (∅, pmap)) imap.

(** The flags of [tail1] and [tail2], lines 282-283. *)
Definition first_is_head (i : PairOrientation) : bool :=
  match i with HH | HT => true | TH | TT => false end.
Definition second_is_head (i : PairOrientation) : bool :=
  match i with HH | TH => true | HT | TT => false end.

(** Lines 277-292 for one orientation of one pair. *)
Definition complete_record (counts : gmap CI Z) (id1 id2 : string)
    (i : PairOrientation) (rec : PairRecord) : result PairRecord :=
  let tail1 : CI := (id1, first_is_head i) in
  let tail2 : CI := (id2, second_is_head i) in
  c1 ← at_key counts tail1;
  let b1 := to_unsigned c1 in
  _ ← assert (0 <? b1);
  c2 ← at_key counts tail2;
  let b2 := to_unsigned c2 in
  _ ← assert (0 <? b2);
  _ ← assert (ARCS.barcodesIntersect rec <=? to_unsigned (b1 + b2));
  Ok {| ARCS.barcodesIntersect := ARCS.barcodesIntersect rec;
        barcodes1 := b1;
        barcodes2 := b2;
        ARCS.barcodesUnion :=
          to_unsigned (to_unsigned (b1 + b2) - ARCS.barcodesIntersect rec) |}.

(** The loop over the four orientations, lines 274-293. *)
Definition complete_records (counts : gmap CI Z) (pair : ContigPair)
    (recs : PairRecords) : result PairRecords :=
  foldl (fun acc i =>
           recs ← acc;
           rec ← complete_record counts (pair.1) (pair.2) i (get_rec i recs);
           Ok (set_rec i rec recs))
        (Ok recs) [HH; HT; TH; TT].

(** The second pass (lines 272-294), over the pairs of the map. *)
Definition pair_complete (counts : gmap CI Z) (pmap : PairMap)
    : result PairMap :=
  for_each (fun pair recs acc =>
              pm ← acc;
              recs' ← complete_records counts pair recs;
              Ok (<[pair := recs']> pm))
           (Ok pmap) pmap.

Definition calcContigPairBarcodeStats (imap : IndexMap)
    (indexMultMap : gmap string Z) (contigToLength : ContigToLength)
    (params : ArcsParams) (pmap : PairMap) : result PairMap :=
  st ← pair_scan imap indexMultMap contigToLength params pmap;
  pair_complete (st.1) (st.2).

(** ** [estimateDistance] *)

(** The helpers of [Common/MapUtil.h] and [Common/StatUtil.h], which the
    source includes and calls.  An iterator into the index is the position
    of its entry; [closestKeys] returns the pair [(lowerIt, upperIt)]. *)
Class MapUtil : Type :=
  closestKeys : JaccardToDist -> Q -> Q -> nat * nat.
Class StatUtil : Type :=
  quantile : list Z -> Q -> result Q.

(** The loop of lines 336-341: the distances of the entries from
    [lowerIt] up to [upperIt].  An iterator pair that is not a range of
    the map has no defined traversal. *)
Definition collect_distances (m : JaccardToDist) (lowerIt upperIt : nat)
    : result (list Z) :=
  if decide (lowerIt <= upperIt <= length m)%nat
  then Ok (map (fun e => distance (e.2)) (take (upperIt - lowerIt) (drop lowerIt m)))
  else Raise undefined_behaviour.

(** [std::sort] on the vector of distances. *)
Definition sort (l : list Z) : list Z := merge_sort Z.le l.

(** [(int) x] for an integral [double]: defined when [x] fits an [int]. *)
Definition double_to_int (z : Z) : result Z :=
  if (INT_MIN <=? z) && (z <=? INT_MAX) then Ok z
  else Raise undefined_behaviour.

Definition estimateDistance `{MapUtil} `{StatUtil} (rec : PairRecord)
    (jaccardToDist : JaccardToDist) (params : ArcsParams)
    : result (DistanceEstimate * bool) :=
  let result0 := DistanceEstimate_default in
  match jaccardToDist with
  | [] => Ok (result0, false)
  | _ :: _ =>
    if ARCS.barcodesUnion rec =? 0 then Ok (result0, false) else
    let j := ddiv (ARCS.barcodesIntersect rec) (ARCS.barcodesUnion rec) in
    _ ← assert (Qleb 0 j && Qleb j 1);
    let '(lowerIt, upperIt) :=
      closestKeys jaccardToDist j (dist_bin_size params) in
    distances ← collect_distances jaccardToDist lowerIt upperIt;
    let distances := sort distances in
    q1 ← quantile distances (1 # 100)%Q;
    lo ← double_to_int (Qfloor q1);
    q99 ← quantile distances (99 # 100)%Q;
    hi ← double_to_int (Qceiling q99);
    Ok ({| minDist := lo; maxDist := hi; jaccard := j |}, true)
  end.

(** The length of the longest prefix whose keys all satisfy [p]. *)
Fixpoint count_while (p : Q -> bool) (m : JaccardToDist) : nat :=
  match m with
  | [] => 0
  | e :: m' => if p (e.1) then S (count_while p m') else 0
  end.

(** Modelled from the spec: [closestKeys] of [Common/MapUtil.h], absent
    from the sources.  It delimits the contiguous range of entries whose
    key lies within [width] of [key]: [lowerIt] is the first entry with
    [key - width <= k], [upperIt] the first one after it with
    [key + width < k]. *)
Definition spec_closestKeys : MapUtil := fun m key width =>
  let lo := count_while (fun k => Qltb k (key - width)) m in
  let hi := (lo + count_while (fun k => Qleb k (key + width)) (drop lo m))%nat in
  (lo, hi).

(** Modelled from the spec: [quantile] of [Common/StatUtil.h], absent from
    the sources.  Linear interpolation between the two order statistics
    that bracket the position [p * (n - 1)] of a sorted list; an empty
    list has no quantile. *)
Definition spec_quantile : StatUtil := fun xs p =>
  match xs with
  | [] => Raise undefined_behaviour
  | x0 :: _ =>
      let n := Z.of_nat (length xs) in
      let h := (p * inject_Z (n - 1))%Q in
      let i := Qfloor h in
      let lo := nth (Z.to_nat i) xs x0 in
      let hi := nth (Z.to_nat (Z.min (i + 1) (n - 1))) xs x0 in
      Ok (inject_Z lo + (h - inject_Z i) * (inject_Z hi - inject_Z lo))%Q
  end.

(** ** [writeDistSamples] *)

(** The header line, lines 364-369. *)
Definition write_header (out : string) : string :=
  let out := put out "contig_id" in
  let out := put_char out tab in
  let out := put out "distance" in
  let out := put_char out tab in
  let out := put out "barcodes_head" in
  let out := put_char out tab in
  let out := put out "barcodes_tail" in
  let out := put_char out tab in
  let out := put out "barcodes_union" in
  let out := put_char out tab in
  let out := put out "barcodes_intersect" in
  put_char out newline.

(** The body of the loop, lines 374-382: the line of one sample. *)
Definition write_sample (out : string) (contigID : string)
    (sample : DistSample) : string :=
  let out := put out contigID in
  let out := put_char out tab in
  let out := put_unsigned out (distance sample) in
  let out := put_char out tab in
  let out := put_unsigned out (barcodesHead sample) in
  let out := put_char out tab in
  let out := put_unsigned out (barcodesTail sample) in
  let out := put_char out tab in
  let out := put_unsigned out (barcodesUnion sample) in
  let out := put_char out tab in
  let out := put_unsigned out (barcodesIntersect sample) in
  put_char out newline.

Definition writeDistSamples (out : string) (distSamples : DistSampleMap)
    : string :=
  for_each (fun contigID sample out => write_sample out contigID sample)
           (write_header out) distSamples.

(** The number of occurrences of a character in a text. *)
Fixpoint count_char (a : ascii) (s : string) : nat :=
  match s with
  | EmptyString => 0
  | String b s' => (if Ascii.eqb a b then 1 else 0) + count_char a s'
  end.

(** The five fields of a sample are values of an [unsigned]. *)
Definition unsigned_sample (s : DistSample) : Prop :=
  is_unsigned (distance s) /\ is_unsigned (barcodesHead s) /\
  is_unsigned (barcodesTail s) /\ is_unsigned (barcodesUnion s) /\
  is_unsigned (barcodesIntersect s).

#[global] Instance unsigned_sample_dec s : Decision (unsigned_sample s).
Proof. unfold unsigned_sample. apply _. Defined.

(** The line of a sample, followed by the rest of the text. *)
Definition sample_line (contigID : string) (sample : DistSample)
    (rest : string) : string :=
  contigID +:+ String tab (pretty (Z.to_N (distance sample))
  +:+ String tab (pretty (Z.to_N (barcodesHead sample))
  +:+ String tab (pretty (Z.to_N (barcodesTail sample))
  +:+ String tab (pretty (Z.to_N (barcodesUnion sample))
  +:+ String tab (pretty (Z.to_N (barcodesIntersect sample))
  +:+ String newline rest))))).

(** The header line. *)
Definition header_line : string := write_header "".

(** The lines of a list of samples. *)
Definition sample_lines (l : list (string * DistSample)) : string :=
  foldr (fun e rest => sample_line (e.1) (e.2) rest) "" l.

(** A table: each line is its fields separated by tabs and ended by a
    newline. *)
Fixpoint tab_separated (fields : list string) : string :=
  match fields with
  | [] => ""
  | field :: rest =>
      match rest with
      | [] => field
      | _ :: _ => field +:+ String tab (tab_separated rest)
      end
  end.

Definition table_line (fields : list string) : string :=
  tab_separated fields +:+ String newline "".

Definition table (lines : list (list string)) : string :=
  foldr (fun fields rest => table_line fields +:+ rest) "" lines.

(** The fields of the header line and of the line of a sample. *)
Definition header_fields : list string :=
  ["contig_id"; "distance"; "barcodes_head"; "barcodes_tail";
   "barcodes_union"; "barcodes_intersect"]%string.

Definition sample_fields (contigID : string) (sample : DistSample)
    : list string :=
  [contigID;
   pretty (Z.to_N (distance sample));
   pretty (Z.to_N (barcodesHead sample));
   pretty (Z.to_N (barcodesTail sample));
   pretty (Z.to_N (barcodesUnion sample));
   pretty (Z.to_N (barcodesIntersect sample))].

(** The text holds neither a tab nor a newline. *)
Definition plain_field (s : string) : Prop :=
  count_char tab s = 0%nat /\ count_char newline s = 0%nat.

(** ** Vocabulary of the statements *)

(** [distSamples[contigID]]: the sample of a contig, a fresh one when the
    contig has none yet. *)
Definition sample_of (distSamples : DistSampleMap) (contigID : string)
    : DistSample :=
  default DistSample_default (distSamples !! contigID).

(** The barcode maps to this end of the contig with at least [min_reads]
    read pairs. *)
Definition qualifies (contigToCount : ScafMap) (contigID : string)
    (isHead : bool) (params : ArcsParams) : bool :=
  match contigToCount !! (contigID, isHead) with
  | Some n => min_reads params <=? n
  | None => false
  end.

(** The sample of a contig once the head ([h']) and the tail ([t']) of a
    barcode have been visited or not, [h] and [t] telling whether the
    barcode qualifies at the head and at the tail. *)
Definition barcode_progress (l : Z) (params : ArcsParams)
    (h' t' h t : bool) (s : DistSample) : DistSample :=
  {| distance := sample_distance l params;
     barcodesHead := if h' then uincr (barcodesHead s) else barcodesHead s;
     barcodesTail := if t' then uincr (barcodesTail s) else barcodesTail s;
     barcodesUnion :=
       if h' || (t' && negb h) then uincr (barcodesUnion s)
       else barcodesUnion s;
     barcodesIntersect :=
       if h' && t then uincr (barcodesIntersect s)
       else barcodesIntersect s |}.

(** The entry of a contig after the ends [m'] of the barcode [m] have been
    visited, starting from [distSamples]. *)
Definition progress_lookup (contigToLength : ContigToLength)
    (params : ArcsParams) (m' m : ScafMap) (distSamples : DistSampleMap)
    (c : string) : option DistSample :=
  match contigToLength !! c with
  | Some l =>
      if (sample_min_length params <=? l)
         && (qualifies m' c true params || qualifies m' c false params)
      then Some (barcode_progress l params
                   (qualifies m' c true params) (qualifies m' c false params)
                   (qualifies m c true params) (qualifies m c false params)
                   (sample_of distSamples c))
      else distSamples !! c
  | None => distSamples !! c
  end.

(** The counters of a sample after [n] barcodes: they count barcodes,
    and the head and tail counters agree with the union and the
    intersection. *)
Definition counters_ok (n : Z) (s : DistSample) : Prop :=
  0 <= barcodesIntersect s <= barcodesUnion s /\
  barcodesUnion s <= n /\
  0 <= barcodesHead s <= n /\
  0 <= barcodesTail s <= n /\
  barcodesHead s + barcodesTail s = barcodesUnion s + barcodesIntersect s.

(** What holds of the sample stored for a contig after [n] barcodes. *)
Definition sample_ok (contigToLength : ContigToLength) (params : ArcsParams)
    (n : Z) (contigID : string) (s : DistSample) : Prop :=
  (exists l, contigToLength !! contigID = Some l /\
             sample_min_length params <= l /\
             distance s = sample_distance l params) /\
  counters_ok n s /\ 1 <= barcodesUnion s.

(** The keys of an index, membership of a key up to equality of the
    [double]s, and the number of distinct keys of a list. *)
Definition keys (m : JaccardToDist) : list Q := map fst m.

Definition key_in (k : Q) (ks : list Q) : bool := existsb (Qeq_bool k) ks.

Fixpoint distinct_keys (ks : list Q) : nat :=
  match ks with
  | [] => 0
  | k :: ks' =>
      if key_in k ks' then distinct_keys ks' else S (distinct_keys ks')
  end.

(** The Jaccard keys of the samples of a map, in iteration order. *)
Definition sample_keys (distSamples : DistSampleMap) : list Q :=
  map (fun e => sample_jaccard (e.2)) (entries distSamples).

(** Entries in strictly increasing key order. *)
Definition key_lt (a b : Q * DistSample) : Prop := (a.1 < b.1)%Q.

(** The barcode maps to this contig end and [validBarcodeMapping] accepts
    the mapping. *)
Definition valid_end (contigToLength : ContigToLength) (params : ArcsParams)
    (m : ScafMap) (e : CI) : bool :=
  match m !! e with
  | Some pairs =>
      match contigToLength !! (e.1) with
      | Some l => validBarcodeMapping l pairs params
      | None => false
      end
  | None => false
  end.

(** [contigEndToBarcodeCount[e]] read as a number, 0 for a missing end. *)
Definition count_of (counts : gmap CI Z) (e : CI) : Z :=
  default 0 (counts !! e).

(** [pmap[pair][o].barcodesIntersect], 0 for a missing pair. *)
Definition intersect_of (pmap : PairMap) (pair : ContigPair)
    (o : PairOrientation) : Z :=
  ARCS.barcodesIntersect
    (get_rec o (default (fill PairRecord_default) (pmap !! pair))).

(** The two contig ends of an orientation variant of a pair. *)
Definition first_end (pair : ContigPair) (o : PairOrientation) : CI :=
  (pair.1, first_is_head o).
Definition second_end (pair : ContigPair) (o : PairOrientation) : CI :=
  (pair.2, second_is_head o).

(** The state of the first pass after [n] barcodes: a stored count is
    between 1 and [n], and the shared count of a variant is at most the
    count of each of its two ends. *)
Definition scan_ok (n : Z) (counts : gmap CI Z) (pmap : PairMap) : Prop :=
  (forall e k, counts !! e = Some k -> 1 <= k <= n) /\
  (forall pair o,
     0 <= intersect_of pmap pair o /\
     intersect_of pmap pair o <= count_of counts (first_end pair o) /\
     intersect_of pmap pair o <= count_of counts (second_end pair o)).

(** The key [k] lies within [w] of the score [j]. *)
Definition in_window (j w k : Q) : bool := Qleb (j - w) k && Qleb k (j + w).

(** The entries of the index whose key lies within [w] of [j]. *)
Definition window (m : JaccardToDist) (j w : Q) : JaccardToDist :=
  List.filter (fun e => in_window j w (e.1)) m.

(** [q] is the value at the position [p * (n - 1)] of the sorted list
    [xs], interpolated linearly between the two order statistics that
    bracket the position. *)
Definition interpolated (xs : list Z) (p q : Q) : Prop :=
  let n := Z.of_nat (length xs) in
  let h := (p * inject_Z (n - 1))%Q in
  let i := Qfloor h in
  exists lo hi : Z,
    xs !! Z.to_nat i = Some lo /\
    xs !! Z.to_nat (Z.min (i + 1) (n - 1)) = Some hi /\
    (q == inject_Z lo + (h - inject_Z i) * (inject_Z hi - inject_Z lo))%Q /\
    (inject_Z lo <= q <= inject_Z hi)%Q.

(** *** Counting barcodes *)

(** The barcode has a multiplicity and passes the filter of lines 67-69. *)
Definition in_mult_range (indexMultMap : gmap string Z) (params : ArcsParams)
    (index : string) : bool :=
  match indexMultMap !! index with
  | Some indexMult => mult_in_range indexMult params
  | None => false
  end.

(** The number of barcodes of [imap] that pass the multiplicity filter
    and whose contig ends satisfy [p]. *)
Definition barcode_count (indexMultMap : gmap string Z) (params : ArcsParams)
    (p : ScafMap -> bool) (imap : IndexMap) : Z :=
  Z.of_nat (size (filter (fun e : string * ScafMap =>
                            in_mult_range indexMultMap params (e.1) && p (e.2)
                            = true) imap)).

(** The sample of a contig, counted from the barcodes. *)
Definition counted_sample (imap : IndexMap) (contigToLength : ContigToLength)
    (indexMultMap : gmap string Z) (params : ArcsParams) (contigID : string)
    : option DistSample :=
  match contigToLength !! contigID with
  | Some l =>
      let n p := barcode_count indexMultMap params p imap in
      let head m := qualifies m contigID true params in
      let tail m := qualifies m contigID false params in
      if (sample_min_length params <=? l) && (0 <? n (fun m => head m || tail m))
      then Some {| distance := sample_distance l params;
                   barcodesHead := n head;
                   barcodesTail := n tail;
                   barcodesUnion := n (fun m => head m || tail m);
                   barcodesIntersect := n (fun m => head m && tail m) |}
      else None
  | None => None
  end.

(** Every lookup that [calcDistSamples] makes hits: each barcode has a
    multiplicity and, when it passes the filter, each contig it maps to
    with at least [min_reads] read pairs has a length. *)
Definition sample_lookups_hit (imap : IndexMap)
    (contigToLength : ContigToLength) (indexMultMap : gmap string Z)
    (params : ArcsParams) : Prop :=
  forall index m, imap !! index = Some m ->
    exists indexMult, indexMultMap !! index = Some indexMult /\
      (mult_in_range indexMult params = true ->
       forall c e n, m !! (c, e) = Some n -> min_reads params <= n ->
         is_Some (contigToLength !! c)).

(** The barcode maps to an end of the contig with a valid mapping. *)
Definition contig_seen (contigToLength : ContigToLength) (params : ArcsParams)
    (m : ScafMap) (c : string) : bool :=
  valid_end contigToLength params m (c, true)
  || valid_end contigToLength params m (c, false).

(** The numbers of barcodes within the multiplicity range with a valid
    mapping to a contig end, to both ends of a variant of a pair, to one
    of them at least, and to some end of each contig of a pair. *)
Definition valid_count (imap : IndexMap) (contigToLength : ContigToLength)
    (indexMultMap : gmap string Z) (params : ArcsParams) (e : CI) : Z :=
  barcode_count indexMultMap params
    (fun m => valid_end contigToLength params m e) imap.

Definition shared_count (imap : IndexMap) (contigToLength : ContigToLength)
    (indexMultMap : gmap string Z) (params : ArcsParams)
    (pair : ContigPair) (o : PairOrientation) : Z :=
  barcode_count indexMultMap params
    (fun m => valid_end contigToLength params m (first_end pair o)
              && valid_end contigToLength params m (second_end pair o)) imap.

Definition either_count (imap : IndexMap) (contigToLength : ContigToLength)
    (indexMultMap : gmap string Z) (params : ArcsParams)
    (pair : ContigPair) (o : PairOrientation) : Z :=
  barcode_count indexMultMap params
    (fun m => valid_end contigToLength params m (first_end pair o)
              || valid_end contigToLength params m (second_end pair o)) imap.

Definition pair_count (imap : IndexMap) (contigToLength : ContigToLength)
    (indexMultMap : gmap string Z) (params : ArcsParams)
    (pair : ContigPair) : Z :=
  barcode_count indexMultMap params
    (fun m => contig_seen contigToLength params m (pair.1)
              && contig_seen contigToLength params m (pair.2)) imap.

(** The record of a variant of a pair, counted from the barcodes. *)
Definition counted_record (imap : IndexMap) (contigToLength : ContigToLength)
    (indexMultMap : gmap string Z) (params : ArcsParams)
    (pair : ContigPair) (o : PairOrientation) : PairRecord :=
  {| ARCS.barcodesIntersect :=
       shared_count imap contigToLength indexMultMap params pair o;
     barcodes1 :=
       valid_count imap contigToLength indexMultMap params (first_end pair o);
     barcodes2 :=
       valid_count imap contigToLength indexMultMap params (second_end pair o);
     ARCS.barcodesUnion :=
       either_count imap contigToLength indexMultMap params pair o |}.

(** The entry of a pair, counted from the barcodes: a pair is stored
    with its first contig not after its second one, when some barcode
    maps to an end of each. *)
Definition counted_pair (imap : IndexMap) (contigToLength : ContigToLength)
    (indexMultMap : gmap string Z) (params : ArcsParams)
    (pair : ContigPair) : option PairRecords :=
  if negb (String.ltb (pair.2) (pair.1))
     && (0 <? pair_count imap contigToLength indexMultMap params pair)
  then Some {| recHH := counted_record imap contigToLength indexMultMap
                          params pair HH;
               recHT := counted_record imap contigToLength indexMultMap
                          params pair HT;
               recTH := counted_record imap contigToLength indexMultMap
                          params pair TH;
               recTT := counted_record imap contigToLength indexMultMap
                          params pair TT |}
  else None.

(** Every lookup of the first pass of [calcContigPairBarcodeStats]
    hits: each barcode has a multiplicity and, when it passes the filter,
    each contig it maps to has a length. *)
Definition pair_lookups_hit (imap : IndexMap)
    (contigToLength : ContigToLength) (indexMultMap : gmap string Z)
    (params : ArcsParams) : Prop :=
  forall index m, imap !! index = Some m ->
    exists indexMult, indexMultMap !! index = Some indexMult /\
      (mult_in_range indexMult params = true ->
       forall c e n, m !! (c, e) = Some n -> is_Some (contigToLength !! c)).

(** * Properties *)

(** ** Loops *)

Lemma entries_NoDup `{IterationOrder K} {A} (m : gmap K A) :
  NoDup ((entries m).*1).
Proof. rewrite entries_perm. apply NoDup_fst_map_to_list. Qed.

Lemma entries_map `{IterationOrder K} {A} (m : gmap K A) :
  list_to_map (entries m) = m.
Proof.
  rewrite <- (list_to_map_to_list m) at 2.
  apply list_to_map_proper; [apply entries_NoDup|apply entries_perm].
Qed.

Lemma elem_of_entries `{IterationOrder K} {A} (m : gmap K A) (k : K) (a : A) :
  (k, a) ∈ entries m <-> m !! k = Some a.
Proof. rewrite entries_perm. apply elem_of_map_to_list. Qed.

Lemma length_entries `{IterationOrder K} {A} (m : gmap K A) :
  length (entries m) = size m.
Proof. rewrite entries_perm. apply length_map_to_list. Qed.

(** Induction over a loop: what holds of the initial state and of no
    entry, and is kept when the body runs on one more entry, holds after
    the loop of all the entries. *)
Lemma for_each_ind `{IterationOrder K} {A B} (P : B -> gmap K A -> Prop)
    (body : K -> A -> B -> B) (b : B) :
  P b ∅ ->
  (forall i x m r, m !! i = None -> P r m -> P (body i x r) (<[i:=x]> m)) ->
  forall m, P (for_each body b m) m.
Proof.
  intros Hempty Hstep m. unfold for_each.
  rewrite <- (entries_map m) at 2.
  pose proof (entries_NoDup m) as Hnodup.
  induction (entries m) as [|[i x] l IH] using rev_ind; [done|].
  rewrite fmap_app in Hnodup. apply NoDup_app in Hnodup as (Hl & Hfresh & _).
  rewrite foldl_app. simpl.
  rewrite list_to_map_snoc.
  - apply Hstep; [|by apply IH].
    apply not_elem_of_list_to_map_1. intros Hi.
    apply (Hfresh i Hi). simpl. by left.
  - intros Hi. apply (Hfresh i Hi). simpl. by left.
Qed.

(** ** Machine integers *)

Lemma to_unsigned_id z : 0 <= z <= UINT_MAX -> to_unsigned z = z.
Proof. unfold to_unsigned, UINT_MAX. intros ?. apply Z.mod_small. lia. Qed.

Lemma to_unsigned_to_int z : to_unsigned (to_int z) = to_unsigned z.
Proof.
  unfold to_unsigned, to_int.
  rewrite Zminus_mod_idemp_l.
  f_equal. lia.
Qed.

Lemma to_unsigned_mul z1 z2 :
  to_unsigned (to_unsigned z1 * to_unsigned z2) = to_unsigned (z1 * z2).
Proof. unfold to_unsigned. by rewrite <- Zmult_mod. Qed.

Lemma uincr_small x : 0 <= x < UINT_MAX -> uincr x = x + 1.
Proof. unfold uincr. intros ?. apply to_unsigned_id. lia. Qed.

Lemma szincr_small x : 0 <= x < 2 ^ 64 - 1 -> szincr x = x + 1.
Proof. unfold szincr, to_size_t. intros ?. apply Z.mod_small. lia. Qed.

(** The two length bounds are the same number, whatever [end_length]. *)
Lemma min_length_agree params :
  sample_min_length params = valid_min_length params.
Proof.
  unfold sample_min_length, valid_min_length.
  by rewrite to_unsigned_mul, to_unsigned_to_int.
Qed.

Lemma valid_min_length_exact params :
  0 <= end_length params <= INT_MAX ->
  valid_min_length params = 2 * end_length params.
Proof.
  unfold valid_min_length, INT_MAX. intros ?.
  rewrite to_unsigned_to_int. apply to_unsigned_id. unfold UINT_MAX. lia.
Qed.

(** ** Doubles *)

Lemma Qpow2_pos (e : Z) : (0 < 2 ^ e)%Q.
Proof. by apply Qpower_0_lt. Qed.

Lemma Qpow2_add (a b : Z) : (2 ^ (a + b) == 2 ^ a * 2 ^ b)%Q.
Proof. by apply Qpower_plus. Qed.

Lemma Qpow2_succ (a : Z) : (2 ^ (a + 1) == 2 * 2 ^ a)%Q.
Proof. rewrite Qpow2_add. change (2 ^ 1)%Q with 2%Q. ring. Qed.

Lemma Qpow2_Z (a : Z) : 0 <= a -> (inject_Z (2 ^ a) == 2 ^ a)%Q.
Proof. intros Ha. by rewrite Zpower_Qpower. Qed.

Lemma Qlog2_spec (q : Q) :
  (0 < q)%Q -> (2 ^ Qlog2 q <= q < 2 ^ (Qlog2 q + 1))%Q.
Proof.
  intros Hq. unfold Qlog2.
  destruct q as [n d]. simpl Qnum. simpl Qden.
  assert (Hn : 0 < n) by (unfold Qlt in Hq; simpl in Hq; lia).
  set (a := Z.log2 n). set (b := Z.log2 (Z.pos d)).
  destruct (Z.log2_spec n Hn) as [Ha1 Ha2]. fold a in Ha1, Ha2.
  destruct (Z.log2_spec (Z.pos d) eq_refl) as [Hb1 Hb2]. fold b in Hb1, Hb2.
  assert (Ha0 : 0 <= a) by apply Z.log2_nonneg.
  assert (Hb0 : 0 <= b) by apply Z.log2_nonneg.
  (* bounds of q: 2^(a-b-1) < q < 2^(a-b+1) *)
  assert (Hq' : (n # d == inject_Z n / inject_Z (Z.pos d))%Q) by apply Qmake_Qdiv.
  assert (HA : (2 ^ a <= inject_Z n)%Q).
  { rewrite <- Qpow2_Z by done. by rewrite <- Zle_Qle. }
  assert (HA' : (inject_Z n < 2 * 2 ^ a)%Q).
  { rewrite <- Qpow2_succ, <- Qpow2_Z by lia. rewrite <- Zlt_Qlt.
    by replace (a + 1) with (Z.succ a) by lia. }
  assert (HB : (2 ^ b <= inject_Z (Z.pos d))%Q).
  { rewrite <- Qpow2_Z by done. by rewrite <- Zle_Qle. }
  assert (HB' : (inject_Z (Z.pos d) < 2 * 2 ^ b)%Q).
  { rewrite <- Qpow2_succ, <- Qpow2_Z by lia. rewrite <- Zlt_Qlt.
    by replace (b + 1) with (Z.succ b) by lia. }
  pose proof (Qpow2_pos a) as Pa. pose proof (Qpow2_pos b) as Pb.
  pose proof (Qpow2_pos (a - b)) as Pk.
  assert (Hk : (2 ^ (a - b) * 2 ^ b == 2 ^ a)%Q).
  { rewrite <- Qpow2_add. by replace (a - b + b) with a by lia. }
  assert (Hd : (0 < inject_Z (Z.pos d))%Q) by (by change 0%Q with (inject_Z 0); rewrite <- Zlt_Qlt).
  assert (Hqd : ((n # d) * inject_Z (Z.pos d) == inject_Z n)%Q).
  { rewrite Hq'. field. intros H0. rewrite H0 in Hd. by apply Qlt_irrefl in Hd. }
  set (q := (n # d)%Q) in *. set (D := inject_Z (Z.pos d)) in *.
  set (N := inject_Z n) in *.
  set (A := (2 ^ a)%Q) in *. set (B := (2 ^ b)%Q) in *.
  set (K := (2 ^ (a - b))%Q) in *.
  assert (Hlow : (K < 2 * q)%Q) by nra.
  assert (Hupp : (q < 2 * K)%Q) by nra.
  destruct (Qle_bool K q) eqn:Hle.
  - apply Qle_bool_iff in Hle. split; [done|].
    rewrite Qpow2_succ. by fold K.
  - assert (Hlt : (q < K)%Q).
    { apply Qnot_le_lt. intros H. apply Qle_bool_iff in H. congruence. }
    replace (a - b - 1 + 1) with (a - b) by lia. fold K.
    split; [|done].
    assert (Hk1 : (2 * 2 ^ (a - b - 1) == K)%Q).
    { unfold K. rewrite <- Qpow2_succ. by replace (a - b - 1 + 1) with (a - b) by lia. }
    lra.
Qed.

Lemma Qlog2_unique (q : Q) (e : Z) :
  (2 ^ e <= q < 2 ^ (e + 1))%Q -> Qlog2 q = e.
Proof.
  intros [He1 He2].
  assert (Hq : (0 < q)%Q) by (pose proof (Qpow2_pos e); lra).
  destruct (Qlog2_spec q Hq) as [H1 H2].
  assert (Qlog2 q < e + 1).
  { apply (Qpower_lt_compat_l_inv 2); [|done]. lra. }
  assert (e < Qlog2 q + 1).
  { apply (Qpower_lt_compat_l_inv 2); [|done]. lra. }
  lia.
Qed.

Lemma Qlog2_mono (q q' : Q) : (0 < q)%Q -> (q <= q')%Q -> Qlog2 q <= Qlog2 q'.
Proof.
  intros Hq Hle.
  destruct (Qlog2_spec q Hq) as [H1 _].
  destruct (Qlog2_spec q') as [_ H2]; [lra|].
  assert (Qlog2 q < Qlog2 q' + 1); [|lia].
  apply (Qpower_lt_compat_l_inv 2); [|done]. lra.
Qed.

Lemma round_half_even_floor (x : Q) :
  Qfloor x <= round_half_even x <= Qfloor x + 1.
Proof.
  unfold round_half_even.
  destruct (x - inject_Z (Qfloor x) ?= 1 # 2)%Q; [|lia..].
  destruct (Z.even (Qfloor x)); lia.
Qed.

Lemma round_half_even_Z (z : Z) : round_half_even (inject_Z z) = z.
Proof.
  unfold round_half_even. rewrite Qfloor_Z.
  assert ((inject_Z z - inject_Z z ?= 1 # 2)%Q = Lt) as ->; [|done].
  apply (proj1 (Qlt_alt _ _)). lra.
Qed.

Lemma round_half_even_mono (x y : Q) :
  (x <= y)%Q -> round_half_even x <= round_half_even y.
Proof.
  intros Hxy.
  pose proof (Qfloor_resp_le x y Hxy) as Hf.
  pose proof (round_half_even_floor x) as Hx.
  pose proof (round_half_even_floor y) as Hy.
  destruct (Z.eq_dec (Qfloor x) (Qfloor y)) as [Heq|Hne]; [|lia].
  unfold round_half_even in *. rewrite <- Heq in *.
  destruct (Qcompare_spec (x - inject_Z (Qfloor x)) (1 # 2)) as [Cx|Cx|Cx];
    destruct (Qcompare_spec (y - inject_Z (Qfloor x)) (1 # 2)) as [Cy|Cy|Cy];
    try lia; try lra; destruct (Z.even (Qfloor x)); lia.
Qed.

Lemma Qfloor_ge (x : Q) (z : Z) : (inject_Z z <= x)%Q -> z <= Qfloor x.
Proof. intros H. rewrite <- (Qfloor_Z z). by apply Qfloor_resp_le. Qed.

Lemma Qfloor_lt (x : Q) (z : Z) : (x < inject_Z z)%Q -> Qfloor x < z.
Proof.
  intros H. pose proof (Qfloor_le x) as Hf.
  rewrite Zlt_Qlt. lra.
Qed.

(** The significand of a positive rational has 53 bits. *)
Lemma significand_range (q : Q) :
  (0 < q)%Q ->
  2 ^ 52 <= round_half_even (q * 2 ^ (52 - Qlog2 q)) <= 2 ^ 53.
Proof.
  intros Hq. destruct (Qlog2_spec q Hq) as [H1 H2].
  set (e := Qlog2 q) in *.
  pose proof (Qpow2_pos (52 - e)) as Ps.
  assert (E1 : (2 ^ e * 2 ^ (52 - e) == inject_Z (2 ^ 52))%Q).
  { rewrite <- Qpow2_add, Qpow2_Z by lia. by replace (e + (52 - e)) with 52 by lia. }
  assert (E2 : (2 ^ (e + 1) * 2 ^ (52 - e) == inject_Z (2 ^ 53))%Q).
  { rewrite <- Qpow2_add, Qpow2_Z by lia.
    by replace (e + 1 + (52 - e)) with 53 by lia. }
  pose proof (round_half_even_floor (q * 2 ^ (52 - e))) as Hr.
  assert (2 ^ 52 <= Qfloor (q * 2 ^ (52 - e))).
  { apply Qfloor_ge. rewrite <- E1. by apply Qmult_le_compat_r; [|apply Qlt_le_weak]. }
  assert (Qfloor (q * 2 ^ (52 - e)) < 2 ^ 53).
  { apply Qfloor_lt. rewrite <- E2. by apply Qmult_lt_compat_r. }
  lia.
Qed.

Lemma round_pos_value (q : Q) :
  (round_pos q
   == inject_Z (round_half_even (q * 2 ^ (52 - Qlog2 q))) * 2 ^ (Qlog2 q - 52))%Q.
Proof. unfold round_pos. apply Qred_correct. Qed.

Lemma round_pos_bounds (q : Q) :
  (0 < q)%Q -> (2 ^ Qlog2 q <= round_pos q <= 2 ^ (Qlog2 q + 1))%Q.
Proof.
  intros Hq. rewrite round_pos_value.
  pose proof (significand_range q Hq) as [Hm1 Hm2].
  set (e := Qlog2 q) in *.
  set (m := round_half_even (q * 2 ^ (52 - e))) in *.
  pose proof (Qpow2_pos (e - 52)) as Ps.
  assert (E1 : (2 ^ e == inject_Z (2 ^ 52) * 2 ^ (e - 52))%Q).
  { rewrite Qpow2_Z, <- Qpow2_add by lia. by replace (52 + (e - 52)) with e by lia. }
  assert (E2 : (2 ^ (e + 1) == inject_Z (2 ^ 53) * 2 ^ (e - 52))%Q).
  { rewrite Qpow2_Z, <- Qpow2_add by lia.
    by replace (53 + (e - 52)) with (e + 1) by lia. }
  rewrite E1, E2. rewrite Zle_Qle in Hm1, Hm2.
  split; apply Qmult_le_compat_r; (done || by apply Qlt_le_weak).
Qed.

Lemma round_pos_mono (q q' : Q) :
  (0 < q)%Q -> (q <= q')%Q -> (round_pos q <= round_pos q')%Q.
Proof.
  intros Hq Hle.
  assert (Hq' : (0 < q')%Q) by lra.
  pose proof (Qlog2_mono q q' Hq Hle) as He.
  destruct (Z.eq_dec (Qlog2 q) (Qlog2 q')) as [Heq|Hne].
  - rewrite !round_pos_value. rewrite <- Heq.
    apply Qmult_le_compat_r; [|apply Qlt_le_weak, Qpow2_pos].
    rewrite <- Zle_Qle. apply round_half_even_mono.
    apply Qmult_le_compat_r; [done|apply Qlt_le_weak, Qpow2_pos].
  - destruct (round_pos_bounds q Hq) as [_ H1].
    destruct (round_pos_bounds q' Hq') as [H2 _].
    assert ((2 ^ (Qlog2 q + 1) <= 2 ^ Qlog2 q')%Q).
    { apply Qpower_le_compat_l; [lia|lra]. }
    lra.
Qed.

Lemma round64_pos (q : Q) : (0 < q)%Q -> round64 q = round_pos q.
Proof.
  intros Hq. unfold round64.
  by destruct (Qcompare_spec 0 q) as [H|H|H]; [lra| |lra].
Qed.

Lemma round64_0 (q : Q) : (q == 0)%Q -> round64 q = 0%Q.
Proof.
  intros Hq. unfold round64.
  by destruct (Qcompare_spec 0 q) as [H|H|H]; [|lra|lra].
Qed.

(** Rounding is monotone. *)
Lemma round64_mono (q q' : Q) :
  (0 <= q)%Q -> (q <= q')%Q -> (round64 q <= round64 q')%Q.
Proof.
  intros Hq Hle.
  destruct (Qlt_le_dec 0 q) as [Hpos|H0].
  - rewrite !round64_pos by lra. by apply round_pos_mono.
  - rewrite (round64_0 q) by lra.
    destruct (Qlt_le_dec 0 q') as [Hpos'|H0'].
    + rewrite round64_pos by done.
      destruct (round_pos_bounds q' Hpos') as [H _].
      pose proof (Qpow2_pos (Qlog2 q')). lra.
    + rewrite (round64_0 q') by lra. lra.
Qed.

(** The nearest integer is within 1/2. *)
Lemma round_half_even_nearest (x : Q) :
  (x - (1 # 2) <= inject_Z (round_half_even x) <= x + (1 # 2))%Q.
Proof.
  pose proof (Qfloor_le x) as Hlo. pose proof (Qlt_floor x) as Hhi.
  rewrite inject_Z_plus in Hhi. change (inject_Z 1) with 1%Q in Hhi.
  unfold round_half_even.
  destruct (Qcompare_spec (x - inject_Z (Qfloor x)) (1 # 2)) as [C|C|C].
  - destruct (Z.even (Qfloor x)); rewrite ?inject_Z_plus;
      change (inject_Z 1) with 1%Q; lra.
  - lra.
  - rewrite inject_Z_plus. change (inject_Z 1) with 1%Q. lra.
Qed.

(** The [double] of a positive rational is within half a unit in the
    last place of it: no [double] is nearer. *)
Lemma round64_nearest (q : Q) :
  (0 < q)%Q ->
  (q - 2 ^ (Qlog2 q - 53) <= round64 q <= q + 2 ^ (Qlog2 q - 53))%Q.
Proof.
  intros Hq. rewrite round64_pos by done. rewrite round_pos_value.
  set (e := Qlog2 q).
  pose proof (round_half_even_nearest (q * 2 ^ (52 - e))) as [H1 H2].
  set (m := inject_Z (round_half_even (q * 2 ^ (52 - e)))) in *.
  pose proof (Qpow2_pos (e - 52)) as Ps.
  assert (E1 : (2 ^ (52 - e) * 2 ^ (e - 52) == 1)%Q).
  { rewrite <- Qpow2_add. by replace (52 - e + (e - 52)) with 0 by lia. }
  assert (E2 : (2 * 2 ^ (e - 53) == 2 ^ (e - 52))%Q).
  { rewrite <- Qpow2_succ. by replace (e - 53 + 1) with (e - 52) by lia. }
  set (u := (2 ^ (e - 52))%Q) in *. set (v := (2 ^ (52 - e))%Q) in *.
  set (h := (2 ^ (e - 53))%Q) in *.
  assert (Hq1 : (q * v * u == q)%Q) by (rewrite <- Qmult_assoc, E1; ring).
  split.
  - assert ((q * v - (1 # 2)) * u <= m * u)%Q
      by (apply Qmult_le_compat_r; [done|by apply Qlt_le_weak]).
    nra.
  - assert (m * u <= (q * v + (1 # 2)) * u)%Q
      by (apply Qmult_le_compat_r; [done|by apply Qlt_le_weak]).
    nra.
Qed.

(** The quotient of two counters that is not 0 is in the normal range of
    a [double]. *)
Lemma ddiv_normal_range (a b : Z) :
  0 < a <= UINT_MAX -> 0 < b <= UINT_MAX ->
  -32 <= Qlog2 (inject_Z a / inject_Z b) <= 31.
Proof.
  unfold UINT_MAX. intros Ha Hb.
  assert (Ha' : (1 <= inject_Z a <= inject_Z (2 ^ 32 - 1))%Q)
    by (change 1%Q with (inject_Z 1); rewrite <- !Zle_Qle; lia).
  assert (Hb' : (1 <= inject_Z b <= inject_Z (2 ^ 32 - 1))%Q)
    by (change 1%Q with (inject_Z 1); rewrite <- !Zle_Qle; lia).
  change (inject_Z (2 ^ 32 - 1)) with (4294967295 # 1)%Q in *.
  set (q := (inject_Z a / inject_Z b)%Q).
  assert (Hq : (q * inject_Z b == inject_Z a)%Q) by (unfold q; field; lra).
  assert (Hlo : ((1 # 4294967296) <= q)%Q) by nra.
  assert (Hhi : (q < 4294967296 # 1)%Q) by nra.
  assert (Hpos : (0 < q)%Q) by lra.
  destruct (Qlog2_spec q Hpos) as [H1 H2].
  split.
  - assert (-32 < Qlog2 q + 1); [|lia].
    apply (Qpower_lt_compat_l_inv 2); [|done].
    change (2 ^ (-32))%Q with (/ (4294967296 # 1))%Q.
    change (/ (4294967296 # 1))%Q with (1 # 4294967296)%Q. lra.
  - assert (Qlog2 q < 32); [|lia].
    apply (Qpower_lt_compat_l_inv 2); [|done].
    change (2 ^ 32)%Q with (4294967296 # 1)%Q. lra.
Qed.

(** ** The eligibility predicate *)

(** The inner loop of [calcDistSamples] processes an observation exactly
    when its inline test accepts it. *)
Lemma sample_observation_eligible contigToLength params contigToCount
    contigID isHead readPairs l distSamples :
  contigToLength !! contigID = Some l ->
  sample_observation contigToLength params contigToCount
    (contigID, isHead) readPairs distSamples =
  Ok (if sample_eligible l readPairs params
      then <[contigID :=
               update_sample l isHead
                 (foundOther contigToCount contigID isHead params) params
                 (default DistSample_default (distSamples !! contigID))]>
             distSamples
      else distSamples).
Proof.
  intros Hl. unfold sample_observation, sample_eligible, at_key.
  destruct (readPairs <? min_reads params); [done|].
  rewrite Hl. simpl.
  by destruct (l <? sample_min_length params).
Qed.


(** ** The sample builder, one barcode at a time *)

Lemma result_bind_Ok {A B} (f : A -> result B) (r : result A) (b : B) :
  r ≫= f = Ok b -> exists a, r = Ok a /\ f a = Ok b.
Proof. destruct r as [a|e]; [eauto|discriminate]. Qed.

Lemma result_bind_Ok_l {A B} (f : A -> result B) (a : A) : Ok a ≫= f = f a.
Proof. reflexivity. Qed.

Lemma insert_subseteq_inv `{Countable K} {A} (m M : gmap K A) i x :
  m !! i = None -> <[i:=x]> m ⊆ M -> m ⊆ M /\ M !! i = Some x.
Proof.
  intros Hi Hsub. split.
  - etrans; [|exact Hsub]. by apply insert_subseteq.
  - eapply lookup_weaken; [|exact Hsub]. apply lookup_insert_eq.
Qed.

Lemma qualifies_insert (m : ScafMap) c1 e1 rp c e params :
  qualifies (<[(c1, e1) := rp]> m) c e params =
  if decide ((c1, e1) = (c, e)) then min_reads params <=? rp
  else qualifies m c e params.
Proof.
  unfold qualifies. rewrite lookup_insert.
  by destruct (decide ((c1, e1) = (c, e))).
Qed.

Lemma qualifies_None (m : ScafMap) c e params :
  m !! (c, e) = None -> qualifies m c e params = false.
Proof. unfold qualifies. by intros ->. Qed.

Lemma qualifies_Some (m : ScafMap) c e n params :
  m !! (c, e) = Some n -> qualifies m c e params = (min_reads params <=? n).
Proof. unfold qualifies. by intros ->. Qed.

Lemma qualifies_weaken (m M : ScafMap) c e params :
  m ⊆ M -> qualifies m c e params = true -> qualifies M c e params = true.
Proof.
  unfold qualifies. intros Hsub.
  destruct (m !! (c, e)) as [n|] eqn:Hm; [|done].
  by rewrite (lookup_weaken _ _ _ _ Hm Hsub).
Qed.

Lemma foundOther_qualifies m c isHead params :
  foundOther m c isHead params = qualifies m c (negb isHead) params.
Proof. reflexivity. Qed.

(** The state of the inner loop after the ends [m'] of the barcode have
    been visited. *)
Lemma sample_barcode_progress (contigToLength : ContigToLength)
    (params : ArcsParams) (M : ScafMap) (distSamples : DistSampleMap)
    (m' : ScafMap) :
  m' ⊆ M ->
  forall ds',
    for_each (fun key readPairs acc =>
                acc ≫= sample_observation contigToLength params M key readPairs)
             (Ok distSamples) m' = Ok ds' ->
    forall c, ds' !! c = progress_lookup contigToLength params m' M distSamples c.
Proof.
  revert m'.
  apply (for_each_ind (fun r m' => m' ⊆ M -> forall ds', r = Ok ds' ->
    forall c, ds' !! c = progress_lookup contigToLength params m' M distSamples c)).
  { intros _ ds' [= <-] c. unfold progress_lookup.
    rewrite !qualifies_None by apply lookup_empty.
    destruct (contigToLength !! c) as [l|]; [|done].
    by destruct (sample_min_length params <=? l). }
  intros [c1 e1] rp m' r Hfresh IH Hsub ds'' Hstep c.
  apply insert_subseteq_inv in Hsub as [Hsub HM]; [|done].
  apply result_bind_Ok in Hstep as (ds' & -> & Hstep).
  specialize (IH Hsub ds' eq_refl).
  unfold sample_observation, at_key in Hstep.
  destruct (Z.ltb_spec rp (min_reads params)) as [Hrp|Hrp].
  { injection Hstep as <-. rewrite IH. unfold progress_lookup.
    rewrite !qualifies_insert.
    assert ((min_reads params <=? rp) = false) as -> by (apply Z.leb_gt; lia).
    repeat case_decide; simplify_eq;
      by rewrite ?(qualifies_None _ _ _ params Hfresh). }
  destruct (contigToLength !! c1) as [l|] eqn:Hl; [simpl in Hstep|done].
  destruct (Z.ltb_spec l (sample_min_length params)) as [Hshort|Hlong].
  { injection Hstep as <-. rewrite IH. unfold progress_lookup.
    destruct (decide (c = c1)) as [->|Hc].
    - rewrite Hl. assert ((sample_min_length params <=? l) = false) as ->
        by (apply Z.leb_gt; lia).
      done.
    - rewrite !qualifies_insert. repeat case_decide; simplify_eq; done. }
  injection Hstep as <-.
  destruct (decide (c = c1)) as [->|Hc].
  2:{ rewrite lookup_insert_ne by done. rewrite IH. unfold progress_lookup.
      rewrite !qualifies_insert. repeat case_decide; simplify_eq; done. }
  rewrite lookup_insert_eq, IH. unfold progress_lookup. rewrite Hl.
  assert ((sample_min_length params <=? l) = true) as ->
    by (apply Z.leb_le; lia).
  rewrite !qualifies_insert, foundOther_qualifies.
  assert ((min_reads params <=? rp) = true) as Hq by (apply Z.leb_le; lia).
  assert (qualifies M c1 e1 params = true) as HqM
    by (by rewrite (qualifies_Some _ _ _ _ _ HM)).
  pose proof (qualifies_None _ _ _ params Hfresh) as Hq'.
  pose proof (qualifies_weaken m' M c1 (negb e1) params Hsub) as Hw.
  destruct e1; simpl negb in *.
  - rewrite decide_True, decide_False by (done || congruence).
    rewrite Hq, Hq', HqM. simpl.
    destruct (qualifies m' c1 false params) eqn:Ho.
    + by rewrite (Hw eq_refl).
    + by destruct (qualifies M c1 false params).
  - rewrite decide_False, decide_True by (done || congruence).
    rewrite Hq, Hq', HqM. simpl.
    destruct (qualifies m' c1 true params) eqn:Ho.
    + by rewrite (Hw eq_refl).
    + by destruct (qualifies M c1 true params).
Qed.

Lemma sample_barcode_lookup (contigToLength : ContigToLength)
    (params : ArcsParams) (m : ScafMap) (distSamples ds' : DistSampleMap) :
  sample_barcode contigToLength params m distSamples = Ok ds' ->
  forall c, ds' !! c = progress_lookup contigToLength params m m distSamples c.
Proof. intros Hb c. by apply (sample_barcode_progress _ _ m distSamples m). Qed.

Lemma sample_index_Ok (contigToLength : ContigToLength)
    (indexMultMap : gmap string Z) (params : ArcsParams) (index : string)
    (m : ScafMap) (distSamples ds' : DistSampleMap) :
  sample_index contigToLength indexMultMap params index m distSamples = Ok ds' ->
  exists indexMult, indexMultMap !! index = Some indexMult /\
    if mult_in_range indexMult params
    then sample_barcode contigToLength params m distSamples = Ok ds'
    else ds' = distSamples.
Proof.
  unfold sample_index, at_key.
  destruct (indexMultMap !! index) as [k|]; [simpl|done].
  intros Hb. exists k. split; [done|].
  destruct (mult_in_range k params); [done|]. by injection Hb.
Qed.

Lemma sample_min_length_exact params :
  0 <= end_length params <= INT_MAX ->
  sample_min_length params = 2 * end_length params.
Proof. rewrite min_length_agree. apply valid_min_length_exact. Qed.

(** C6, as amended: a barcode that passes the multiplicity filter and
    qualifies at both ends of a contig whose length is at least the bound
    of line 96 adds one to the contig's [barcodesIntersect] and one to its
    [barcodesUnion], both when the head observation is processed and none
    when the tail observation is; a barcode that qualifies at exactly one
    end adds one to [barcodesUnion] and leaves [barcodesIntersect].  A
    contig shorter than the bound is skipped: its entry is left as it
    is.  The bound is [(unsigned) 2 * end_length], that is twice the end
    length when the end length is a non-negative [int]. *)
Theorem barcode_contribution (contigToLength : ContigToLength)
    (indexMultMap : gmap string Z) (params : ArcsParams) (index : string)
    (contigToCount : ScafMap) (distSamples distSamples' : DistSampleMap)
    (contigID : string) (l indexMult : Z) :
  contigToLength !! contigID = Some l ->
  indexMultMap !! index = Some indexMult ->
  mult_in_range indexMult params = true ->
  sample_index contigToLength indexMultMap params index contigToCount
    distSamples = Ok distSamples' ->
  let before := sample_of distSamples contigID in
  let after := sample_of distSamples' contigID in
  let head := qualifies contigToCount contigID true params in
  let tail := qualifies contigToCount contigID false params in
  let bound := sample_min_length params in
  (0 <= end_length params <= INT_MAX -> bound = 2 * end_length params) /\
  (bound <= l ->
     (head = true /\ tail = true ->
        barcodesIntersect after = uincr (barcodesIntersect before) /\
        barcodesUnion after = uincr (barcodesUnion before) /\
        forall s,
          let at_head :=
            update_sample l true (foundOther contigToCount contigID true params)
              params s in
          let at_tail :=
            update_sample l false
              (foundOther contigToCount contigID false params) params s in
          barcodesIntersect at_head = uincr (barcodesIntersect s) /\
          barcodesUnion at_head = uincr (barcodesUnion s) /\
          barcodesIntersect at_tail = barcodesIntersect s /\
          barcodesUnion at_tail = barcodesUnion s) /\
     (head <> tail ->
        barcodesIntersect after = barcodesIntersect before /\
        barcodesUnion after = uincr (barcodesUnion before))) /\
  (l < bound -> distSamples' !! contigID = distSamples !! contigID).
Proof.
  intros Hl Hmult Hrange Hstep before after head tail bound.
  split; [apply sample_min_length_exact|].
  apply sample_index_Ok in Hstep as (k & Hk & Hstep).
  assert (k = indexMult) as -> by congruence.
  rewrite Hrange in Hstep.
  pose proof (sample_barcode_lookup _ _ _ _ _ Hstep contigID) as Hc.
  unfold progress_lookup in Hc. rewrite Hl in Hc. fold bound in Hc.
  split.
  - intros Hlong.
    assert ((bound <=? l) = true) as Hle by (apply Z.leb_le; lia).
    rewrite Hle in Hc. simpl in Hc.
    assert (Hafter : head || tail = true ->
              after = barcode_progress l params head tail head tail before).
    { intros Hht. subst after. unfold sample_of at 1. rewrite Hc.
      fold head tail. by rewrite Hht. }
    rewrite !foundOther_qualifies. simpl negb. fold head tail.
    split.
    + intros [Hh Ht]. rewrite Hafter by (by rewrite Hh). rewrite Hh, Ht.
      simpl. repeat split.
    + destruct head, tail; try done; intros _; by rewrite Hafter.
  - intros Hshort.
    assert ((bound <=? l) = false) as Hle by (apply Z.leb_gt; lia).
    by rewrite Hle in Hc.
Qed.

(** ** The samples of [calcDistSamples] *)

Lemma counters_ok_default n : 0 <= n -> counters_ok n DistSample_default.
Proof. unfold counters_ok. simpl. lia. Qed.

Lemma counters_ok_mono n n' s : n <= n' -> counters_ok n s -> counters_ok n' s.
Proof. unfold counters_ok. lia. Qed.

(** One barcode that qualifies at an end of the contig keeps the counters
    consistent and makes the union positive. *)
Lemma counters_ok_progress n l params (h t : bool) s :
  counters_ok n s -> 0 <= n < UINT_MAX -> h || t = true ->
  counters_ok (n + 1) (barcode_progress l params h t h t s) /\
  1 <= barcodesUnion (barcode_progress l params h t h t s).
Proof.
  unfold counters_ok. intros (HI & HU & Hh & Ht & Hsum) Hn Hht.
  destruct h, t; try discriminate; simpl;
    rewrite ?uincr_small by lia; lia.
Qed.

Lemma sample_ok_mono contigToLength params n n' c s :
  n <= n' -> sample_ok contigToLength params n c s ->
  sample_ok contigToLength params n' c s.
Proof.
  intros Hn (Hd & Hc & HU). split; [done|]. split; [|done].
  by apply (counters_ok_mono n).
Qed.

(** After the barcodes of [imap], started from no sample, every stored
    sample belongs to a contig of sufficient length, carries its distance
    and has consistent counters. *)
Lemma calcDistSamples_sample_ok (contigToLength : ContigToLength)
    (indexMultMap : gmap string Z) (params : ArcsParams) (imap : IndexMap) :
  Z.of_nat (size imap) <= UINT_MAX ->
  forall distSamples,
    calcDistSamples imap contigToLength indexMultMap params ∅ = Ok distSamples ->
    forall c s, distSamples !! c = Some s ->
      sample_ok contigToLength params (Z.of_nat (size imap)) c s.
Proof.
  unfold calcDistSamples.
  apply (for_each_ind (fun r (im : IndexMap) =>
    Z.of_nat (size im) <= UINT_MAX -> forall ds, r = Ok ds ->
    forall c s, ds !! c = Some s ->
      sample_ok contigToLength params (Z.of_nat (size im)) c s)).
  { intros _ ds [= <-] c s Hc. by rewrite lookup_empty in Hc. }
  intros index m im r Hfresh IH Hsize ds Hstep c s Hc.
  rewrite map_size_insert_None in * by done.
  apply result_bind_Ok in Hstep as (ds0 & -> & Hstep).
  assert (Hsize0 : Z.of_nat (size im) <= UINT_MAX) by lia.
  specialize (IH Hsize0 ds0 eq_refl).
  assert (Hold : ds0 !! c = Some s ->
            sample_ok contigToLength params (Z.of_nat (S (size im))) c s).
  { intros H0. apply (sample_ok_mono _ _ (Z.of_nat (size im))); [lia|].
    by apply IH. }
  apply sample_index_Ok in Hstep as (k & _ & Hstep).
  destruct (mult_in_range k params); [|subst ds; by apply Hold].
  pose proof (sample_barcode_lookup _ _ _ _ _ Hstep c) as Hlook.
  rewrite Hc in Hlook. unfold progress_lookup in Hlook.
  destruct (contigToLength !! c) as [l|] eqn:Hl; [|by apply Hold].
  destruct (Z.leb_spec (sample_min_length params) l) as [Hlong|Hshort];
    [|by apply Hold].
  destruct (qualifies m c true params || qualifies m c false params) eqn:Hq;
    [|by apply Hold].
  simpl in Hlook. injection Hlook as ->.
  assert (Hpre : counters_ok (Z.of_nat (size im)) (sample_of ds0 c)).
  { unfold sample_of. destruct (ds0 !! c) as [s0|] eqn:H0; simpl.
    - by destruct (IH c s0 H0) as (_ & ? & _).
    - apply counters_ok_default. lia. }
  destruct (counters_ok_progress _ l params (qualifies m c true params)
              (qualifies m c false params) _ Hpre) as [Hok HU];
    [lia|exact Hq|].
  split; [|split; [|exact HU]].
  - exists l. by repeat split.
  - by replace (Z.of_nat (S (size im))) with (Z.of_nat (size im) + 1) by lia.
Qed.

Lemma sample_distance_exact l params :
  0 <= end_length params <= INT_MAX -> is_unsigned l ->
  sample_min_length params <= l ->
  sample_distance l params = l - 2 * end_length params.
Proof.
  intros He Hl Hlong. unfold sample_distance.
  rewrite (sample_min_length_exact _ He) in Hlong.
  fold (valid_min_length params). rewrite (valid_min_length_exact _ He).
  apply to_unsigned_id. unfold is_unsigned in Hl. lia.
Qed.

(** The run raises nothing when every barcode has a multiplicity and
    every contig a length. *)
Lemma sample_barcode_total (contigToLength : ContigToLength)
    (params : ArcsParams) (m : ScafMap) (distSamples : DistSampleMap) :
  (forall c e n, m !! (c, e) = Some n -> is_Some (contigToLength !! c)) ->
  exists ds', sample_barcode contigToLength params m distSamples = Ok ds'.
Proof.
  unfold sample_barcode.
  cut (forall m' : ScafMap,
    (forall c e n, m' !! (c, e) = Some n -> is_Some (contigToLength !! c)) ->
    exists ds',
      for_each (fun key readPairs acc =>
                  acc ≫= sample_observation contigToLength params m
                           key readPairs)
               (Ok distSamples) m' = Ok ds').
  { intros Hgen. apply Hgen. }
  apply (for_each_ind (fun r (m' : ScafMap) =>
    (forall c e n, m' !! (c, e) = Some n -> is_Some (contigToLength !! c)) ->
    exists ds', r = Ok ds')).
  { eauto. }
  intros [c1 e1] rp m' r Hfresh IH Hlen.
  destruct IH as [ds' ->].
  { intros c e n Hc. apply (Hlen c e n).
    rewrite lookup_insert_ne; [done|]. intros [= -> ->].
    pose proof (eq_trans (eq_sym Hc) Hfresh). done. }
  destruct (Hlen c1 e1 rp) as [l Hl]; [apply lookup_insert_eq|].
  unfold mbind, result_bind.
  rewrite (sample_observation_eligible _ _ _ _ _ _ l) by done. eauto.
Qed.

Lemma calcDistSamples_total (imap : IndexMap) (contigToLength : ContigToLength)
    (indexMultMap : gmap string Z) (params : ArcsParams)
    (distSamples : DistSampleMap) :
  (forall index m, imap !! index = Some m ->
     is_Some (indexMultMap !! index) /\
     forall c e n, m !! (c, e) = Some n -> is_Some (contigToLength !! c)) ->
  exists ds',
    calcDistSamples imap contigToLength indexMultMap params distSamples = Ok ds'.
Proof.
  unfold calcDistSamples. revert imap.
  apply (for_each_ind (fun r (im : IndexMap) =>
    (forall index m, im !! index = Some m ->
       is_Some (indexMultMap !! index) /\
       forall c e n, m !! (c, e) = Some n -> is_Some (contigToLength !! c)) ->
    exists ds', r = Ok ds')).
  { eauto. }
  intros index m im r Hfresh IH Hall.
  destruct IH as [ds0 ->].
  { intros i m0 Hi. apply Hall. rewrite lookup_insert_ne; [done|].
    intros ->. pose proof (eq_trans (eq_sym Hi) Hfresh). done. }
  destruct (Hall index m) as [[k Hk] Hlen]; [apply lookup_insert_eq|].
  simpl. unfold sample_index, at_key. rewrite Hk. simpl.
  destruct (mult_in_range k params); [|eauto].
  by apply sample_barcode_total.
Qed.

(** A sample is stored only for a contig at an end of which some barcode
    within the multiplicity range qualifies. *)
Lemma calcDistSamples_observed (contigToLength : ContigToLength)
    (indexMultMap : gmap string Z) (params : ArcsParams) (imap : IndexMap) :
  forall distSamples,
    calcDistSamples imap contigToLength indexMultMap params ∅ = Ok distSamples ->
    forall c s, distSamples !! c = Some s ->
      exists index m k,
        imap !! index = Some m /\
        indexMultMap !! index = Some k /\
        mult_in_range k params = true /\
        qualifies m c true params || qualifies m c false params = true.
Proof.
  unfold calcDistSamples.
  apply (for_each_ind (fun r (im : IndexMap) =>
    forall ds, r = Ok ds -> forall c s, ds !! c = Some s ->
      exists index m k,
        im !! index = Some m /\
        indexMultMap !! index = Some k /\
        mult_in_range k params = true /\
        qualifies m c true params || qualifies m c false params = true)).
  { intros ds [= <-] c s Hc. by rewrite lookup_empty in Hc. }
  intros index m im r Hfresh IH ds Hstep c s Hc.
  apply result_bind_Ok in Hstep as (ds0 & -> & Hstep).
  specialize (IH ds0 eq_refl c).
  assert (Hold : ds0 !! c = Some s ->
            exists index' m' k,
              <[index:=m]> im !! index' = Some m' /\
              indexMultMap !! index' = Some k /\
              mult_in_range k params = true /\
              qualifies m' c true params || qualifies m' c false params = true).
  { intros H0. destruct (IH s H0) as (index' & m' & k & Him & Hrest).
    exists index', m', k. split; [|done].
    rewrite lookup_insert_ne; [done|]. intros ->.
    pose proof (eq_trans (eq_sym Him) Hfresh). done. }
  apply sample_index_Ok in Hstep as (k & Hk & Hstep).
  destruct (mult_in_range k params) eqn:Hrange; [|subst ds; by apply Hold].
  pose proof (sample_barcode_lookup _ _ _ _ _ Hstep c) as Hlook.
  rewrite Hc in Hlook. unfold progress_lookup in Hlook.
  destruct (contigToLength !! c) as [l|]; [|by apply Hold].
  destruct (sample_min_length params <=? l); [|by apply Hold].
  destruct (qualifies m c true params || qualifies m c false params) eqn:Hq;
    [|by apply Hold].
  exists index, m, k. split; [apply lookup_insert_eq|done].
Qed.

(** C7: every sample in the map built by [calcDistSamples] has
    [0 <= barcodesIntersect <= barcodesUnion] and [barcodesUnion >= 1],
    its distance is the length of its contig minus twice the end length,
    and some barcode of the input qualifies at an end of its contig. *)
Theorem sample_invariant (contigToLength : ContigToLength)
    (indexMultMap : gmap string Z) (params : ArcsParams) (imap : IndexMap)
    (distSamples : DistSampleMap) (contigID : string) (s : DistSample) :
  0 <= end_length params <= INT_MAX ->
  map_Forall (fun _ l => is_unsigned l) contigToLength ->
  Z.of_nat (size imap) <= UINT_MAX ->
  calcDistSamples imap contigToLength indexMultMap params ∅ = Ok distSamples ->
  distSamples !! contigID = Some s ->
  0 <= barcodesIntersect s <= barcodesUnion s /\
  1 <= barcodesUnion s /\
  (exists l, contigToLength !! contigID = Some l /\
             distance s = l - 2 * end_length params) /\
  (exists index m k,
     imap !! index = Some m /\
     indexMultMap !! index = Some k /\
     mult_in_range k params = true /\
     qualifies m contigID true params || qualifies m contigID false params
       = true).
Proof.
  intros He Hlen Hsize Hrun Hs.
  destruct (calcDistSamples_sample_ok _ _ _ _ Hsize _ Hrun _ _ Hs)
    as ((l & Hl & Hlong & Hd) & (HI & _) & HU).
  split; [done|]. split; [done|]. split.
  - exists l. split; [done|]. rewrite Hd.
    apply sample_distance_exact; [done| |done].
    by apply (Hlen contigID).
  - by apply (calcDistSamples_observed _ _ _ _ _ Hrun _ s).
Qed.

(** ** The calibration index *)

Lemma key_in_cons k k0 ks : key_in k (k0 :: ks) = Qeq_bool k k0 || key_in k ks.
Proof. reflexivity. Qed.

Lemma Qeq_bool_trans_r k k1 k2 : (k1 == k2)%Q -> Qeq_bool k k1 = Qeq_bool k k2.
Proof.
  intros H12. destruct (Qeq_bool k k2) eqn:H2.
  - apply Qeq_bool_iff. apply Qeq_bool_iff in H2. by rewrite H12.
  - destruct (Qeq_bool k k1) eqn:H1; [|done].
    apply Qeq_bool_iff in H1. rewrite H12 in H1.
    apply Qeq_bool_iff in H1. congruence.
Qed.

Lemma key_in_map_insert k k' s m :
  key_in k (keys (map_insert k' s m)) = Qeq_bool k k' || key_in k (keys m).
Proof.
  induction m as [|[k0 s0] m IH]; simpl; [done|].
  destruct (k' ?= k0)%Q eqn:Hcmp; simpl.
  - apply Qeq_alt in Hcmp. fold (keys m).
    rewrite (Qeq_bool_trans_r k k' k0 Hcmp).
    by destruct (Qeq_bool k k0).
  - done.
  - change (Qeq_bool k k0 || key_in k (keys (map_insert k' s m))
            = Qeq_bool k k' || (Qeq_bool k k0 || key_in k (keys m))).
    rewrite IH. by destruct (Qeq_bool k k0), (Qeq_bool k k').
Qed.

Lemma key_in_false_lt k (m : JaccardToDist) :
  Forall (fun e => (k < e.1)%Q) m -> key_in k (keys m) = false.
Proof.
  induction 1 as [|[k0 s0] m Hlt _ IH]; [done|].
  change (Qeq_bool k k0 || key_in k (keys m) = false).
  rewrite IH, orb_false_r.
  destruct (Qeq_bool k k0) eqn:Heq; [|done].
  apply Qeq_bool_iff in Heq. simpl in Hlt. rewrite Heq in Hlt.
  by apply Qlt_irrefl in Hlt.
Qed.

Lemma map_insert_Forall (P : Q * DistSample -> Prop) k s m :
  P (k, s) -> Forall P m -> Forall P (map_insert k s m).
Proof.
  intros Hk. induction 1 as [|[k0 s0] m H0 Hm IH]; simpl.
  - by constructor.
  - destruct (k ?= k0)%Q; repeat constructor; done.
Qed.

Lemma map_insert_sorted k s m :
  StronglySorted key_lt m -> StronglySorted key_lt (map_insert k s m).
Proof.
  induction 1 as [|[k0 s0] m Hm IH Hall]; simpl.
  - repeat constructor.
  - destruct (k ?= k0)%Q eqn:Hcmp.
    + by constructor.
    + apply Qlt_alt in Hcmp. constructor; [by constructor|].
      constructor; [exact Hcmp|].
      eapply Forall_impl; [exact Hall|].
      intros [k1 s1]. unfold key_lt. simpl. intros H01.
      by apply (Qlt_trans _ k0).
    + apply Qgt_alt in Hcmp. constructor; [exact IH|].
      by apply map_insert_Forall.
Qed.

Lemma map_insert_length k s m :
  StronglySorted key_lt m ->
  length (map_insert k s m)
  = if key_in k (keys m) then length m else S (length m).
Proof.
  induction 1 as [|[k0 s0] m Hm IH Hall]; [done|].
  change (keys ((k0, s0) :: m)) with (k0 :: keys m).
  rewrite key_in_cons. simpl.
  destruct (k ?= k0)%Q eqn:Hcmp.
  - apply Qeq_alt in Hcmp. apply Qeq_bool_iff in Hcmp. by rewrite Hcmp.
  - apply Qlt_alt in Hcmp.
    rewrite key_in_false_lt.
    + destruct (Qeq_bool k k0) eqn:Heq; [|done].
      apply Qeq_bool_iff in Heq. rewrite Heq in Hcmp.
      by apply Qlt_irrefl in Hcmp.
    + eapply Forall_impl; [exact Hall|].
      intros [k1 s1]. unfold key_lt. simpl. intros H01.
      by apply (Qlt_trans _ k0).
  - apply Qgt_alt in Hcmp.
    destruct (Qeq_bool k k0) eqn:Heq.
    { apply Qeq_bool_iff in Heq. rewrite Heq in Hcmp.
      by apply Qlt_irrefl in Hcmp. }
    simpl. rewrite IH. by destruct (key_in k (keys m)).
Qed.

Lemma map_insert_elem k s m e :
  e ∈ map_insert k s m -> e = (k, s) \/ e ∈ m.
Proof.
  induction m as [|[k0 s0] m IH]; simpl.
  - intros ->%list_elem_of_singleton. by left.
  - destruct (k ?= k0)%Q.
    + by right.
    + intros [->|He]%elem_of_cons; [by left|by right].
    + intros [->|He]%elem_of_cons; [right; by left|].
      destruct (IH He) as [->|Hm]; [by left|right; by right].
Qed.

Lemma key_in_true k ks :
  key_in k ks = true <-> exists k', k' ∈ ks /\ (k == k')%Q.
Proof.
  unfold key_in. rewrite existsb_exists. split.
  - intros (k' & Hin & Heq). exists k'. split.
    + by apply list_elem_of_In.
    + by apply Qeq_bool_iff.
  - intros (k' & Hin & Heq). exists k'. split.
    + by apply list_elem_of_In.
    + by apply Qeq_bool_iff.
Qed.

Lemma distinct_keys_le ks : (distinct_keys ks <= length ks)%nat.
Proof.
  induction ks as [|k ks IH]; simpl; [done|].
  destruct (key_in k ks); lia.
Qed.

Lemma Qeq_bool_sym (k k' : Q) : Qeq_bool k k' = Qeq_bool k' k.
Proof.
  destruct (Qeq_bool k' k) eqn:H.
  - apply Qeq_bool_iff. apply Qeq_bool_iff in H. by symmetry.
  - destruct (Qeq_bool k k') eqn:H'; [|done].
    apply Qeq_bool_iff in H'. symmetry in H'. apply Qeq_bool_iff in H'.
    congruence.
Qed.

Lemma key_in_snoc k ks k' : key_in k (ks ++ [k']) = key_in k ks || Qeq_bool k k'.
Proof. unfold key_in. rewrite existsb_app. simpl. by rewrite orb_false_r. Qed.

Lemma key_in_Qeq k k' ks : (k == k')%Q -> key_in k ks = key_in k' ks.
Proof.
  intros Heq. induction ks as [|k0 ks IH]; [done|].
  rewrite !key_in_cons, IH. f_equal.
  rewrite (Qeq_bool_sym k k0), (Qeq_bool_sym k' k0).
  by apply Qeq_bool_trans_r.
Qed.

(** Counting the distinct keys from either end of the list gives the
    same number. *)
Lemma distinct_keys_snoc ks k :
  distinct_keys (ks ++ [k])
  = if key_in k ks then distinct_keys ks else S (distinct_keys ks).
Proof.
  induction ks as [|k0 ks IH]; [done|].
  change ((k0 :: ks) ++ [k]) with (k0 :: (ks ++ [k])).
  change (distinct_keys (k0 :: (ks ++ [k])))
    with (if key_in k0 (ks ++ [k]) then distinct_keys (ks ++ [k])
          else S (distinct_keys (ks ++ [k]))).
  change (distinct_keys (k0 :: ks))
    with (if key_in k0 ks then distinct_keys ks else S (distinct_keys ks)).
  rewrite IH, key_in_snoc, key_in_cons.
  destruct (Qeq_bool k k0) eqn:Heq.
  - rewrite (Qeq_bool_sym k0 k), Heq.
    apply Qeq_bool_iff in Heq. rewrite (key_in_Qeq k k0 ks Heq).
    destruct (key_in k0 ks); simpl; done.
  - rewrite (Qeq_bool_sym k0 k), Heq.
    destruct (key_in k0 ks), (key_in k ks); simpl; done.
Qed.

(** The index built from a list of samples, first sample first. *)
Lemma index_of_list (l : list (string * DistSample)) :
  let index :=
    foldl (fun acc (e : string * DistSample) =>
             map_insert (sample_jaccard (e.2)) (e.2) acc) [] l in
  let ks := map (fun e => sample_jaccard (e.2)) l in
  StronglySorted key_lt index /\
  (forall k, key_in k (keys index) = key_in k ks) /\
  length index = distinct_keys ks /\
  (forall e, e ∈ index -> exists c, (c, e.2) ∈ l /\ e.1 = sample_jaccard (e.2)).
Proof.
  induction l as [|[c s] l (Hsorted & Hkeys & Hlen & Hin)] using rev_ind.
  { repeat split; [constructor|]. by intros e ?%elem_of_nil. }
  rewrite foldl_app, map_app. simpl.
  split; [by apply map_insert_sorted|].
  split; [|split].
  - intros k. rewrite key_in_map_insert, Hkeys, key_in_snoc.
    apply orb_comm.
  - rewrite map_insert_length by done.
    rewrite Hkeys, Hlen, distinct_keys_snoc. reflexivity.
  - intros e [->|He]%map_insert_elem.
    + exists c. split; [|done]. apply elem_of_app. right. by left.
    + destruct (Hin e He) as (c' & Hc' & Hk). exists c'.
      split; [|done]. apply elem_of_app. by left.
Qed.

Lemma key_in_lookup (k k' : Q) (ks : list Q) (i : nat) :
  ks !! i = Some k' -> (k == k')%Q -> key_in k ks = true.
Proof.
  intros Hi Heq. apply key_in_true. exists k'. split; [|done].
  by apply (list_elem_of_lookup_2 _ i).
Qed.

(** A list in which two positions hold equal keys has fewer distinct
    keys than elements. *)
Lemma distinct_keys_tie (ks : list Q) (i j : nat) (k k' : Q) :
  (i < j)%nat -> ks !! i = Some k -> ks !! j = Some k' -> (k == k')%Q ->
  (distinct_keys ks < length ks)%nat.
Proof.
  revert i j. induction ks as [|k0 ks IH]; intros i j Hij Hi Hj Heq; [done|].
  pose proof (distinct_keys_le ks) as Hle.
  change (distinct_keys (k0 :: ks))
    with (if key_in k0 ks then distinct_keys ks else S (distinct_keys ks)).
  destruct j as [|j]; [lia|]. simpl in Hj.
  destruct i as [|i]; simpl in Hi.
  - injection Hi as ->. rewrite (key_in_lookup k k' ks j Hj Heq). simpl. lia.
  - assert (distinct_keys ks < length ks)%nat
      by (apply (IH i j); (done || lia)).
    destruct (key_in k0 ks); simpl; lia.
Qed.

(** C2, as amended: the index keeps one sample for each distinct Jaccard
    key, a key being the [double] that the quotient rounds to.  Its keys
    are strictly increasing, the key of every input sample is a key of
    the index, every entry is an input sample under its own key, and the
    number of entries is the number of distinct keys of the input, at
    most the number of samples: a sample whose key is already present is
    not inserted, so that two samples with equal keys leave the index
    with fewer entries than there are samples. *)
Theorem index_keeps_one_sample_per_key (distSamples : DistSampleMap) :
  map_Forall (fun _ s => 0 < barcodesUnion s) distSamples ->
  let index := buildJaccardToDist distSamples [] in
  StronglySorted key_lt index /\
  (forall c s, distSamples !! c = Some s ->
     exists e, e ∈ index /\ (e.1 == sample_jaccard s)%Q) /\
  (forall k s, (k, s) ∈ index ->
     k = sample_jaccard s /\ exists c, distSamples !! c = Some s) /\
  length index = distinct_keys (sample_keys distSamples) /\
  (length index <= size distSamples)%nat /\
  (forall c1 c2 s1 s2,
     c1 <> c2 -> distSamples !! c1 = Some s1 -> distSamples !! c2 = Some s2 ->
     (sample_jaccard s1 == sample_jaccard s2)%Q ->
     (length index < size distSamples)%nat).
Proof.
  intros _ index. subst index. unfold buildJaccardToDist, for_each.
  destruct (index_of_list (entries distSamples))
    as (Hsorted & Hkeys & Hlen & Hin).
  split; [exact Hsorted|]. split; [|split; [|split; [|split]]].
  - intros c s Hs.
    assert (Hk : key_in (sample_jaccard s) (sample_keys distSamples) = true).
    { apply key_in_true. exists (sample_jaccard s). split; [|reflexivity].
      apply (list_elem_of_fmap_2 (fun e => sample_jaccard (e.2)) _ (c, s)).
      by apply elem_of_entries. }
    unfold sample_keys in Hk. rewrite <- Hkeys in Hk.
    apply key_in_true in Hk as (k' & Hk' & Heq).
    apply list_elem_of_fmap in Hk' as (e & -> & He).
    exists e. split; [done|]. by symmetry.
  - intros k s Hks. destruct (Hin _ Hks) as (c & Hc & Hk). simpl in *.
    split; [done|]. exists c. by apply elem_of_entries.
  - exact Hlen.
  - rewrite Hlen. etrans; [apply distinct_keys_le|].
    by rewrite length_map, length_entries.
  - intros c1 c2 s1 s2 Hne H1 H2 Heq.
    rewrite Hlen, <- length_entries.
    rewrite <- (length_map (fun e : string * DistSample => sample_jaccard (e.2))).
    apply elem_of_entries, list_elem_of_lookup_1 in H1 as [i Hi].
    apply elem_of_entries, list_elem_of_lookup_1 in H2 as [j Hj].
    assert (Hi' : map (fun e : string * DistSample => sample_jaccard (e.2))
                    (entries distSamples) !! i = Some (sample_jaccard s1))
      by (by rewrite list_lookup_fmap, Hi).
    assert (Hj' : map (fun e : string * DistSample => sample_jaccard (e.2))
                    (entries distSamples) !! j = Some (sample_jaccard s2))
      by (by rewrite list_lookup_fmap, Hj).
    destruct (Nat.lt_trichotomy i j) as [Hlt|[->|Hgt]].
    + by apply (distinct_keys_tie _ i j (sample_jaccard s1) (sample_jaccard s2)).
    + congruence.
    + by apply (distinct_keys_tie _ j i (sample_jaccard s2) (sample_jaccard s1)).
Qed.

(** ** The first pass of [calcContigPairBarcodeStats] *)

Lemma orientation_ends (h1 h2 : bool) (o : PairOrientation) :
  o = orientation h1 h2 <-> first_is_head o = h1 /\ second_is_head o = h2.
Proof. destruct h1, h2, o; simpl; split; (done || by intros []). Qed.

Lemma valid_end_insert (contigToLength : ContigToLength)
    (params : ArcsParams) (m : ScafMap)
    (key : CI) (pairs : Z) (e : CI) :
  valid_end contigToLength params (<[key := pairs]> m) e =
  if decide (key = e)
  then match contigToLength !! (key.1) with
       | Some l => validBarcodeMapping l pairs params
       | None => false
       end
  else valid_end contigToLength params m e.
Proof.
  unfold valid_end. rewrite lookup_insert.
  by destruct (decide (key = e)) as [->|].
Qed.

Lemma valid_end_None (contigToLength : ContigToLength)
    (params : ArcsParams) (m : ScafMap)
    (e : CI) :
  m !! e = None -> valid_end contigToLength params m e = false.
Proof. unfold valid_end. by intros ->. Qed.

(** [pmap[pair][o].barcodesIntersect++], creating the pair when needed. *)
Lemma intersect_of_bump (pmap : PairMap) (pair' : ContigPair)
    (o' : PairOrientation) (pair : ContigPair) (o : PairOrientation) :
  intersect_of
    (alter (bump o') pair'
       match pmap !! pair' with
       | None => <[pair' := fill PairRecord_default]> pmap
       | Some _ => pmap
       end) pair o
  = if decide (pair' = pair /\ o' = o)
    then uincr (intersect_of pmap pair o)
    else intersect_of pmap pair o.
Proof.
  unfold intersect_of.
  destruct (decide (pair' = pair)) as [->|Hpair].
  - rewrite lookup_alter_eq.
    assert (Hlook : match pmap !! pair with
                    | None => <[pair := fill PairRecord_default]> pmap
                    | Some _ => pmap
                    end !! pair
                    = Some (default (fill PairRecord_default) (pmap !! pair))).
    { destruct (pmap !! pair) eqn:Hp; [done|]. simpl. apply lookup_insert_eq. }
    rewrite Hlook. simpl.
    case_decide as Hd.
    + destruct Hd as [_ ->]. by destruct o.
    + assert (o' <> o) by (intros ->; by apply Hd). by destruct o', o.
  - rewrite lookup_alter_ne by done.
    rewrite decide_False by (by intros [? _]).
    destruct (pmap !! pair') eqn:Hp; [done|].
    by rewrite lookup_insert_ne.
Qed.

(** The innermost loop, for the first end [(id1, head1)], after the ends
    [m2] of the barcode have been visited as second end. *)
Lemma pair_end2_progress (contigToLength : ContigToLength)
    (params : ArcsParams) (id1 : string) (head1 : bool) (pmap : PairMap)
    (m2 : ScafMap) :
  forall pmap',
    for_each (fun key2 pairs2 acc =>
                acc ≫= pair_end2 contigToLength params id1 head1 key2 pairs2)
             (Ok pmap) m2 = Ok pmap' ->
    forall pair o,
      intersect_of pmap' pair o =
      if bool_decide (first_end pair o = (id1, head1))
         && valid_end contigToLength params m2 (second_end pair o)
         && negb (String.ltb (pair.2) id1)
      then uincr (intersect_of pmap pair o)
      else intersect_of pmap pair o.
Proof.
  revert m2.
  apply (for_each_ind (fun r (m2 : ScafMap) => forall pmap', r = Ok pmap' ->
    forall pair o,
      intersect_of pmap' pair o =
      if bool_decide (first_end pair o = (id1, head1))
         && valid_end contigToLength params m2 (second_end pair o)
         && negb (String.ltb (pair.2) id1)
      then uincr (intersect_of pmap pair o)
      else intersect_of pmap pair o)).
  { intros pmap' [= <-] pair o.
    rewrite valid_end_None by apply lookup_empty.
    by rewrite andb_false_r. }
  intros [id2 head2] pairs2 m2 r Hfresh IH pmap2 Hstep pair o.
  apply result_bind_Ok in Hstep as (pmap1 & -> & Hstep).
  specialize (IH pmap1 eq_refl).
  pose proof (valid_end_None contigToLength params _ _ Hfresh) as Hv.
  unfold pair_end2, at_key in Hstep.
  rewrite valid_end_insert. simpl fst.
  destruct (contigToLength !! id2) as [length2|] eqn:Hl2; [simpl in Hstep|done].
  destruct (validBarcodeMapping length2 pairs2 params) eqn:Hvalid;
    simpl in Hstep.
  2:{ injection Hstep as <-. rewrite IH.
      case_decide as Hd; [|done]. by rewrite <- Hd, Hv. }
  destruct (String.ltb id2 id1) eqn:Hlt.
  { injection Hstep as <-. rewrite IH.
    case_decide as Hd; [|done]. rewrite <- Hd, Hv.
    injection Hd as Hp2 Ho2. rewrite <- Hp2, Hlt. simpl.
    by rewrite !andb_false_r. }
  injection Hstep as <-.
  rewrite intersect_of_bump, IH.
  destruct pair as [p1 p2]. unfold first_end, second_end in *. simpl in *.
  destruct (decide ((id2, head2) = (p2, second_is_head o))) as [Heq2|Hne2].
  - try rewrite (decide_True (P := (id2, head2) = (p2, second_is_head o)))
        by done.
    injection Heq2 as <- Hh2. rewrite Hh2 in Hv. rewrite Hv, Hlt.
    rewrite andb_false_r, !andb_true_r. simpl.
    destruct (decide ((p1, first_is_head o) = (id1, head1))) as [Heq1|Hne1].
    + rewrite (bool_decide_eq_true_2 _ Heq1). injection Heq1 as -> Hh1.
      rewrite decide_True; [done|].
      split; [done|]. symmetry. apply orientation_ends. by split.
    + rewrite (bool_decide_eq_false_2 _ Hne1).
      rewrite decide_False; [done|].
      intros [Hp Ho]. symmetry in Ho.
      apply orientation_ends in Ho as [Hh1 _].
      apply Hne1. f_equal; [congruence|done].
  - try rewrite (decide_False (P := (id2, head2) = (p2, second_is_head o)))
        by done.
    rewrite decide_False; [done|].
    intros [Hp Ho]. symmetry in Ho.
    apply orientation_ends in Ho as [_ Hh2'].
    apply Hne2. f_equal; [congruence|done].
Qed.

(** The loop over the first end, after the ends [m1] of the barcode [M]
    have been visited: every valid end visited has its count incremented
    once, and a variant is incremented once when its first end has been
    visited and both its ends are valid. *)
Lemma pair_barcode_progress (contigToLength : ContigToLength)
    (params : ArcsParams) (M : ScafMap) (counts : gmap CI Z) (pmap : PairMap)
    (m1 : ScafMap) :
  forall counts' pmap',
    for_each (fun key1 pairs1 acc =>
                acc ≫= pair_end1 contigToLength params M key1 pairs1)
             (Ok (counts, pmap)) m1 = Ok (counts', pmap') ->
    (forall e,
       counts' !! e =
       if valid_end contigToLength params m1 e
       then Some (szincr (count_of counts e))
       else counts !! e) /\
    (forall pair o,
       intersect_of pmap' pair o =
       if valid_end contigToLength params m1 (first_end pair o)
          && valid_end contigToLength params M (second_end pair o)
          && negb (String.ltb (pair.2) (pair.1))
       then uincr (intersect_of pmap pair o)
       else intersect_of pmap pair o).
Proof.
  revert m1.
  apply (for_each_ind (fun r (m1 : ScafMap) =>
    forall counts' pmap', r = Ok (counts', pmap') ->
    (forall e,
       counts' !! e =
       if valid_end contigToLength params m1 e
       then Some (szincr (count_of counts e))
       else counts !! e) /\
    (forall pair o,
       intersect_of pmap' pair o =
       if valid_end contigToLength params m1 (first_end pair o)
          && valid_end contigToLength params M (second_end pair o)
          && negb (String.ltb (pair.2) (pair.1))
       then uincr (intersect_of pmap pair o)
       else intersect_of pmap pair o))).
  { intros counts' pmap' [= <- <-]. split.
    - intros e. by rewrite valid_end_None by apply lookup_empty.
    - intros pair o. by rewrite valid_end_None by apply lookup_empty. }
  intros [id1 head1] pairs1 m1 r Hfresh IH counts2 pmap2 Hstep.
  apply result_bind_Ok in Hstep as ([counts1 pmap1] & -> & Hstep).
  destruct (IH counts1 pmap1 eq_refl) as [IHc IHp]. clear IH.
  pose proof (valid_end_None contigToLength params _ _ Hfresh) as Hv.
  unfold pair_end1, at_key in Hstep.
  destruct (contigToLength !! id1) as [length1|] eqn:Hl1; [simpl in Hstep|done].
  destruct (validBarcodeMapping length1 pairs1 params) eqn:Hvalid;
    simpl in Hstep.
  2:{ injection Hstep as <- <-. split.
      - intros e. rewrite valid_end_insert, IHc. simpl fst. rewrite Hl1, Hvalid.
        case_decide as Hd; [|done]. by rewrite <- Hd, Hv.
      - intros pair o. rewrite valid_end_insert, IHp. simpl fst.
        rewrite Hl1, Hvalid.
        case_decide as Hd; [|done]. by rewrite <- Hd, Hv. }
  apply result_bind_Ok in Hstep as (pmap1' & Hinner & [= <- <-]).
  pose proof (pair_end2_progress _ _ _ _ _ _ _ Hinner) as Hp.
  split.
  - intros e. rewrite valid_end_insert. simpl fst. rewrite Hl1, Hvalid.
    rewrite lookup_insert.
    repeat case_decide; try done.
    subst e. unfold count_of. by rewrite IHc, Hv.
  - intros pair o. rewrite Hp, IHp, valid_end_insert. simpl fst.
    rewrite Hl1, Hvalid.
    case_decide as Heq.
    + rewrite bool_decide_eq_true_2 by done.
      rewrite <- Heq, Hv. simpl.
      assert (pair.1 = id1) as -> by (by injection Heq).
      done.
    + rewrite bool_decide_eq_false_2 by done. done.
Qed.

(** One barcode of the first pass. *)
Lemma pair_barcode_effect (contigToLength : ContigToLength)
    (params : ArcsParams) (m : ScafMap) (counts counts' : gmap CI Z)
    (pmap pmap' : PairMap) :
  pair_barcode contigToLength params m (counts, pmap) = Ok (counts', pmap') ->
  (forall e,
     counts' !! e =
     if valid_end contigToLength params m e
     then Some (szincr (count_of counts e))
     else counts !! e) /\
  (forall pair o,
     intersect_of pmap' pair o =
     if valid_end contigToLength params m (first_end pair o)
        && valid_end contigToLength params m (second_end pair o)
        && negb (String.ltb (pair.2) (pair.1))
     then uincr (intersect_of pmap pair o)
     else intersect_of pmap pair o).
Proof. apply pair_barcode_progress. Qed.

Lemma scan_ok_mono n n' counts pmap :
  n <= n' -> scan_ok n counts pmap -> scan_ok n' counts pmap.
Proof.
  intros Hn [Hc Hp]. split; [|done].
  intros e k Hk. specialize (Hc e k Hk). lia.
Qed.

Lemma count_of_range n counts pmap e :
  0 <= n -> scan_ok n counts pmap -> 0 <= count_of counts e <= n.
Proof.
  intros Hn [Hc _]. unfold count_of.
  destruct (counts !! e) as [k|] eqn:Hk; simpl; [|lia].
  specialize (Hc e k Hk). lia.
Qed.

(** One barcode keeps the state of the first pass consistent. *)
Lemma pair_barcode_scan_ok (contigToLength : ContigToLength)
    (params : ArcsParams) (m : ScafMap) (n : Z) (counts counts' : gmap CI Z)
    (pmap pmap' : PairMap) :
  0 <= n < UINT_MAX ->
  scan_ok n counts pmap ->
  pair_barcode contigToLength params m (counts, pmap) = Ok (counts', pmap') ->
  scan_ok (n + 1) counts' pmap'.
Proof.
  intros Hn Hok Hb.
  destruct (pair_barcode_effect _ _ _ _ _ _ _ Hb) as [Hc Hp].
  assert (Hcount : forall e, count_of counts' e =
            count_of counts e + Z.b2z (valid_end contigToLength params m e)).
  { intros e. unfold count_of at 1. rewrite Hc.
    pose proof (count_of_range n counts pmap e ltac:(lia) Hok) as Hr.
    destruct (valid_end contigToLength params m e); simpl.
    - apply szincr_small. unfold UINT_MAX in Hn. lia.
    - unfold count_of. lia. }
  split.
  - intros e k Hk.
    pose proof (count_of_range n counts pmap e ltac:(lia) Hok) as Hr.
    pose proof (Hcount e) as He. unfold count_of at 1 in He.
    rewrite Hk in He. simpl in He.
    rewrite Hc in Hk.
    destruct (valid_end contigToLength params m e); simpl in He.
    + lia.
    + destruct Hok as [Hok _]. specialize (Hok e k Hk). lia.
  - intros pair o. rewrite Hp, !Hcount.
    pose proof (count_of_range n counts pmap (first_end pair o)
                  ltac:(lia) Hok) as Hr1.
    pose proof (count_of_range n counts pmap (second_end pair o)
                  ltac:(lia) Hok) as Hr2.
    destruct Hok as [_ Hok]. destruct (Hok pair o) as (H0 & H1 & H2).
    destruct (valid_end contigToLength params m (first_end pair o));
      destruct (valid_end contigToLength params m (second_end pair o));
      destruct (String.ltb (pair.2) (pair.1)); simpl;
      rewrite ?uincr_small by lia; lia.
Qed.

Lemma pair_index_Ok (indexMultMap : gmap string Z)
    (contigToLength : ContigToLength) (params : ArcsParams) (index : string)
    (m : ScafMap) (st st' : gmap CI Z * PairMap) :
  pair_index indexMultMap contigToLength params index m st = Ok st' ->
  exists indexMult, indexMultMap !! index = Some indexMult /\
    if mult_in_range indexMult params
    then pair_barcode contigToLength params m st = Ok st'
    else st' = st.
Proof.
  unfold pair_index, at_key.
  destruct (indexMultMap !! index) as [k|]; [simpl|done].
  intros Hb. exists k. split; [done|].
  destruct (mult_in_range k params); [done|]. by injection Hb.
Qed.

(** The state after the first pass over [imap], started from an empty
    pair map. *)
Lemma pair_scan_ok (imap : IndexMap) (indexMultMap : gmap string Z)
    (contigToLength : ContigToLength) (params : ArcsParams) :
  Z.of_nat (size imap) <= UINT_MAX ->
  forall counts pmap,
    pair_scan imap indexMultMap contigToLength params ∅ = Ok (counts, pmap) ->
    scan_ok (Z.of_nat (size imap)) counts pmap.
Proof.
  unfold pair_scan. revert imap.
  apply (for_each_ind (fun r (im : IndexMap) =>
    Z.of_nat (size im) <= UINT_MAX -> forall counts pmap,
    r = Ok (counts, pmap) -> scan_ok (Z.of_nat (size im)) counts pmap)).
  { intros _ counts pmap [= <- <-]. split.
    - intros e k He. by rewrite lookup_empty in He.
    - intros pair o. unfold intersect_of, count_of.
      rewrite !lookup_empty. simpl. by destruct o. }
  intros index m im r Hfresh IH Hsize counts' pmap' Hstep.
  rewrite map_size_insert_None in * by done.
  apply result_bind_Ok in Hstep as ([counts pmap] & -> & Hstep).
  assert (Hsize0 : Z.of_nat (size im) <= UINT_MAX) by lia.
  specialize (IH Hsize0 counts pmap eq_refl).
  apply pair_index_Ok in Hstep as (k & _ & Hstep).
  destruct (mult_in_range k params).
  - replace (Z.of_nat (S (size im))) with (Z.of_nat (size im) + 1) by lia.
    eapply pair_barcode_scan_ok; [|exact IH|exact Hstep]. lia.
  - injection Hstep as -> ->. eapply scan_ok_mono; [|exact IH]. lia.
Qed.

(** ** The second pass of [calcContigPairBarcodeStats] *)

Lemma at_key_Ok `{Countable K} {A} (m : gmap K A) (k : K) (a : A) :
  at_key m k = Ok a -> m !! k = Some a.
Proof. unfold at_key. destruct (m !! k); [by intros [= ->]|done]. Qed.

Lemma assert_Ok (b : bool) (u : unit) : assert b = Ok u -> b = true.
Proof. by destruct b. Qed.

(** A completed record: both lookups succeeded and the three assertions
    held. *)
Lemma complete_record_Ok (counts : gmap CI Z) (id1 id2 : string)
    (i : PairOrientation) (rec rec' : PairRecord) :
  complete_record counts id1 id2 i rec = Ok rec' ->
  exists c1 c2,
    counts !! (id1, first_is_head i) = Some c1 /\
    counts !! (id2, second_is_head i) = Some c2 /\
    ARCS.barcodesIntersect rec' = ARCS.barcodesIntersect rec /\
    barcodes1 rec' = to_unsigned c1 /\
    barcodes2 rec' = to_unsigned c2 /\
    ARCS.barcodesUnion rec' =
      to_unsigned (to_unsigned (to_unsigned c1 + to_unsigned c2)
                   - ARCS.barcodesIntersect rec).
Proof.
  unfold complete_record. intros Hrun.
  apply result_bind_Ok in Hrun as (c1 & Hc1%at_key_Ok & Hrun).
  apply result_bind_Ok in Hrun as (_ & _ & Hrun).
  apply result_bind_Ok in Hrun as (c2 & Hc2%at_key_Ok & Hrun).
  apply result_bind_Ok in Hrun as (_ & _ & Hrun).
  apply result_bind_Ok in Hrun as (_ & _ & [= <-]).
  exists c1, c2. simpl. done.
Qed.

(** The four orientations are completed independently of one another. *)
Lemma complete_records_Ok (counts : gmap CI Z) (pair : ContigPair)
    (recs recs' : PairRecords) :
  complete_records counts pair recs = Ok recs' ->
  forall i,
    complete_record counts (pair.1) (pair.2) i (get_rec i recs)
    = Ok (get_rec i recs').
Proof.
  unfold complete_records. unfold foldl. intros Hrun.
  apply result_bind_Ok in Hrun as (recs3 & Hrun & H3).
  apply result_bind_Ok in Hrun as (recs2 & Hrun & H2).
  apply result_bind_Ok in Hrun as (recs1 & Hrun & H1).
  apply result_bind_Ok in Hrun as (recs0 & [= <-] & H0).
  apply result_bind_Ok in H0 as (r0 & H0 & [= <-]).
  apply result_bind_Ok in H1 as (r1 & H1 & [= <-]).
  apply result_bind_Ok in H2 as (r2 & H2 & [= <-]).
  apply result_bind_Ok in H3 as (r3 & H3 & [= <-]).
  simpl in *. intros i. by destruct i.
Qed.

(** The second pass, after the pairs [m] of the map have been visited. *)
Lemma pair_complete_progress (counts : gmap CI Z) (pmap m : PairMap) :
  m ⊆ pmap ->
  forall pm,
    for_each (fun pair recs acc =>
                pm ← acc;
                recs' ← complete_records counts pair recs;
                Ok (<[pair := recs']> pm)) (Ok pmap) m = Ok pm ->
    forall pair,
      match m !! pair with
      | Some recs => exists recs',
          complete_records counts pair recs = Ok recs' /\
          pm !! pair = Some recs'
      | None => pm !! pair = pmap !! pair
      end.
Proof.
  revert m.
  apply (for_each_ind (fun r (m : PairMap) => m ⊆ pmap -> forall pm,
    r = Ok pm -> forall pair,
      match m !! pair with
      | Some recs => exists recs',
          complete_records counts pair recs = Ok recs' /\
          pm !! pair = Some recs'
      | None => pm !! pair = pmap !! pair
      end)).
  { intros _ pm [= <-] pair. by rewrite lookup_empty. }
  intros pair0 recs0 m r Hfresh IH Hsub pm Hstep pair.
  apply insert_subseteq_inv in Hsub as [Hsub _]; [|done].
  apply result_bind_Ok in Hstep as (pm0 & -> & Hstep).
  apply result_bind_Ok in Hstep as (recs0' & Hc0 & [= <-]).
  specialize (IH Hsub pm0 eq_refl pair).
  rewrite lookup_insert. case_decide as Hd.
  - subst pair. exists recs0'. split; [done|]. apply lookup_insert_eq.
  - by rewrite lookup_insert_ne.
Qed.

(** The second pass replaces the records of every pair by the completed
    ones. *)
Lemma pair_complete_lookup (counts : gmap CI Z) (pmap pmap' : PairMap) :
  pair_complete counts pmap = Ok pmap' ->
  forall pair recs', pmap' !! pair = Some recs' ->
    exists recs, pmap !! pair = Some recs /\
                 complete_records counts pair recs = Ok recs'.
Proof.
  intros Hrun pair recs' Hp.
  pose proof (pair_complete_progress counts pmap pmap (reflexivity _)
                pmap' Hrun pair) as Hgen.
  destruct (pmap !! pair) as [recs|].
  - destruct Hgen as (recs'' & Hc & Hl). exists recs. split; [done|].
    congruence.
  - congruence.
Qed.

(** The second pass returns only if it completes every stored pair. *)
Lemma pair_complete_all (counts : gmap CI Z) (pmap pmap' : PairMap) :
  pair_complete counts pmap = Ok pmap' ->
  forall pair recs, pmap !! pair = Some recs ->
    exists recs', complete_records counts pair recs = Ok recs'.
Proof.
  intros Hrun pair recs Hp.
  pose proof (pair_complete_progress counts pmap pmap (reflexivity _)
                pmap' Hrun pair) as Hgen.
  rewrite Hp in Hgen. destruct Hgen as (recs' & Hc & _). eauto.
Qed.

(** ** The records of [calcContigPairBarcodeStats] *)

(** The quotient of two counters, the first at most the second, is a
    [double] between 0 and 1. *)
Lemma ddiv_unit_interval (i u : Z) :
  0 <= i <= u -> 0 < u -> (0 <= ddiv i u <= 1)%Q.
Proof.
  intros Hi Hu. unfold ddiv.
  assert (Hu' : (0 < inject_Z u)%Q)
    by (change 0%Q with (inject_Z 0); by rewrite <- Zlt_Qlt).
  assert (Hi' : (0 <= inject_Z i <= inject_Z u)%Q)
    by (change 0%Q with (inject_Z 0); rewrite <- !Zle_Qle; lia).
  assert (Hq : (0 <= inject_Z i / inject_Z u <= 1)%Q).
  { split.
    - apply Qle_shift_div_l; [done|]. lra.
    - apply Qle_shift_div_r; [done|]. lra. }
  split.
  - change 0%Q with (round64 0). apply round64_mono; lra.
  - change 1%Q with (round64 1). apply round64_mono; lra.
Qed.

(** The quotient of two counters, the first greater than the second, is
    a [double] greater than 1. *)
Lemma ddiv_above_one (i u : Z) :
  0 < u < i -> i <= UINT_MAX -> (1 < ddiv i u)%Q.
Proof.
  intros Hu Hi. unfold UINT_MAX in Hi. unfold ddiv.
  assert (Hu' : (0 < inject_Z u)%Q)
    by (change 0%Q with (inject_Z 0); rewrite <- Zlt_Qlt; lia).
  assert (Hq : (1 + (1 # 2 ^ 32) <= inject_Z i / inject_Z u)%Q).
  { apply Qle_shift_div_l; [done|].
    assert (inject_Z u + 1 <= inject_Z i)%Q.
    { change 1%Q with (inject_Z 1). rewrite <- inject_Z_plus, <- Zle_Qle. lia. }
    assert (inject_Z u <= inject_Z (2 ^ 32))%Q by (rewrite <- Zle_Qle; lia).
    change (inject_Z (2 ^ 32)) with (4294967296 # 1)%Q in *.
    change (1 # 2 ^ 32)%Q with (1 # 4294967296)%Q.
    lra. }
  assert (Hr : (round64 (1 + (1 # 2 ^ 32)) <= round64 (inject_Z i / inject_Z u))%Q).
  { apply round64_mono; [|done]. vm_compute. discriminate. }
  assert (Hv : (1 < round64 (1 + (1 # 2 ^ 32)))%Q) by (vm_compute; reflexivity).
  lra.
Qed.

Lemma jaccard_assert_holds (i u : Z) :
  0 <= i <= u -> 0 < u ->
  assert (Qleb 0 (ddiv i u) && Qleb (ddiv i u) 1) = Ok tt.
Proof.
  intros Hi Hu. destruct (ddiv_unit_interval i u Hi Hu) as [H0 H1].
  unfold Qleb. apply Qle_bool_iff in H0, H1. by rewrite H0, H1.
Qed.

(** The score of a successful estimate is the quotient of the
    intersection by the union of the record. *)
Lemma estimateDistance_jaccard (M : MapUtil) (S : StatUtil) (rec : PairRecord)
    (jaccardToDist : JaccardToDist) (params : ArcsParams)
    (est : DistanceEstimate) :
  estimateDistance rec jaccardToDist params = Ok (est, true) ->
  jaccard est = ddiv (ARCS.barcodesIntersect rec) (ARCS.barcodesUnion rec).
Proof.
  unfold estimateDistance. destruct jaccardToDist as [|e m]; [done|].
  destruct (ARCS.barcodesUnion rec =? 0); [done|].
  intros Hrun.
  apply result_bind_Ok in Hrun as (_ & _ & Hrun).
  destruct (closestKeys _ _ _) as [lowerIt upperIt].
  apply result_bind_Ok in Hrun as (ds & _ & Hrun).
  apply result_bind_Ok in Hrun as (q1 & _ & Hrun).
  apply result_bind_Ok in Hrun as (lo & _ & Hrun).
  apply result_bind_Ok in Hrun as (q99 & _ & Hrun).
  apply result_bind_Ok in Hrun as (hi & _ & Hrun).
  by injection Hrun as <-.
Qed.

(** C5: every orientation variant of every pair in the map returned by
    [calcContigPairBarcodeStats] has [barcodes1 > 0], [barcodes2 > 0],
    [barcodesUnion = barcodes1 + barcodes2 - barcodesIntersect] and
    [barcodesUnion >= barcodesIntersect]; so, when the union is positive,
    its Jaccard score lies in [0,1], the assertion of [estimateDistance]
    on it holds, and this score is the one of every estimate made from
    the record. *)
Theorem pair_record_invariant (imap : IndexMap) (indexMultMap : gmap string Z)
    (contigToLength : ContigToLength) (params : ArcsParams) (pmap : PairMap)
    (pair : ContigPair) (recs : PairRecords) (o : PairOrientation) :
  Z.of_nat (size imap) <= INT_MAX ->
  calcContigPairBarcodeStats imap indexMultMap contigToLength params ∅
    = Ok pmap ->
  pmap !! pair = Some recs ->
  let rec := get_rec o recs in
  0 < barcodes1 rec /\
  0 < barcodes2 rec /\
  ARCS.barcodesUnion rec
    = barcodes1 rec + barcodes2 rec - ARCS.barcodesIntersect rec /\
  ARCS.barcodesIntersect rec <= ARCS.barcodesUnion rec /\
  (0 < ARCS.barcodesUnion rec ->
   let j := ddiv (ARCS.barcodesIntersect rec) (ARCS.barcodesUnion rec) in
   (0 <= j <= 1)%Q /\
   assert (Qleb 0 j && Qleb j 1) = Ok tt /\
   forall (M : MapUtil) (S : StatUtil) jaccardToDist params' est,
     estimateDistance rec jaccardToDist params' = Ok (est, true) ->
     jaccard est = j).
Proof.
  intros Hsize Hrun Hpair rec.
  unfold calcContigPairBarcodeStats in Hrun.
  apply result_bind_Ok in Hrun as ([counts pmap0] & Hscan & Hcomplete).
  simpl in Hcomplete.
  assert (Hn : Z.of_nat (size imap) <= UINT_MAX)
    by (unfold INT_MAX, UINT_MAX in *; lia).
  destruct (pair_scan_ok _ _ _ _ Hn _ _ Hscan) as [Hcounts Hshared].
  destruct (pair_complete_lookup _ _ _ Hcomplete _ _ Hpair)
    as (recs0 & Hpair0 & Hrecs).
  pose proof (complete_records_Ok _ _ _ _ Hrecs o) as Hrec.
  apply complete_record_Ok in Hrec
    as (c1 & c2 & Hc1 & Hc2 & HI & Hb1 & Hb2 & HU).
  fold rec in HI, Hb1, Hb2, HU.
  pose proof (Hcounts _ _ Hc1) as Hr1. pose proof (Hcounts _ _ Hc2) as Hr2.
  destruct (Hshared pair o) as (HI0 & HI1 & HI2).
  unfold intersect_of in HI0, HI1, HI2. rewrite Hpair0 in HI0, HI1, HI2.
  simpl in HI0, HI1, HI2.
  unfold count_of, first_end, second_end in HI1, HI2.
  rewrite Hc1 in HI1. rewrite Hc2 in HI2. simpl in HI1, HI2.
  rewrite <- HI in HI0, HI1, HI2.
  unfold INT_MAX in Hsize.
  rewrite (to_unsigned_id c1) in * by (unfold UINT_MAX; lia).
  rewrite (to_unsigned_id c2) in * by (unfold UINT_MAX; lia).
  rewrite (to_unsigned_id (c1 + c2)) in HU by (unfold UINT_MAX; lia).
  rewrite <- HI in HU.
  rewrite to_unsigned_id in HU by (unfold UINT_MAX; lia).
  assert (HIU : 0 <= ARCS.barcodesIntersect rec <= ARCS.barcodesUnion rec)
    by lia.
  split; [lia|]. split; [lia|]. split; [lia|]. split; [lia|].
  intros HUpos j. split; [by apply ddiv_unit_interval|].
  split; [by apply jaccard_assert_holds|].
  intros M S jaccardToDist params' est Hest.
  by apply (estimateDistance_jaccard M S rec jaccardToDist params' est).
Qed.

(** ** The distance estimator *)

(** C4: with an empty index, and likewise with a record whose union is 0,
    [estimateDistance] returns the zero estimate and [false], whatever
    the record, the thresholds and the helpers are: no range query and no
    quantile is computed. *)
Theorem estimateDistance_fails_soft (M : MapUtil) (S : StatUtil)
    (rec : PairRecord) (jaccardToDist : JaccardToDist) (params : ArcsParams) :
  jaccardToDist = [] \/ ARCS.barcodesUnion rec = 0 ->
  estimateDistance rec jaccardToDist params
    = Ok (DistanceEstimate_default, false) /\
  minDist DistanceEstimate_default = 0 /\
  maxDist DistanceEstimate_default = 0 /\
  jaccard DistanceEstimate_default = 0%Q.
Proof.
  intros Hcase. split; [|done].
  unfold estimateDistance.
  destruct jaccardToDist as [|e m]; [done|].
  destruct Hcase as [|HU]; [done|]. by rewrite HU.
Qed.

(** C3, as amended: for a record with a positive union and a non-empty
    index, [estimateDistance] never returns [false].  It does not check
    the window: when the range query yields no sample it calls [quantile]
    on the empty list of distances, and whatever values these calls
    return are rounded and returned with [true]. *)
Theorem estimateDistance_no_window_check (M : MapUtil) (S : StatUtil)
    (rec : PairRecord) (jaccardToDist : JaccardToDist) (params : ArcsParams) :
  0 < ARCS.barcodesUnion rec ->
  jaccardToDist <> [] ->
  (forall est ok,
     estimateDistance rec jaccardToDist params = Ok (est, ok) -> ok = true) /\
  (let j := ddiv (ARCS.barcodesIntersect rec) (ARCS.barcodesUnion rec) in
   0 <= ARCS.barcodesIntersect rec <= ARCS.barcodesUnion rec ->
   collect_distances jaccardToDist
     (closestKeys jaccardToDist j (dist_bin_size params)).1
     (closestKeys jaccardToDist j (dist_bin_size params)).2 = Ok [] ->
   estimateDistance rec jaccardToDist params =
     (q1 ← quantile [] (1 # 100)%Q;
      lo ← double_to_int (Qfloor q1);
      q99 ← quantile [] (99 # 100)%Q;
      hi ← double_to_int (Qceiling q99);
      Ok ({| minDist := lo; maxDist := hi; jaccard := j |}, true))).
Proof.
  intros HU Hne. unfold estimateDistance.
  destruct jaccardToDist as [|e m]; [done|].
  assert ((ARCS.barcodesUnion rec =? 0) = false) as -> by (apply Z.eqb_neq; lia).
  split.
  - intros est ok Hrun.
    apply result_bind_Ok in Hrun as (_ & _ & Hrun).
    destruct (closestKeys _ _ _) as [lowerIt upperIt].
    apply result_bind_Ok in Hrun as (ds & _ & Hrun).
    apply result_bind_Ok in Hrun as (q1 & _ & Hrun).
    apply result_bind_Ok in Hrun as (lo & _ & Hrun).
    apply result_bind_Ok in Hrun as (q99 & _ & Hrun).
    apply result_bind_Ok in Hrun as (hi & _ & Hrun).
    by injection Hrun.
  - cbv zeta. intros HI Hempty.
    rewrite (jaccard_assert_holds _ _ HI HU). simpl.
    destruct (closestKeys _ _ _) as [lowerIt upperIt]. simpl in Hempty.
    rewrite Hempty. reflexivity.
Qed.

(** *** The range query *)

Lemma filter_none {A} (f : A -> bool) (l : list A) :
  Forall (fun x => f x = false) l -> List.filter f l = [].
Proof. induction 1 as [|x l Hx _ IH]; simpl; [done|]. by rewrite Hx. Qed.

Lemma filter_all {A} (f : A -> bool) (l : list A) :
  Forall (fun x => f x = true) l -> List.filter f l = l.
Proof. induction 1 as [|x l Hx _ IH]; simpl; [done|]. by rewrite Hx, IH. Qed.

Lemma filter_filter_andb {A} (f g : A -> bool) (l : list A) :
  List.filter f (List.filter g l) = List.filter (fun x => g x && f x) l.
Proof.
  induction l as [|x l IH]; simpl; [done|].
  destruct (g x); simpl; [|done]. destruct (f x); by rewrite IH.
Qed.

Lemma filter_sorted (f : Q * DistSample -> bool) (m : JaccardToDist) :
  StronglySorted key_lt m -> StronglySorted key_lt (List.filter f m).
Proof.
  induction 1 as [|e m Hm IH Hall]; simpl; [constructor|].
  destruct (f e); [|done]. constructor; [done|].
  apply Forall_forall. intros x Hx. apply list_elem_of_In in Hx.
  apply filter_In in Hx as [Hx _]. apply list_elem_of_In in Hx.
  rewrite Forall_forall in Hall. by apply Hall.
Qed.

Lemma count_while_length p (m : JaccardToDist) :
  (count_while p m <= length m)%nat.
Proof.
  induction m as [|e m IH]; simpl; [done|]. destruct (p (e.1)); lia.
Qed.

(** On a sorted index, a prefix counted by a predicate that is closed
    under smaller keys is the set of entries that satisfy it. *)
Lemma count_while_split (p : Q -> bool) (m : JaccardToDist) :
  StronglySorted key_lt m ->
  (forall k k', (k < k')%Q -> p k' = true -> p k = true) ->
  take (count_while p m) m = List.filter (fun e => p (e.1)) m /\
  drop (count_while p m) m = List.filter (fun e => negb (p (e.1))) m.
Proof.
  intros Hsorted Hclosed.
  induction Hsorted as [|e m Hm IH Hall]; simpl; [done|].
  destruct (p (e.1)) eqn:Hp; simpl.
  - destruct IH as [-> ->]. done.
  - assert (Hnone : Forall (fun x => p (x.1) = false) m).
    { eapply Forall_impl; [exact Hall|]. intros x Hx. simpl.
      destruct (p (x.1)) eqn:Hpx; [|done].
      by rewrite (Hclosed _ _ Hx Hpx) in Hp. }
    rewrite filter_none by done. split; [done|].
    f_equal. symmetry. apply filter_all.
    eapply Forall_impl; [exact Hnone|]. intros x Hx. simpl in *.
    by rewrite Hx.
Qed.

Lemma Qltb_closed a k k' : (k < k')%Q -> Qltb k' a = true -> Qltb k a = true.
Proof.
  unfold Qltb. intros Hk Hk'.
  apply negb_true_iff. apply negb_true_iff in Hk'.
  destruct (Qle_bool a k) eqn:Hle; [|done].
  apply Qle_bool_iff in Hle.
  assert (Qle_bool a k' = true); [|congruence].
  apply Qle_bool_iff. apply Qlt_le_weak. by apply (Qle_lt_trans _ k).
Qed.

Lemma Qleb_closed b k k' : (k < k')%Q -> Qleb k' b = true -> Qleb k b = true.
Proof.
  unfold Qleb. intros Hk Hk'. apply Qle_bool_iff. apply Qle_bool_iff in Hk'.
  apply Qlt_le_weak. by apply (Qlt_le_trans _ k').
Qed.

(** The iterators of the modelled [closestKeys] delimit a range of the
    index, and the loop of [estimateDistance] collects the distances of
    exactly the entries whose key lies within the bin size of the score. *)
Lemma spec_closestKeys_window (m : JaccardToDist) (j w : Q) :
  StronglySorted key_lt m ->
  collect_distances m (spec_closestKeys m j w).1 (spec_closestKeys m j w).2
  = Ok (map (fun e => distance (e.2)) (window m j w)).
Proof.
  intros Hsorted. unfold spec_closestKeys, collect_distances. simpl.
  set (lo := count_while (fun k => Qltb k (j - w)) m).
  set (rest := drop lo m).
  set (n := count_while (fun k => Qleb k (j + w)) rest).
  assert (Hlo : (lo <= length m)%nat) by apply count_while_length.
  assert (Hn : (n <= length m - lo)%nat).
  { unfold n. etrans; [apply count_while_length|].
    unfold rest. by rewrite length_drop. }
  rewrite decide_True by lia.
  replace (lo + n - lo)%nat with n by lia.
  f_equal. f_equal. fold rest.
  destruct (count_while_split (fun k => Qltb k (j - w)) m Hsorted
              (Qltb_closed (j - w))) as [_ Hdrop].
  fold lo in Hdrop. fold rest in Hdrop.
  assert (Hrest : StronglySorted key_lt rest).
  { rewrite Hdrop. by apply filter_sorted. }
  destruct (count_while_split (fun k => Qleb k (j + w)) rest Hrest
              (Qleb_closed (j + w))) as [Htake _].
  fold n in Htake. rewrite Htake, Hdrop, filter_filter_andb.
  unfold window, in_window, Qltb. apply filter_ext.
  intros e. by rewrite negb_involutive.
Qed.

(** *** Sorting and quantiles *)

Lemma sort_sorted (l : list Z) : Sorted Z.le (sort l).
Proof. apply (Sorted_merge_sort Z.le). Qed.

Lemma sort_permutation (l : list Z) : sort l ≡ₚ l.
Proof. apply (merge_sort_Permutation Z.le). Qed.

Lemma Sorted_lookup_succ (xs : list Z) (i : nat) (a b : Z) :
  Sorted Z.le xs -> xs !! i = Some a -> xs !! S i = Some b -> a <= b.
Proof.
  intros Hsorted. revert i.
  induction Hsorted as [|x xs Hxs IH Hhd]; intros i Ha Hb; [done|].
  destruct i as [|i]; simpl in *.
  - injection Ha as ->. destruct Hhd as [|y ys Hxy]; [done|].
    simpl in Hb. by injection Hb as ->.
  - by apply (IH i).
Qed.

(** The modelled [quantile] of a non-empty sorted list interpolates
    between the two order statistics around the position [p * (n - 1)]. *)
Lemma spec_quantile_interpolated (xs : list Z) (p : Q) :
  Sorted Z.le xs -> xs <> [] -> (0 <= p <= 1)%Q ->
  exists q, spec_quantile xs p = Ok q /\ interpolated xs p q.
Proof.
  intros Hsorted Hne [Hp0 Hp1].
  destruct xs as [|x0 xs']; [done|].
  unfold spec_quantile, interpolated.
  set (xs := x0 :: xs') in *.
  set (n := Z.of_nat (length xs)).
  assert (Hn : 1 <= n) by (unfold n, xs; simpl; lia).
  set (h := (p * inject_Z (n - 1))%Q).
  assert (Hn1 : (0 <= inject_Z (n - 1))%Q).
  { change 0%Q with (inject_Z 0). rewrite <- Zle_Qle. lia. }
  assert (Hh0 : (0 <= h)%Q) by (unfold h; by apply Qmult_le_0_compat).
  assert (Hh1 : (h <= inject_Z (n - 1))%Q).
  { unfold h. rewrite <- (Qmult_1_l (inject_Z (n - 1))) at 2.
    by apply Qmult_le_compat_r. }
  set (i := Qfloor h).
  assert (Hi0 : 0 <= i).
  { change 0 with (Qfloor 0). by apply Qfloor_resp_le. }
  assert (Hi1 : i <= n - 1).
  { rewrite <- (Qfloor_Z (n - 1)). by apply Qfloor_resp_le. }
  set (i' := Z.min (i + 1) (n - 1)).
  assert (Hi' : i <= i' <= n - 1) by (unfold i'; lia).
  destruct (lookup_lt_is_Some_2 xs (Z.to_nat i)) as [lo Hlo];
    [unfold n in *; lia|].
  destruct (lookup_lt_is_Some_2 xs (Z.to_nat i')) as [hi Hhi];
    [unfold n in *; lia|].
  rewrite !nth_lookup, Hlo, Hhi. simpl.
  eexists. split; [reflexivity|].
  exists lo, hi. split; [done|]. split; [done|]. split; [reflexivity|].
  assert (Hlohi : lo <= hi).
  { destruct (decide (i' = i)) as [Heq|Hneq].
    - rewrite Heq in Hhi. assert (lo = hi) by congruence. lia.
    - apply (Sorted_lookup_succ xs (Z.to_nat i)); [done|done|].
      replace (S (Z.to_nat i)) with (Z.to_nat i') by (unfold i' in *; lia).
      done. }
  assert (Hd : (0 <= inject_Z hi - inject_Z lo)%Q).
  { rewrite Zle_Qle in Hlohi. lra. }
  pose proof (Qfloor_le h) as Hf0. pose proof (Qlt_floor h) as Hf1.
  fold i in Hf0, Hf1. rewrite inject_Z_plus in Hf1.
  change (inject_Z 1) with 1%Q in Hf1.
  assert (Hfrac0 : (0 <= h - inject_Z i)%Q) by lra.
  assert (Hfrac1 : (h - inject_Z i <= 1)%Q) by lra.
  pose proof (Qmult_le_0_compat _ _ Hfrac0 Hd) as Hprod0.
  pose proof (Qmult_le_compat_r _ _ _ Hfrac1 Hd) as Hprod1.
  rewrite Qmult_1_l in Hprod1.
  split; lra.
Qed.

Lemma spec_quantile_nonempty (xs : list Z) (p q : Q) :
  spec_quantile xs p = Ok q -> xs <> [].
Proof. by destruct xs. Qed.

(** C8: when [estimateDistance] succeeds on a sorted index, with the
    range query and the quantile modelled from the spec, the distances it
    uses are those of exactly the entries whose key lies within
    [dist_bin_size] of the Jaccard score of the record, in sorted order,
    [minDist] is the floor of their 1st percentile and [maxDist] the
    ceiling of their 99th percentile, each percentile interpolated
    linearly between the two bracketing order statistics. *)
Theorem estimateDistance_quantiles (rec : PairRecord)
    (jaccardToDist : JaccardToDist) (params : ArcsParams)
    (est : DistanceEstimate) :
  StronglySorted key_lt jaccardToDist ->
  @estimateDistance spec_closestKeys spec_quantile rec jaccardToDist params
    = Ok (est, true) ->
  let j := ddiv (ARCS.barcodesIntersect rec) (ARCS.barcodesUnion rec) in
  let known :=
    map (fun e => distance (e.2)) (window jaccardToDist j (dist_bin_size params)) in
  let distances := sort known in
  jaccard est = j /\
  Sorted Z.le distances /\
  distances ≡ₚ known /\
  exists q1 q99,
    interpolated distances (1 # 100) q1 /\
    interpolated distances (99 # 100) q99 /\
    minDist est = Qfloor q1 /\
    maxDist est = Qceiling q99.
Proof.
  intros Hsorted Hrun.
  unfold estimateDistance in Hrun.
  destruct jaccardToDist as [|e0 m0]; [done|].
  set (jaccardToDist := e0 :: m0) in *.
  intros j known distances.
  destruct (ARCS.barcodesUnion rec =? 0); [done|]. fold j in Hrun.
  apply result_bind_Ok in Hrun as (_ & _ & Hrun).
  pose proof (spec_closestKeys_window jaccardToDist j (dist_bin_size params)
                Hsorted) as Hwin.
  change (@closestKeys spec_closestKeys) with spec_closestKeys in Hrun.
  destruct (spec_closestKeys jaccardToDist j (dist_bin_size params))
    as [lowerIt upperIt].
  simpl in Hwin. rewrite Hwin in Hrun. simpl in Hrun.
  fold known distances in Hrun.
  change (@quantile spec_quantile) with spec_quantile in Hrun.
  apply result_bind_Ok in Hrun as (q1 & Hq1 & Hrun).
  apply result_bind_Ok in Hrun as (lo & Hlo & Hrun).
  apply result_bind_Ok in Hrun as (q99 & Hq99 & Hrun).
  apply result_bind_Ok in Hrun as (hi & Hhi & [= <-]).
  pose proof (spec_quantile_nonempty _ _ _ Hq1) as Hd.
  pose proof (sort_sorted known) as Hs. fold distances in Hs.
  destruct (spec_quantile_interpolated distances (1 # 100) Hs Hd)
    as (q1' & Hq1' & Hi1); [split; by vm_compute|].
  destruct (spec_quantile_interpolated distances (99 # 100) Hs Hd)
    as (q99' & Hq99' & Hi99); [split; by vm_compute|].
  pose proof (eq_trans (eq_sym Hq1') Hq1) as [= ->].
  pose proof (eq_trans (eq_sym Hq99') Hq99) as [= ->].
  unfold double_to_int in Hlo, Hhi.
  destruct (_ && _) in Hlo; [|done]. destruct (_ && _) in Hhi; [|done].
  injection Hlo as <-. injection Hhi as <-. simpl.
  split; [done|]. split; [done|]. split; [apply sort_permutation|].
  by exists q1, q99.
Qed.

(** ** How [calcContigPairBarcodeStats] can fail *)

Lemma result_bind_Raise {A B} (f : A -> result B) (r : result A) (e : exn) :
  r ≫= f = Raise e -> r = Raise e \/ exists a, r = Ok a /\ f a = Raise e.
Proof. destruct r as [a|e']; simpl; [eauto|]. intros [= ->]. by left. Qed.

Lemma at_key_Raise `{Countable K} {A} (m : gmap K A) (k : K) (e : exn) :
  at_key m k = Raise e -> e = out_of_range.
Proof. unfold at_key. destruct (m !! k); [done|]. by intros [= <-]. Qed.

(** A loop whose body can only raise exceptions in [P] can only raise
    exceptions in [P]. *)
Lemma for_each_Raise `{IterationOrder K} {A B} (P : exn -> Prop)
    (f : K -> A -> B -> result B) (b0 : B) :
  (forall k a b e, f k a b = Raise e -> P e) ->
  forall (m : gmap K A) e,
    for_each (fun k a acc => acc ≫= f k a) (Ok b0) m = Raise e -> P e.
Proof.
  intros Hf.
  apply (for_each_ind (fun r (_ : gmap K A) =>
           forall e, r = Raise e -> P e)); [done|].
  intros k a m r _ IH e [Hr|(b & _ & Hb)]%result_bind_Raise.
  - by apply IH.
  - by apply (Hf k a b).
Qed.

(** The first pass raises nothing but [std::out_of_range]. *)
Lemma pair_scan_Raise (imap : IndexMap) (indexMultMap : gmap string Z)
    (contigToLength : ContigToLength) (params : ArcsParams) (pmap : PairMap)
    (e : exn) :
  pair_scan imap indexMultMap contigToLength params pmap = Raise e ->
  e = out_of_range.
Proof.
  unfold pair_scan.
  apply (for_each_Raise (fun e => e = out_of_range)).
  intros index m st e'. unfold pair_index.
  intros [He|(k & _ & He)]%result_bind_Raise; [by apply at_key_Raise in He|].
  destruct (mult_in_range k params); [|done].
  revert He. unfold pair_barcode.
  apply (for_each_Raise (fun e => e = out_of_range)).
  intros [id1 head1] pairs1 st1 e1. unfold pair_end1.
  intros [He|(l1 & _ & He)]%result_bind_Raise; [by apply at_key_Raise in He|].
  destruct (negb (validBarcodeMapping l1 pairs1 params)); [done|].
  apply result_bind_Raise in He as [He|(pm & _ & He)]; [|done].
  revert He.
  apply (for_each_Raise (fun e => e = out_of_range)).
  intros [id2 head2] pairs2 pm e2. unfold pair_end2.
  intros [He|(l2 & _ & He)]%result_bind_Raise; [by apply at_key_Raise in He|].
  destruct (negb (validBarcodeMapping l2 pairs2 params)); [done|].
  by destruct (String.ltb id2 id1).
Qed.

(** After the first pass the three assertions of the second pass hold
    whenever they are reached. *)
Lemma complete_record_Raise (n : Z) (counts : gmap CI Z) (pmap : PairMap)
    (pair : ContigPair) (recs : PairRecords) (i : PairOrientation)
    (e : exn) :
  0 <= n <= INT_MAX ->
  scan_ok n counts pmap ->
  pmap !! pair = Some recs ->
  complete_record counts (pair.1) (pair.2) i (get_rec i recs) = Raise e ->
  e = out_of_range.
Proof.
  intros Hn [Hcounts Hshared] Hpair. unfold complete_record.
  destruct (Hshared pair i) as (HI0 & HI1 & HI2).
  unfold intersect_of in HI0, HI1, HI2. rewrite Hpair in HI0, HI1, HI2.
  simpl in HI0, HI1, HI2. unfold count_of, first_end, second_end in HI1, HI2.
  unfold INT_MAX in Hn.
  intros [He|(c1 & Hc1%at_key_Ok & He)]%result_bind_Raise;
    [by apply at_key_Raise in He|].
  pose proof (Hcounts _ _ Hc1) as Hr1. rewrite Hc1 in HI1. simpl in HI1.
  rewrite (to_unsigned_id c1) in He by (unfold UINT_MAX; lia).
  assert ((0 <? c1) = true) as Hpos1 by (apply Z.ltb_lt; lia).
  rewrite Hpos1 in He. simpl in He.
  apply result_bind_Raise in He as [He|(c2 & Hc2%at_key_Ok & He)];
    [by apply at_key_Raise in He|].
  pose proof (Hcounts _ _ Hc2) as Hr2. rewrite Hc2 in HI2. simpl in HI2.
  rewrite (to_unsigned_id c2) in He by (unfold UINT_MAX; lia).
  assert ((0 <? c2) = true) as Hpos2 by (apply Z.ltb_lt; lia).
  rewrite Hpos2 in He. simpl in He.
  rewrite (to_unsigned_id (c1 + c2)) in He by (unfold UINT_MAX; lia).
  assert ((ARCS.barcodesIntersect (get_rec i recs) <=? c1 + c2) = true)
    as Hsum by (apply Z.leb_le; lia).
  rewrite Hsum in He. done.
Qed.

Lemma complete_records_Raise (n : Z) (counts : gmap CI Z) (pmap : PairMap)
    (pair : ContigPair) (recs : PairRecords) (e : exn) :
  0 <= n <= INT_MAX ->
  scan_ok n counts pmap ->
  pmap !! pair = Some recs ->
  complete_records counts pair recs = Raise e ->
  e = out_of_range.
Proof.
  intros Hn Hok Hpair. unfold complete_records, foldl.
  pose proof (fun i => complete_record_Raise n counts pmap pair recs i e
                         Hn Hok Hpair) as Hrec.
  intros [He|(recs3 & H3 & He)]%result_bind_Raise.
  - apply result_bind_Raise in He as [He|(recs2 & H2 & He)].
    + apply result_bind_Raise in He as [He|(recs1 & H1 & He)].
      * apply result_bind_Raise in He as [He|(recs0 & [= <-] & He)]; [done|].
        apply result_bind_Raise in He as [He|(? & _ & He)]; [|done].
        by apply (Hrec HH).
      * apply result_bind_Ok in H1 as (recs0 & [= <-] & H1).
        apply result_bind_Ok in H1 as (r0 & _ & [= <-]).
        apply result_bind_Raise in He as [He|(? & _ & He)]; [|done].
        by apply (Hrec HT).
    + apply result_bind_Ok in H2 as (recs1 & H1 & H2).
      apply result_bind_Ok in H1 as (recs0 & [= <-] & H1).
      apply result_bind_Ok in H1 as (r0 & _ & [= <-]).
      apply result_bind_Ok in H2 as (r1 & _ & [= <-]).
      apply result_bind_Raise in He as [He|(? & _ & He)]; [|done].
      by apply (Hrec TH).
  - apply result_bind_Ok in H3 as (recs2 & H2 & H3).
    apply result_bind_Ok in H2 as (recs1 & H1 & H2).
    apply result_bind_Ok in H1 as (recs0 & [= <-] & H1).
    apply result_bind_Ok in H1 as (r0 & _ & [= <-]).
    apply result_bind_Ok in H2 as (r1 & _ & [= <-]).
    apply result_bind_Ok in H3 as (r2 & _ & [= <-]).
    apply result_bind_Raise in He as [He|(? & _ & He)]; [|done].
    by apply (Hrec TT).
Qed.

(** Started from an empty pair map, [calcContigPairBarcodeStats] either
    returns or ends with [std::out_of_range]: its assertions never
    fail. *)
Lemma calcContigPairBarcodeStats_Raise (imap : IndexMap)
    (indexMultMap : gmap string Z) (contigToLength : ContigToLength)
    (params : ArcsParams) (e : exn) :
  Z.of_nat (size imap) <= INT_MAX ->
  calcContigPairBarcodeStats imap indexMultMap contigToLength params ∅
    = Raise e ->
  e = out_of_range.
Proof.
  intros Hsize. unfold calcContigPairBarcodeStats.
  intros [He|([counts pmap] & Hscan & He)]%result_bind_Raise;
    [by apply pair_scan_Raise in He|].
  assert (Hn : Z.of_nat (size imap) <= UINT_MAX)
    by (unfold INT_MAX, UINT_MAX in *; lia).
  pose proof (pair_scan_ok _ _ _ _ Hn _ _ Hscan) as Hok.
  simpl in He. revert He. unfold pair_complete.
  cut (forall m : PairMap, m ⊆ pmap -> forall e,
         for_each (fun pair recs acc =>
                     pm ← acc;
                     recs' ← complete_records counts pair recs;
                     Ok (<[pair := recs']> pm)) (Ok pmap) m = Raise e ->
         e = out_of_range).
  { intros Hgen. by apply Hgen. }
  apply (for_each_ind (fun r (m : PairMap) => m ⊆ pmap -> forall e,
           r = Raise e -> e = out_of_range)); [done|].
  intros pair recs m r Hfresh IH Hsub e'.
  apply insert_subseteq_inv in Hsub as [Hsub Hpair]; [|done].
  intros [He|(pm & _ & He)]%result_bind_Raise; [by apply IH|].
  apply result_bind_Raise in He as [He|(? & _ & He)]; [|done].
  eapply complete_records_Raise; [|exact Hok|exact Hpair|exact He]. lia.
Qed.

(** When the first pass has stored a pair and has not counted one of the
    two ends of one of its four variants, the second pass throws. *)
Lemma unobserved_end_throws (imap : IndexMap) (indexMultMap : gmap string Z)
    (contigToLength : ContigToLength) (params : ArcsParams)
    (counts : gmap CI Z) (pmap : PairMap) (pair : ContigPair)
    (recs : PairRecords) (o : PairOrientation) :
  Z.of_nat (size imap) <= INT_MAX ->
  pair_scan imap indexMultMap contigToLength params ∅ = Ok (counts, pmap) ->
  pmap !! pair = Some recs ->
  counts !! first_end pair o = None \/ counts !! second_end pair o = None ->
  calcContigPairBarcodeStats imap indexMultMap contigToLength params ∅
    = Raise out_of_range.
Proof.
  intros Hsize Hscan Hpair Hmissing.
  destruct (calcContigPairBarcodeStats imap indexMultMap contigToLength
              params ∅) as [pmap'|e] eqn:Hrun.
  - exfalso. unfold calcContigPairBarcodeStats in Hrun.
    rewrite Hscan in Hrun. simpl in Hrun.
    destruct (pair_complete_all _ _ _ Hrun _ _ Hpair) as (recs' & Hrecs).
    pose proof (complete_records_Ok _ _ _ _ Hrecs o) as Hrec.
    apply complete_record_Ok in Hrec as (c1 & c2 & Hc1 & Hc2 & _).
    unfold first_end, second_end in Hmissing.
    destruct Hmissing as [Hm|Hm]; congruence.
  - f_equal. by apply (calcContigPairBarcodeStats_Raise _ _ _ _ _ Hsize Hrun).
Qed.

(** ** When the estimate exists *)

Lemma interpolated_range (xs : list Z) (p q : Q) (a b : Z) :
  Forall (fun x => a <= x <= b) xs -> interpolated xs p q ->
  a <= Qfloor q /\ Qceiling q <= b.
Proof.
  intros Hall (lo & hi & Hlo & Hhi & _ & Hq0 & Hq1).
  rewrite Forall_forall in Hall.
  apply list_elem_of_lookup_2 in Hlo, Hhi.
  apply Hall in Hlo, Hhi. split.
  - etrans; [apply Hlo|]. rewrite <- (Qfloor_Z lo). by apply Qfloor_resp_le.
  - etrans; [|apply Hhi]. rewrite <- (Qceiling_Z hi). by apply Qceiling_resp_le.
Qed.

(** With the range query and the quantile modelled from the spec,
    [estimateDistance] returns an estimate as soon as the record is
    consistent, the window holds a sample and the distances fit an
    [int]. *)
Lemma estimateDistance_succeeds (rec : PairRecord)
    (jaccardToDist : JaccardToDist) (params : ArcsParams) :
  StronglySorted key_lt jaccardToDist ->
  0 <= ARCS.barcodesIntersect rec <= ARCS.barcodesUnion rec ->
  0 < ARCS.barcodesUnion rec ->
  window jaccardToDist
    (ddiv (ARCS.barcodesIntersect rec) (ARCS.barcodesUnion rec))
    (dist_bin_size params) <> [] ->
  Forall (fun e => 0 <= distance (e.2) <= INT_MAX) jaccardToDist ->
  exists est,
    @estimateDistance spec_closestKeys spec_quantile rec jaccardToDist params
    = Ok (est, true).
Proof.
  intros Hsorted HI HU Hwindow Hdist.
  unfold estimateDistance.
  destruct jaccardToDist as [|e0 m0]; [done|].
  remember (e0 :: m0) as jaccardToDist eqn:Hidx. clear Hidx.
  assert ((ARCS.barcodesUnion rec =? 0) = false) as -> by (apply Z.eqb_neq; lia).
  rewrite (jaccard_assert_holds _ _ HI HU), result_bind_Ok_l. cbv beta.
  set (j := ddiv (ARCS.barcodesIntersect rec) (ARCS.barcodesUnion rec)) in *.
  pose proof (spec_closestKeys_window jaccardToDist j (dist_bin_size params)
                Hsorted) as Hwin.
  change (@closestKeys spec_closestKeys) with spec_closestKeys.
  destruct (spec_closestKeys jaccardToDist j (dist_bin_size params))
    as [lowerIt upperIt].
  simpl in Hwin. rewrite Hwin, result_bind_Ok_l. cbv beta.
  set (known := map (fun e => distance (e.2))
                  (window jaccardToDist j (dist_bin_size params))).
  assert (Hknown : Forall (fun x => 0 <= x <= INT_MAX) known).
  { unfold known, window. apply Forall_forall. intros x Hx.
    apply list_elem_of_fmap in Hx as (e & -> & He).
    apply list_elem_of_In in He. apply filter_In in He as [He _].
    apply list_elem_of_In in He. rewrite Forall_forall in Hdist.
    by apply Hdist. }
  assert (Hsort : Forall (fun x => 0 <= x <= INT_MAX) (sort known)).
  { by rewrite sort_permutation. }
  assert (Hne : sort known <> []).
  { intros Hnil. pose proof (sort_permutation known) as Hp.
    rewrite Hnil in Hp. apply Permutation_nil in Hp.
    unfold known in Hp. apply map_eq_nil in Hp. done. }
  change (@quantile spec_quantile) with spec_quantile.
  destruct (spec_quantile_interpolated (sort known) (1 # 100)
              (sort_sorted known) Hne) as (q1 & Hq1 & Hi1);
    [split; by vm_compute|].
  destruct (spec_quantile_interpolated (sort known) (99 # 100)
              (sort_sorted known) Hne) as (q99 & Hq99 & Hi99);
    [split; by vm_compute|].
  destruct (interpolated_range _ _ _ _ _ Hsort Hi1) as [Hlo1 Hhi1].
  destruct (interpolated_range _ _ _ _ _ Hsort Hi99) as [Hlo99 Hhi99].
  pose proof (Qle_ceiling q1) as Hc1. pose proof (Qfloor_le q1) as Hf1.
  pose proof (Qle_ceiling q99) as Hc99. pose proof (Qfloor_le q99) as Hf99.
  assert (Qfloor q1 <= Qceiling q1).
  { rewrite Zle_Qle. by apply (Qle_trans _ q1). }
  assert (Qfloor q99 <= Qceiling q99).
  { rewrite Zle_Qle. by apply (Qle_trans _ q99). }
  assert (Hint1 : double_to_int (Qfloor q1) = Ok (Qfloor q1)).
  { unfold double_to_int.
    assert ((INT_MIN <=? Qfloor q1) && (Qfloor q1 <=? INT_MAX) = true) as ->;
      [|done].
    apply andb_true_iff.
    split; apply Z.leb_le; unfold INT_MIN, INT_MAX in *; lia. }
  assert (Hint99 : double_to_int (Qceiling q99) = Ok (Qceiling q99)).
  { unfold double_to_int.
    assert ((INT_MIN <=? Qceiling q99) && (Qceiling q99 <=? INT_MAX) = true)
      as ->; [|done].
    apply andb_true_iff.
    split; apply Z.leb_le; unfold INT_MIN, INT_MAX in *; lia. }
  rewrite Hq1, result_bind_Ok_l. cbv beta.
  rewrite Hint1, result_bind_Ok_l. cbv beta.
  rewrite Hq99, result_bind_Ok_l. cbv beta.
  rewrite Hint99, result_bind_Ok_l. cbv beta.
  eauto.
Qed.

(** ** What [calcDistSamples] computes *)

Lemma barcode_count_empty (indexMultMap : gmap string Z) (params : ArcsParams)
    (p : ScafMap -> bool) :
  barcode_count indexMultMap params p ∅ = 0.
Proof. unfold barcode_count. by rewrite map_filter_empty, map_size_empty. Qed.

Lemma barcode_count_insert (indexMultMap : gmap string Z) (params : ArcsParams)
    (p : ScafMap -> bool) (imap : IndexMap) (index : string) (m : ScafMap) :
  imap !! index = None ->
  barcode_count indexMultMap params p (<[index := m]> imap)
  = barcode_count indexMultMap params p imap
    + Z.b2z (in_mult_range indexMultMap params index && p m).
Proof.
  intros Hfresh. unfold barcode_count.
  destruct (in_mult_range indexMultMap params index && p m) eqn:Hp.
  - rewrite map_filter_insert_True by done.
    rewrite map_size_insert_None; [simpl; lia|].
    apply map_lookup_filter_None. by left.
  - rewrite map_filter_insert_False by (simpl; congruence).
    rewrite delete_id by done. simpl. lia.
Qed.

Lemma barcode_count_range (indexMultMap : gmap string Z) (params : ArcsParams)
    (p : ScafMap -> bool) (imap : IndexMap) :
  0 <= barcode_count indexMultMap params p imap <= Z.of_nat (size imap).
Proof.
  unfold barcode_count. split; [lia|].
  apply inj_le. apply map_subseteq_size. apply map_filter_subseteq.
Qed.

Lemma in_mult_range_Some (indexMultMap : gmap string Z) (params : ArcsParams)
    (index : string) (k : Z) :
  indexMultMap !! index = Some k ->
  in_mult_range indexMultMap params index = mult_in_range k params.
Proof. unfold in_mult_range. by intros ->. Qed.

(** Started from any map, the run adds to the four counters of a contig
    the numbers of barcodes that qualify at its head, at its tail, at
    either end and at both ends. *)
Lemma calcDistSamples_adds (contigToLength : ContigToLength)
    (indexMultMap : gmap string Z) (params : ArcsParams)
    (distSamples0 : DistSampleMap) (c : string) (l bound : Z)
    (imap : IndexMap) :
  contigToLength !! c = Some l -> sample_min_length params <= l ->
  0 <= barcodesHead (sample_of distSamples0 c) <= bound ->
  0 <= barcodesTail (sample_of distSamples0 c) <= bound ->
  0 <= barcodesUnion (sample_of distSamples0 c) <= bound ->
  0 <= barcodesIntersect (sample_of distSamples0 c) <= bound ->
  bound + Z.of_nat (size imap) <= UINT_MAX ->
  forall distSamples,
    calcDistSamples imap contigToLength indexMultMap params distSamples0
      = Ok distSamples ->
    let n p := barcode_count indexMultMap params p imap in
    let s0 := sample_of distSamples0 c in
    let s := sample_of distSamples c in
    barcodesHead s = barcodesHead s0 + n (fun m => qualifies m c true params) /\
    barcodesTail s = barcodesTail s0 + n (fun m => qualifies m c false params) /\
    barcodesUnion s
      = barcodesUnion s0
        + n (fun m => qualifies m c true params || qualifies m c false params) /\
    barcodesIntersect s
      = barcodesIntersect s0
        + n (fun m => qualifies m c true params && qualifies m c false params).
Proof.
  intros Hl Hlong Bh Bt Bu Bi. unfold calcDistSamples. revert imap.
  apply (for_each_ind (fun r (im : IndexMap) =>
    bound + Z.of_nat (size im) <= UINT_MAX -> forall ds, r = Ok ds ->
      let n p := barcode_count indexMultMap params p im in
      let s0 := sample_of distSamples0 c in
      let s := sample_of ds c in
      barcodesHead s = barcodesHead s0 + n (fun m => qualifies m c true params) /\
      barcodesTail s = barcodesTail s0 + n (fun m => qualifies m c false params) /\
      barcodesUnion s
        = barcodesUnion s0
          + n (fun m => qualifies m c true params || qualifies m c false params) /\
      barcodesIntersect s
        = barcodesIntersect s0
          + n (fun m => qualifies m c true params && qualifies m c false params))).
  { intros _ ds [= <-]. cbv beta zeta.
    rewrite !barcode_count_empty. lia. }
  intros index m im r Hfresh IH Hsize ds Hstep. cbv beta zeta.
  rewrite map_size_insert_None in Hsize by done.
  apply result_bind_Ok in Hstep as (ds0 & -> & Hstep).
  assert (Hsize0 : bound + Z.of_nat (size im) <= UINT_MAX) by lia.
  specialize (IH Hsize0 ds0 eq_refl). cbv beta zeta in IH.
  destruct IH as (IHh & IHt & IHu & IHi).
  rewrite !barcode_count_insert by done.
  apply sample_index_Ok in Hstep as (k & Hk & Hstep).
  rewrite (in_mult_range_Some _ _ _ _ Hk).
  destruct (mult_in_range k params).
  2:{ subst ds. simpl. rewrite !Z.add_0_r. done. }
  pose proof (sample_barcode_lookup _ _ _ _ _ Hstep c) as Hlook.
  unfold progress_lookup in Hlook. rewrite Hl in Hlook.
  assert ((sample_min_length params <=? l) = true) as Hle
    by (apply Z.leb_le; lia).
  rewrite Hle in Hlook. simpl in Hlook.
  pose proof (barcode_count_range indexMultMap params
                (fun m => qualifies m c true params) im) as Rh.
  pose proof (barcode_count_range indexMultMap params
                (fun m => qualifies m c false params) im) as Rt.
  pose proof (barcode_count_range indexMultMap params
                (fun m => qualifies m c true params || qualifies m c false params)
                im) as Ru.
  pose proof (barcode_count_range indexMultMap params
                (fun m => qualifies m c true params && qualifies m c false params)
                im) as Ri.
  unfold sample_of at 1 3 5 7. rewrite Hlook.
  destruct (qualifies m c true params), (qualifies m c false params);
    simpl; fold (sample_of ds0 c);
    rewrite ?IHh, ?IHt, ?IHu, ?IHi, ?uincr_small by lia;
    repeat split; lia.
Qed.

(** Started from the empty map, the four counters are these numbers. *)
Lemma calcDistSamples_counters (contigToLength : ContigToLength)
    (indexMultMap : gmap string Z) (params : ArcsParams) (imap : IndexMap) :
  Z.of_nat (size imap) <= UINT_MAX ->
  forall distSamples,
    calcDistSamples imap contigToLength indexMultMap params ∅ = Ok distSamples ->
    forall c l, contigToLength !! c = Some l -> sample_min_length params <= l ->
      let n p := barcode_count indexMultMap params p imap in
      let s := sample_of distSamples c in
      barcodesHead s = n (fun m => qualifies m c true params) /\
      barcodesTail s = n (fun m => qualifies m c false params) /\
      barcodesUnion s
        = n (fun m => qualifies m c true params || qualifies m c false params) /\
      barcodesIntersect s
        = n (fun m => qualifies m c true params && qualifies m c false params).
Proof.
  intros Hsize ds Hrun c l Hl Hlong.
  assert (H0 : sample_of ∅ c = DistSample_default)
    by (unfold sample_of; by rewrite lookup_empty).
  pose proof (calcDistSamples_adds contigToLength indexMultMap params ∅ c l 0
                imap Hl Hlong) as Hadd.
  rewrite H0 in Hadd. simpl in Hadd.
  apply Hadd; (done || lia).
Qed.

Lemma barcode_count_pos (indexMultMap : gmap string Z) (params : ArcsParams)
    (p : ScafMap -> bool) (imap : IndexMap) :
  0 < barcode_count indexMultMap params p imap <->
  exists index m, imap !! index = Some m /\
    in_mult_range indexMultMap params index = true /\ p m = true.
Proof.
  unfold barcode_count. split.
  - intros Hpos.
    destruct (map_size_ne_0_lookup_1
      (filter (fun e : string * ScafMap =>
                 in_mult_range indexMultMap params (e.1) && p (e.2) = true) imap))
      as (index & m & Hm); [lia|].
    apply map_lookup_filter_Some in Hm as [Hm Hp]. simpl in Hp.
    apply andb_true_iff in Hp as [? ?]. by exists index, m.
  - intros (index & m & Hm & Hr & Hp).
    assert (size (filter (fun e : string * ScafMap =>
              in_mult_range indexMultMap params (e.1) && p (e.2) = true) imap)
            <> 0%nat); [|lia].
    apply (map_size_ne_0_lookup_2 _ index).
    exists m. apply map_lookup_filter_Some. split; [done|]. simpl.
    by rewrite Hr, Hp.
Qed.

(** The map that [calcDistSamples] returns, entry by entry. *)
Lemma calcDistSamples_lookup (contigToLength : ContigToLength)
    (indexMultMap : gmap string Z) (params : ArcsParams) (imap : IndexMap)
    (distSamples : DistSampleMap) :
  Z.of_nat (size imap) <= UINT_MAX ->
  calcDistSamples imap contigToLength indexMultMap params ∅ = Ok distSamples ->
  forall c,
    distSamples !! c
    = counted_sample imap contigToLength indexMultMap params c.
Proof.
  intros Hsize Hrun c. unfold counted_sample.
  pose proof (calcDistSamples_counters _ _ _ _ Hsize _ Hrun c) as Hcount.
  destruct (distSamples !! c) as [s|] eqn:Hc.
  - destruct (calcDistSamples_sample_ok _ _ _ _ Hsize _ Hrun _ _ Hc)
      as ((l & Hl & Hlong & Hd) & _ & HU).
    specialize (Hcount l Hl Hlong). cbv beta zeta in Hcount.
    unfold sample_of in Hcount. rewrite Hc in Hcount. simpl in Hcount.
    destruct Hcount as (Hh & Ht & Hu & Hi).
    rewrite Hl. rewrite <- Hh, <- Ht, <- Hu, <- Hi, <- Hd.
    assert ((sample_min_length params <=? l) = true) as ->
      by (apply Z.leb_le; lia).
    assert ((0 <? barcodesUnion s) = true) as -> by (apply Z.ltb_lt; lia).
    simpl. by destruct s.
  - destruct (contigToLength !! c) as [l|]; [|done].
    destruct (Z.leb_spec (sample_min_length params) l) as [Hlong|]; [|done].
    specialize (Hcount l eq_refl Hlong). cbv beta zeta in Hcount.
    unfold sample_of in Hcount. rewrite Hc in Hcount. simpl in Hcount.
    destruct Hcount as (_ & _ & Hu & _). by rewrite <- Hu.
Qed.

(** A loop whose body returns or raises whatever the state is returns
    exactly when the body returns on every entry. *)
Lemma for_each_Ok_iff `{IterationOrder K} {A B} (good : K -> A -> Prop)
    (f : K -> A -> B -> result B) (b0 : B) :
  (forall k a b, (exists b', f k a b = Ok b') <-> good k a) ->
  forall m : gmap K A,
    (exists b', for_each (fun k a acc => acc ≫= f k a) (Ok b0) m = Ok b') <->
    (forall k a, m !! k = Some a -> good k a).
Proof.
  intros Hf.
  apply (for_each_ind (fun r (m : gmap K A) =>
    (exists b', r = Ok b') <-> (forall k a, m !! k = Some a -> good k a))).
  { split; [|eauto]. intros _ k a Hk. by rewrite lookup_empty in Hk. }
  intros k a m r Hfresh IH. split.
  - intros (b' & (b & -> & Hb)%result_bind_Ok) k' a' Hk'.
    destruct (decide (k = k')) as [<-|Hne].
    + rewrite lookup_insert_eq in Hk'. injection Hk' as <-.
      apply (Hf k a b). eauto.
    + rewrite lookup_insert_ne in Hk' by done.
      apply IH; eauto.
  - intros Hall.
    destruct (proj2 IH) as [b ->].
    { intros k' a' Hk'. apply Hall. rewrite lookup_insert_ne; [done|].
      intros ->. congruence. }
    simpl. apply (Hf k a b), Hall, lookup_insert_eq.
Qed.

Lemma sample_observation_Ok_iff (contigToLength : ContigToLength)
    (params : ArcsParams) (contigToCount : ScafMap) (key : CI) (readPairs : Z)
    (distSamples : DistSampleMap) :
  (exists ds', sample_observation contigToLength params contigToCount key
                 readPairs distSamples = Ok ds') <->
  (min_reads params <= readPairs -> is_Some (contigToLength !! (key.1))).
Proof.
  destruct key as [c e]. unfold sample_observation, at_key. simpl.
  destruct (Z.ltb_spec readPairs (min_reads params)) as [Hlt|Hge].
  - split; [lia|eauto].
  - destruct (contigToLength !! c) as [l|]; simpl.
    + split; [eauto|]. intros _.
      destruct (l <? sample_min_length params); eauto.
    + split; [by intros [? ?]|]. intros Hl. by destruct (Hl Hge) as [? ?].
Qed.

Lemma sample_barcode_Ok_iff (contigToLength : ContigToLength)
    (params : ArcsParams) (m : ScafMap) (distSamples : DistSampleMap) :
  (exists ds', sample_barcode contigToLength params m distSamples = Ok ds') <->
  (forall c e n, m !! (c, e) = Some n -> min_reads params <= n ->
     is_Some (contigToLength !! c)).
Proof.
  unfold sample_barcode.
  rewrite (for_each_Ok_iff
    (fun (key : CI) n => min_reads params <= n ->
                         is_Some (contigToLength !! (key.1)))).
  - split.
    + intros Hall c e n. apply (Hall (c, e)).
    + intros Hall [c e] n. apply Hall.
  - intros key n ds. apply sample_observation_Ok_iff.
Qed.

Lemma calcDistSamples_Ok_iff (imap : IndexMap)
    (contigToLength : ContigToLength) (indexMultMap : gmap string Z)
    (params : ArcsParams) (distSamples : DistSampleMap) :
  (exists ds', calcDistSamples imap contigToLength indexMultMap params
                 distSamples = Ok ds') <->
  sample_lookups_hit imap contigToLength indexMultMap params.
Proof.
  unfold calcDistSamples, sample_lookups_hit.
  apply for_each_Ok_iff.
  intros index m ds. unfold sample_index, at_key.
  destruct (indexMultMap !! index) as [k|]; simpl.
  - destruct (mult_in_range k params) eqn:Hr.
    + rewrite sample_barcode_Ok_iff. split.
      * intros Hall. exists k. split; [done|]. by intros _.
      * intros (k' & [= <-] & Hall). by apply Hall.
    + split; [|eauto]. intros _. exists k. split; [done|]. intros ?; congruence.
  - split; [by intros [? ?]|]. by intros (k & ? & _).
Qed.

(** [calcDistSamples] raises nothing but [std::out_of_range]. *)
Lemma calcDistSamples_Raise (imap : IndexMap)
    (contigToLength : ContigToLength) (indexMultMap : gmap string Z)
    (params : ArcsParams) (distSamples : DistSampleMap) (e : exn) :
  calcDistSamples imap contigToLength indexMultMap params distSamples = Raise e ->
  e = out_of_range.
Proof.
  unfold calcDistSamples.
  apply (for_each_Raise (fun e => e = out_of_range)).
  intros index m ds e'. unfold sample_index.
  intros [He|(k & _ & He)]%result_bind_Raise; [by apply at_key_Raise in He|].
  destruct (mult_in_range k params); [|done].
  revert He. unfold sample_barcode.
  apply (for_each_Raise (fun e => e = out_of_range)).
  intros [c h] n ds1 e1. unfold sample_observation.
  destruct (n <? min_reads params); [done|].
  intros [He|(l & _ & He)]%result_bind_Raise; [by apply at_key_Raise in He|].
  by destruct (l <? sample_min_length params).
Qed.

(** C10: in every sample built by [calcDistSamples] the head and tail
    counters add up to the union plus the intersection, and both sums
    are the number of ends of the contig at which the barcodes of the
    input qualify.  One barcode, that is one turn of the outer loop,
    adds the same amount to both sums: 2 when it qualifies at both ends
    of the contig, 1 when it qualifies at one, nothing otherwise. *)
Theorem head_tail_union_intersect (contigToLength : ContigToLength)
    (indexMultMap : gmap string Z) (params : ArcsParams) (imap : IndexMap)
    (distSamples : DistSampleMap) (contigID : string) (s : DistSample) :
  Z.of_nat (size imap) <= UINT_MAX ->
  calcDistSamples imap contigToLength indexMultMap params ∅ = Ok distSamples ->
  distSamples !! contigID = Some s ->
  let n p := barcode_count indexMultMap params p imap in
  let head m := qualifies m contigID true params in
  let tail m := qualifies m contigID false params in
  barcodesHead s + barcodesTail s = barcodesUnion s + barcodesIntersect s /\
  barcodesHead s + barcodesTail s = n head + n tail /\
  1 <= n head + n tail /\
  forall (index : string) (contigToCount : ScafMap)
         (before_run after_run : DistSampleMap) (l : Z),
    contigToLength !! contigID = Some l ->
    sample_min_length params <= l ->
    in_mult_range indexMultMap params index = true ->
    sample_index contigToLength indexMultMap params index contigToCount
      before_run = Ok after_run ->
    let before := sample_of before_run contigID in
    let after := sample_of after_run contigID in
    let amount := Z.b2z (head contigToCount) + Z.b2z (tail contigToCount) in
    0 <= barcodesHead before < UINT_MAX ->
    0 <= barcodesTail before < UINT_MAX ->
    0 <= barcodesUnion before < UINT_MAX ->
    0 <= barcodesIntersect before < UINT_MAX ->
    barcodesHead after + barcodesTail after
      = barcodesHead before + barcodesTail before + amount /\
    barcodesUnion after + barcodesIntersect after
      = barcodesUnion before + barcodesIntersect before + amount.
Proof.
  intros Hsize Hrun Hs n head tail.
  destruct (calcDistSamples_sample_ok _ _ _ _ Hsize _ Hrun _ _ Hs)
    as ((l0 & Hl0 & Hlong0 & _) & (HI & _ & _ & _ & Hsum) & HU).
  pose proof (calcDistSamples_counters _ _ _ _ Hsize _ Hrun contigID l0 Hl0
                Hlong0) as Hcount.
  cbv beta zeta in Hcount. unfold sample_of in Hcount. rewrite Hs in Hcount.
  simpl in Hcount. destruct Hcount as (Hh & Ht & Hu & Hi).
  split; [exact Hsum|]. split; [by rewrite Hh, Ht|].
  split; [unfold n, head, tail; rewrite <- Hh, <- Ht, Hsum; lia|].
  intros index contigToCount before_run after_run l Hl Hlong Hrange Hstep
    before after amount Bh Bt Bu Bi.
  apply sample_index_Ok in Hstep as (k & Hk & Hstep).
  rewrite (in_mult_range_Some _ _ _ _ Hk) in Hrange. rewrite Hrange in Hstep.
  pose proof (sample_barcode_lookup _ _ _ _ _ Hstep contigID) as Hc.
  unfold progress_lookup in Hc. rewrite Hl in Hc.
  assert ((sample_min_length params <=? l) = true) as Hle
    by (apply Z.leb_le; lia).
  rewrite Hle in Hc. simpl in Hc.
  subst after amount. unfold sample_of at 1 2 3 4. rewrite Hc.
  fold (head contigToCount) (tail contigToCount).
  destruct (head contigToCount), (tail contigToCount); simpl;
    fold (sample_of before_run contigID); fold before;
    rewrite ?uincr_small by lia; lia.
Qed.

(** X1: the counters of a stored sample are numbers of barcodes: those
    that pass the multiplicity filter and qualify at the head, at the
    tail, at either end and at both ends of the contig. *)
Theorem sample_counts_barcodes (contigToLength : ContigToLength)
    (indexMultMap : gmap string Z) (params : ArcsParams) (imap : IndexMap)
    (distSamples : DistSampleMap) (contigID : string) (s : DistSample) :
  Z.of_nat (size imap) <= UINT_MAX ->
  calcDistSamples imap contigToLength indexMultMap params ∅ = Ok distSamples ->
  distSamples !! contigID = Some s ->
  let n p := barcode_count indexMultMap params p imap in
  let head m := qualifies m contigID true params in
  let tail m := qualifies m contigID false params in
  barcodesHead s = n head /\
  barcodesTail s = n tail /\
  barcodesUnion s = n (fun m => head m || tail m) /\
  barcodesIntersect s = n (fun m => head m && tail m).
Proof.
  intros Hsize Hrun Hs.
  pose proof (calcDistSamples_lookup _ _ _ _ _ Hsize Hrun contigID) as Hlook.
  rewrite Hs in Hlook. unfold counted_sample in Hlook.
  destruct (contigToLength !! contigID) as [l|]; [|done].
  destruct (_ && _); [|done]. by injection Hlook as ->.
Qed.

(** X2: a contig has a sample exactly when it is at least twice the end
    length long and some barcode that passes the multiplicity filter
    qualifies at one of its ends. *)
Theorem sample_stored_iff (contigToLength : ContigToLength)
    (indexMultMap : gmap string Z) (params : ArcsParams) (imap : IndexMap)
    (distSamples : DistSampleMap) (contigID : string) :
  0 <= end_length params <= INT_MAX ->
  Z.of_nat (size imap) <= UINT_MAX ->
  calcDistSamples imap contigToLength indexMultMap params ∅ = Ok distSamples ->
  is_Some (distSamples !! contigID) <->
  exists l index m,
    contigToLength !! contigID = Some l /\
    2 * end_length params <= l /\
    imap !! index = Some m /\
    in_mult_range indexMultMap params index = true /\
    qualifies m contigID true params || qualifies m contigID false params
      = true.
Proof.
  intros He Hsize Hrun.
  rewrite (calcDistSamples_lookup _ _ _ _ _ Hsize Hrun contigID).
  unfold counted_sample. rewrite (sample_min_length_exact _ He).
  destruct (contigToLength !! contigID) as [l|].
  2:{ split; [by intros [? ?]|]. by intros (l & ? & ? & ? & _). }
  destruct (Z.leb_spec (2 * end_length params) l) as [Hlong|Hshort]; simpl.
  2:{ split; [by intros [? ?]|]. intros (l' & ? & ? & [= <-] & ? & _). lia. }
  destruct (Z.ltb_spec 0 (barcode_count indexMultMap params
              (fun m => qualifies m contigID true params
                        || qualifies m contigID false params) imap))
    as [Hpos|Hzero].
  - split; [|eauto]. intros _.
    apply barcode_count_pos in Hpos as (index & m & Hm & Hr & Hq).
    by exists l, index, m.
  - split; [by intros [? ?]|].
    intros (l' & index & m & _ & _ & Hm & Hr & Hq).
    assert (0 < barcode_count indexMultMap params
              (fun m => qualifies m contigID true params
                        || qualifies m contigID false params) imap); [|lia].
    apply barcode_count_pos. by exists index, m.
Qed.

(** X3: [calcDistSamples] returns exactly when each of its lookups hits,
    and otherwise ends with [std::out_of_range]: a barcode without a
    multiplicity, or a contig without a length to which a barcode within
    the multiplicity range maps with at least [min_reads] read pairs. *)
Theorem calcDistSamples_returns_iff (imap : IndexMap)
    (contigToLength : ContigToLength) (indexMultMap : gmap string Z)
    (params : ArcsParams) (distSamples : DistSampleMap) :
  let run :=
    calcDistSamples imap contigToLength indexMultMap params distSamples in
  ((exists distSamples', run = Ok distSamples') <->
   sample_lookups_hit imap contigToLength indexMultMap params) /\
  (run = Raise out_of_range <->
   ~ sample_lookups_hit imap contigToLength indexMultMap params).
Proof.
  intros run. split; [apply calcDistSamples_Ok_iff|].
  rewrite <- (calcDistSamples_Ok_iff imap contigToLength indexMultMap params
                distSamples).
  fold run. split.
  - intros -> [ds Hds]. done.
  - intros Hno. destruct run as [ds|e] eqn:Hrun.
    + destruct Hno. eauto.
    + f_equal. by apply (calcDistSamples_Raise _ _ _ _ _ _ Hrun).
Qed.

(** The entries that a run leaves as they are. *)
Lemma calcDistSamples_frame (contigToLength : ContigToLength)
    (indexMultMap : gmap string Z) (params : ArcsParams)
    (distSamples0 : DistSampleMap) (contigID : string) (imap : IndexMap) :
  forall distSamples,
    calcDistSamples imap contigToLength indexMultMap params distSamples0
      = Ok distSamples ->
    (is_Some (distSamples0 !! contigID) -> is_Some (distSamples !! contigID)) /\
    (barcode_count indexMultMap params
       (fun m => qualifies m contigID true params
                 || qualifies m contigID false params) imap = 0 ->
     distSamples !! contigID = distSamples0 !! contigID) /\
    (match contigToLength !! contigID with
     | Some l => l < sample_min_length params
     | None => True
     end -> distSamples !! contigID = distSamples0 !! contigID).
Proof.
  unfold calcDistSamples. revert imap.
  set (either := fun m : ScafMap => qualifies m contigID true params
                                    || qualifies m contigID false params).
  apply (for_each_ind (fun r (im : IndexMap) => forall ds, r = Ok ds ->
    (is_Some (distSamples0 !! contigID) -> is_Some (ds !! contigID)) /\
    (barcode_count indexMultMap params either im = 0 ->
     ds !! contigID = distSamples0 !! contigID) /\
    (match contigToLength !! contigID with
     | Some l => l < sample_min_length params
     | None => True
     end -> ds !! contigID = distSamples0 !! contigID))).
  { by intros ds [= <-]. }
  intros index m im r Hfresh IH ds Hstep.
  apply result_bind_Ok in Hstep as (ds0 & -> & Hstep).
  destruct (IH ds0 eq_refl) as (IHs & IHn & IHl). clear IH.
  rewrite barcode_count_insert by done.
  pose proof (barcode_count_range indexMultMap params either im) as Rn.
  apply sample_index_Ok in Hstep as (k & Hk & Hstep).
  rewrite (in_mult_range_Some _ _ _ _ Hk).
  destruct (mult_in_range k params).
  2:{ subst ds. simpl. rewrite Z.add_0_r. done. }
  pose proof (sample_barcode_lookup _ _ _ _ _ Hstep contigID) as Hlook.
  unfold progress_lookup in Hlook. fold (either m) in Hlook.
  destruct (contigToLength !! contigID) as [l|].
  2:{ rewrite Hlook. split; [done|]. split; [|done].
      intros Hz. apply IHn.
      destruct (either m); simpl in Hz; lia. }
  destruct (Z.leb_spec (sample_min_length params) l) as [Hlong|Hshort];
    simpl in Hlook.
  2:{ rewrite Hlook. split; [done|]. split; [|done].
      intros Hz. apply IHn.
      destruct (either m); simpl in Hz; lia. }
  destruct (either m) eqn:Hq; simpl.
  - rewrite Hlook. split; [eauto|]. split; [lia|lia].
  - rewrite Hlook, Z.add_0_r. split; [done|]. split; [done|lia].
Qed.

(** X4: [calcDistSamples] adds to the map it is given.  The counters of
    a contig grow by the numbers of barcodes that qualify, no entry is
    removed, and the entry of a contig is left as it is when no barcode
    within the multiplicity range qualifies at one of its ends, when the
    contig is shorter than the bound, and when it has no length. *)
Theorem calcDistSamples_accumulates (contigToLength : ContigToLength)
    (indexMultMap : gmap string Z) (params : ArcsParams) (imap : IndexMap)
    (distSamples0 distSamples : DistSampleMap) (contigID : string) :
  calcDistSamples imap contigToLength indexMultMap params distSamples0
    = Ok distSamples ->
  let n p := barcode_count indexMultMap params p imap in
  let head m := qualifies m contigID true params in
  let tail m := qualifies m contigID false params in
  let s0 := sample_of distSamples0 contigID in
  let s := sample_of distSamples contigID in
  (is_Some (distSamples0 !! contigID) -> is_Some (distSamples !! contigID)) /\
  (n (fun m => head m || tail m) = 0 ->
   distSamples !! contigID = distSamples0 !! contigID) /\
  (match contigToLength !! contigID with
   | Some l => l < sample_min_length params
   | None => True
   end -> distSamples !! contigID = distSamples0 !! contigID) /\
  (forall l bound,
     contigToLength !! contigID = Some l -> sample_min_length params <= l ->
     0 <= barcodesHead s0 <= bound -> 0 <= barcodesTail s0 <= bound ->
     0 <= barcodesUnion s0 <= bound -> 0 <= barcodesIntersect s0 <= bound ->
     bound + Z.of_nat (size imap) <= UINT_MAX ->
     barcodesHead s = barcodesHead s0 + n head /\
     barcodesTail s = barcodesTail s0 + n tail /\
     barcodesUnion s = barcodesUnion s0 + n (fun m => head m || tail m) /\
     barcodesIntersect s
       = barcodesIntersect s0 + n (fun m => head m && tail m)).
Proof.
  intros Hrun n head tail s0 s.
  destruct (calcDistSamples_frame contigToLength indexMultMap params
              distSamples0 contigID imap distSamples Hrun) as (Hs & Hn & Hl).
  split; [exact Hs|]. split; [exact Hn|]. split; [exact Hl|].
  intros l bound Hlen Hlong Bh Bt Bu Bi Hsize.
  by apply (calcDistSamples_adds contigToLength indexMultMap params
              distSamples0 contigID l bound imap).
Qed.

(** ** The index and the samples *)

Lemma map_insert_keeps (k : Q) (s : DistSample) (m : JaccardToDist)
    (e : Q * DistSample) :
  e ∈ m -> e ∈ map_insert k s m.
Proof.
  induction m as [|[k0 s0] m IH]; simpl; [by intros ?%elem_of_nil|].
  destruct (k ?= k0)%Q; [done|by right|].
  intros [->|He]%elem_of_cons; [by left|right; by apply IH].
Qed.

Lemma map_insert_new (k : Q) (s : DistSample) (m : JaccardToDist) :
  key_in k (keys m) = false -> (k, s) ∈ map_insert k s m.
Proof.
  induction m as [|[k0 s0] m IH]; simpl; [intros _; by left|].
  change (Qeq_bool k k0 || key_in k (keys m) = false -> (k, s) ∈
            match (k ?= k0)%Q with
            | Eq => (k0, s0) :: m
            | Lt => (k, s) :: (k0, s0) :: m
            | Gt => (k0, s0) :: map_insert k s m
            end).
  intros [Hk0 Hm]%orb_false_iff.
  destruct (k ?= k0)%Q eqn:Hcmp.
  - apply Qeq_alt in Hcmp. apply Qeq_bool_iff in Hcmp. congruence.
  - by left.
  - right. by apply IH.
Qed.

Lemma map_insert_length_bounds (k : Q) (s : DistSample) (m : JaccardToDist) :
  (length m <= length (map_insert k s m) <= S (length m))%nat.
Proof.
  induction m as [|[k0 s0] m IH]; simpl; [lia|].
  destruct (k ?= k0)%Q; simpl; lia.
Qed.

(** The index after the samples of a list have been inserted into an
    index, first sample first. *)
Lemma index_from (l : list (string * DistSample)) (index0 : JaccardToDist) :
  let index :=
    foldl (fun acc (e : string * DistSample) =>
             map_insert (sample_jaccard (e.2)) (e.2) acc) index0 l in
  StronglySorted key_lt index0 ->
  StronglySorted key_lt index /\
  (forall e, e ∈ index0 -> e ∈ index) /\
  (forall k, key_in k (keys index)
             = key_in k (keys index0)
               || key_in k (map (fun e => sample_jaccard (e.2)) l)) /\
  (forall e, e ∈ index ->
     e ∈ index0 \/ exists c, (c, e.2) ∈ l /\ e.1 = sample_jaccard (e.2)) /\
  (length index0 <= length index <= length index0 + length l)%nat /\
  (forall l1 c s l2, l = l1 ++ (c, s) :: l2 ->
     key_in (sample_jaccard s) (keys index0) = false ->
     key_in (sample_jaccard s) (map (fun e => sample_jaccard (e.2)) l1) = false ->
     (sample_jaccard s, s) ∈ index).
Proof.
  intros index Hsorted0. subst index.
  induction l as [|[c s] l (Hsorted & Hkeep & Hkeys & Hin & Hlen & Hfirst)]
    using rev_ind.
  { simpl. split; [done|]. split; [done|]. split.
    { intros k. by rewrite orb_false_r. }
    split; [by left|]. split; [lia|].
    intros l1 c s l2 Hl. by destruct l1. }
  rewrite foldl_app, map_app. simpl.
  set (index := foldl (fun acc (e : string * DistSample) =>
                         map_insert (sample_jaccard (e.2)) (e.2) acc) index0 l)
    in *.
  split; [by apply map_insert_sorted|].
  split; [intros e He; by apply map_insert_keeps, Hkeep|].
  split.
  { intros k. rewrite key_in_map_insert, Hkeys, key_in_snoc.
    destruct (Qeq_bool k (sample_jaccard s)), (key_in k (keys index0)),
      (key_in k (map (fun e => sample_jaccard (e.2)) l)); done. }
  split.
  { intros e [->|He]%map_insert_elem.
    - right. exists c. split; [|done]. apply elem_of_app. right. by left.
    - destruct (Hin e He) as [H0|(c' & Hc' & Hk)]; [by left|].
      right. exists c'. split; [|done]. apply elem_of_app. by left. }
  split.
  { pose proof (map_insert_length_bounds (sample_jaccard s) s index).
    rewrite length_app. simpl. lia. }
  intros l1 c' s' l2 Hl H0 H1.
  destruct l2 as [|e2 l2 _] using rev_ind.
  - apply app_inj_tail in Hl as [-> [= -> ->]].
    apply map_insert_new. by rewrite Hkeys, H0, H1.
  - rewrite app_comm_cons, app_assoc in Hl.
    apply app_inj_tail in Hl as [-> _].
    apply map_insert_keeps. by apply (Hfirst l1 c' s' l2).
Qed.

(** X6: [buildJaccardToDist] adds to the index it is given and never
    replaces an entry.  For samples with a positive union, whose scores
    are finite [double]s, the index stays sorted, every entry it had is
    kept, every new entry is a sample of the map under its Jaccard
    score, and of the samples with equal scores the one visited first is
    the one stored, provided the score was not a key already. *)
Theorem buildJaccardToDist_adds (distSamples : DistSampleMap)
    (jaccardToDist : JaccardToDist) :
  map_Forall (fun _ s => 0 < barcodesUnion s) distSamples ->
  StronglySorted key_lt jaccardToDist ->
  let index := buildJaccardToDist distSamples jaccardToDist in
  StronglySorted key_lt index /\
  (forall e, e ∈ jaccardToDist -> e ∈ index) /\
  (forall k s, (k, s) ∈ index ->
     (k, s) ∈ jaccardToDist \/
     k = sample_jaccard s /\ exists c, distSamples !! c = Some s) /\
  (length jaccardToDist <= length index
   <= length jaccardToDist + size distSamples)%nat /\
  (forall i c s, entries distSamples !! i = Some (c, s) ->
     key_in (sample_jaccard s) (keys jaccardToDist) = false ->
     key_in (sample_jaccard s) (take i (sample_keys distSamples)) = false ->
     (sample_jaccard s, s) ∈ index).
Proof.
  intros _ Hsorted0 index. subst index. unfold buildJaccardToDist, for_each.
  destruct (index_from (entries distSamples) jaccardToDist Hsorted0)
    as (Hsorted & Hkeep & Hkeys & Hin & Hlen & Hfirst).
  split; [exact Hsorted|]. split; [exact Hkeep|]. split; [|split].
  - intros k s Hks. destruct (Hin _ Hks) as [H0|(c & Hc & Hk)]; [by left|].
    right. simpl in *. split; [done|]. exists c. by apply elem_of_entries.
  - by rewrite <- length_entries.
  - intros i c s Hi H0 H1.
    apply (Hfirst (take i (entries distSamples)) c s
             (drop (S i) (entries distSamples))); [|done|].
    + by rewrite <- (take_drop_middle _ _ _ Hi) at 1.
    + unfold sample_keys in H1. by rewrite <- fmap_take in H1.
Qed.

Lemma entries_empty `{IterationOrder K} {A} : entries (∅ : gmap K A) = [].
Proof. apply Permutation_nil. by rewrite entries_perm, map_to_list_empty. Qed.

(** The index built from an empty index is empty exactly when there is
    no sample. *)
Lemma buildJaccardToDist_nil (distSamples : DistSampleMap) :
  buildJaccardToDist distSamples [] = [] <-> distSamples = ∅.
Proof.
  unfold buildJaccardToDist, for_each. split.
  - intros Hnil. apply map_empty. intros c.
    destruct (distSamples !! c) as [s|] eqn:Hc; [|done].
    destruct (index_of_list (entries distSamples)) as (_ & Hkeys & _).
    specialize (Hkeys (sample_jaccard s)). rewrite Hnil in Hkeys.
    assert (key_in (sample_jaccard s)
              (map (fun e => sample_jaccard (e.2)) (entries distSamples))
            = true) as Hk; [|by rewrite Hk in Hkeys].
    apply key_in_true. exists (sample_jaccard s). split; [|reflexivity].
    apply (list_elem_of_fmap_2 (fun e => sample_jaccard (e.2)) _ (c, s)).
    by apply elem_of_entries.
  - intros ->. by rewrite entries_empty.
Qed.

(** X7: the calibration index built from the samples of
    [calcDistSamples] is sorted, is empty only when there is no sample,
    and each of its entries has a key between 0 and 1 and the distance
    of a contig at least twice the end length long: its length minus
    twice the end length. *)
Theorem calibration_index_wellformed (contigToLength : ContigToLength)
    (indexMultMap : gmap string Z) (params : ArcsParams) (imap : IndexMap)
    (distSamples : DistSampleMap) :
  0 <= end_length params <= INT_MAX ->
  map_Forall (fun _ l => is_unsigned l) contigToLength ->
  Z.of_nat (size imap) <= UINT_MAX ->
  calcDistSamples imap contigToLength indexMultMap params ∅ = Ok distSamples ->
  let index := buildJaccardToDist distSamples [] in
  StronglySorted key_lt index /\
  (index = [] <-> distSamples = ∅) /\
  (forall k s, (k, s) ∈ index ->
     (0 <= k <= 1)%Q /\ k = sample_jaccard s /\
     exists c l,
       distSamples !! c = Some s /\ contigToLength !! c = Some l /\
       2 * end_length params <= l /\
       distance s = l - 2 * end_length params /\ 0 <= distance s).
Proof.
  intros He Hlen Hsize Hrun index.
  split; [|split; [apply buildJaccardToDist_nil|]].
  { subst index. unfold buildJaccardToDist, for_each.
    by destruct (index_of_list (entries distSamples)) as (Hsorted & _). }
  intros k s Hks. subst index. unfold buildJaccardToDist, for_each in Hks.
  destruct (index_of_list (entries distSamples)) as (_ & _ & _ & Hin).
  destruct (Hin _ Hks) as (c & Hc & Hk). simpl in Hc, Hk.
  apply elem_of_entries in Hc.
  destruct (calcDistSamples_sample_ok _ _ _ _ Hsize _ Hrun _ _ Hc)
    as ((l & Hl & Hlong & Hd) & (HI & _) & HU).
  split; [|split; [done|]].
  - rewrite Hk. unfold sample_jaccard. apply ddiv_unit_interval; lia.
  - exists c, l. split; [done|]. split; [done|].
    pose proof (Hlen c l Hl) as Hu.
    rewrite (sample_distance_exact l params He Hu Hlong) in Hd.
    rewrite (sample_min_length_exact _ He) in Hlong. lia.
Qed.

(** X8: when every contig is shorter than twice the end length,
    [calcDistSamples] stores no sample, the index built from its result
    is empty, and [estimateDistance] returns no estimate, whatever the
    pair record is. *)
Theorem no_training_data (contigToLength : ContigToLength)
    (indexMultMap : gmap string Z) (params : ArcsParams) (imap : IndexMap)
    (distSamples : DistSampleMap) :
  0 <= end_length params <= INT_MAX ->
  map_Forall (fun _ l => l < 2 * end_length params) contigToLength ->
  calcDistSamples imap contigToLength indexMultMap params ∅ = Ok distSamples ->
  distSamples = ∅ /\
  buildJaccardToDist distSamples [] = [] /\
  forall (M : MapUtil) (S : StatUtil) (rec : PairRecord),
    estimateDistance rec (buildJaccardToDist distSamples []) params
    = Ok (DistanceEstimate_default, false).
Proof.
  intros He Hshort Hrun.
  assert (Hds : distSamples = ∅).
  { apply map_empty. intros c.
    destruct (calcDistSamples_frame contigToLength indexMultMap params ∅ c
                imap distSamples Hrun) as (_ & _ & Hl).
    rewrite Hl; [apply lookup_empty|].
    destruct (contigToLength !! c) as [l|] eqn:Hc; [|done].
    rewrite (sample_min_length_exact _ He). by apply (Hshort c l). }
  assert (Hidx : buildJaccardToDist distSamples [] = [])
    by (by apply buildJaccardToDist_nil).
  split; [done|]. split; [done|].
  intros M S rec. by rewrite Hidx.
Qed.

(** X9: a record whose intersection exceeds its union makes
    [estimateDistance] fail its assertion on the Jaccard score, whatever
    the index holds and the helpers do.  The counters are values of an
    [unsigned]: the quotient is then a [double] above 1. *)
Theorem estimateDistance_asserts_score (M : MapUtil) (S : StatUtil)
    (rec : PairRecord) (jaccardToDist : JaccardToDist) (params : ArcsParams) :
  jaccardToDist <> [] ->
  0 < ARCS.barcodesUnion rec < ARCS.barcodesIntersect rec ->
  ARCS.barcodesIntersect rec <= UINT_MAX ->
  estimateDistance rec jaccardToDist params = Raise assertion_failed.
Proof.
  intros Hne [HU HI] Hmax. unfold estimateDistance.
  destruct jaccardToDist as [|e m]; [done|].
  assert ((ARCS.barcodesUnion rec =? 0) = false) as -> by (apply Z.eqb_neq; lia).
  assert (Qleb (ddiv (ARCS.barcodesIntersect rec) (ARCS.barcodesUnion rec)) 1
          = false) as ->; [|by rewrite andb_false_r].
  unfold Qleb. destruct (Qle_bool _ 1) eqn:Hle; [|done].
  apply Qle_bool_iff in Hle.
  pose proof (ddiv_above_one (ARCS.barcodesIntersect rec)
                (ARCS.barcodesUnion rec) (conj HU HI) Hmax) as Habove.
  lra.
Qed.

(** *** A negative end length *)

(** X19: with a negative end length the length bound of both
    eligibility tests wraps around: for [-2^30 <= end_length < 0] the
    bound is [2^32 + 2 * end_length], so that a mapping is accepted only
    on a contig of at least that length. *)
Theorem negative_end_length_bound (l pairs : Z) (params : ArcsParams) :
  - 2 ^ 30 <= end_length params < 0 ->
  valid_min_length params = 2 ^ 32 + 2 * end_length params /\
  sample_min_length params = 2 ^ 32 + 2 * end_length params /\
  (validBarcodeMapping l pairs params = true <->
   min_reads params <= pairs /\ 2 ^ 32 + 2 * end_length params <= l) /\
  (sample_eligible l pairs params = true <->
   min_reads params <= pairs /\ 2 ^ 32 + 2 * end_length params <= l).
Proof.
  intros He.
  assert (Hv : valid_min_length params = 2 ^ 32 + 2 * end_length params).
  { unfold valid_min_length. rewrite to_unsigned_to_int. unfold to_unsigned.
    rewrite <- (Z_mod_plus_full (2 * end_length params) 1 (2 ^ 32)).
    rewrite Z.mod_small by lia. lia. }
  assert (Hs : sample_min_length params = 2 ^ 32 + 2 * end_length params)
    by (by rewrite min_length_agree).
  split; [exact Hv|]. split; [exact Hs|].
  unfold validBarcodeMapping, sample_eligible. rewrite Hv, Hs.
  destruct (Z.ltb_spec pairs (min_reads params));
    destruct (Z.ltb_spec l (2 ^ 32 + 2 * end_length params));
    repeat split; (done || lia).
Qed.

(** ** What [calcContigPairBarcodeStats] computes *)

Lemma barcode_count_ext (indexMultMap : gmap string Z) (params : ArcsParams)
    (p q : ScafMap -> bool) (imap : IndexMap) :
  (forall m, p m = q m) ->
  barcode_count indexMultMap params p imap
  = barcode_count indexMultMap params q imap.
Proof.
  intros Hpq. unfold barcode_count. f_equal. f_equal.
  apply map_filter_ext. intros index m _. simpl. by rewrite Hpq.
Qed.

Lemma barcode_count_mono (indexMultMap : gmap string Z) (params : ArcsParams)
    (p q : ScafMap -> bool) (imap : IndexMap) :
  (forall m, p m = true -> q m = true) ->
  barcode_count indexMultMap params p imap
  <= barcode_count indexMultMap params q imap.
Proof.
  intros Hpq. induction imap as [|index m imap Hfresh IH] using map_ind.
  - by rewrite !barcode_count_empty.
  - rewrite !barcode_count_insert by done.
    destruct (in_mult_range indexMultMap params index); simpl; [|lia].
    destruct (p m) eqn:Hp; [rewrite (Hpq m Hp); lia|].
    destruct (q m); simpl; lia.
Qed.

(** The barcodes at one of two places: those at the first, plus those
    at the second, minus those at both. *)
Lemma barcode_count_either (indexMultMap : gmap string Z) (params : ArcsParams)
    (p q : ScafMap -> bool) (imap : IndexMap) :
  barcode_count indexMultMap params (fun m => p m || q m) imap
  = barcode_count indexMultMap params p imap
    + barcode_count indexMultMap params q imap
    - barcode_count indexMultMap params (fun m => p m && q m) imap.
Proof.
  induction imap as [|index m imap Hfresh IH] using map_ind.
  - by rewrite !barcode_count_empty.
  - rewrite !barcode_count_insert by done. rewrite IH.
    destruct (in_mult_range indexMultMap params index), (p m), (q m);
      simpl; lia.
Qed.

Lemma contig_seen_insert (contigToLength : ContigToLength)
    (params : ArcsParams) (m : ScafMap) (id : string) (head : bool)
    (pairs : Z) (c : string) :
  m !! (id, head) = None ->
  contig_seen contigToLength params (<[(id, head) := pairs]> m) c
  = contig_seen contigToLength params m c
    || (bool_decide (c = id)
        && match contigToLength !! id with
           | Some l => validBarcodeMapping l pairs params
           | None => false
           end).
Proof.
  intros Hfresh. unfold contig_seen. rewrite !valid_end_insert. simpl fst.
  pose proof (valid_end_None contigToLength params _ _ Hfresh) as Hv.
  destruct (decide (c = id)) as [->|Hne].
  - rewrite bool_decide_eq_true_2 by done.
    destruct head; repeat case_decide; simplify_eq; rewrite ?Hv;
      destruct (contigToLength !! id) as [l|];
      try destruct (validBarcodeMapping l pairs params);
      simpl; rewrite ?orb_true_r, ?orb_false_r; done.
  - rewrite bool_decide_eq_false_2 by done.
    repeat case_decide; simplify_eq. by rewrite orb_false_r.
Qed.

Lemma contig_seen_empty (contigToLength : ContigToLength)
    (params : ArcsParams) (c : string) :
  contig_seen contigToLength params ∅ c = false.
Proof.
  unfold contig_seen. by rewrite !valid_end_None by apply lookup_empty.
Qed.

(** The pairs stored by the innermost loop. *)
Lemma pair_end2_domain (contigToLength : ContigToLength)
    (params : ArcsParams) (id1 : string) (head1 : bool) (pmap : PairMap)
    (m2 : ScafMap) :
  forall pmap',
    for_each (fun key2 pairs2 acc =>
                acc ≫= pair_end2 contigToLength params id1 head1 key2 pairs2)
             (Ok pmap) m2 = Ok pmap' ->
    forall pair : ContigPair,
      is_Some (pmap' !! pair) <->
      is_Some (pmap !! pair) \/
      (pair.1 = id1 /\ String.ltb (pair.2) id1 = false /\
       contig_seen contigToLength params m2 (pair.2) = true).
Proof.
  revert m2.
  apply (for_each_ind (fun r (m2 : ScafMap) => forall pmap', r = Ok pmap' ->
    forall pair : ContigPair,
      is_Some (pmap' !! pair) <->
      is_Some (pmap !! pair) \/
      (pair.1 = id1 /\ String.ltb (pair.2) id1 = false /\
       contig_seen contigToLength params m2 (pair.2) = true))).
  { intros pmap' [= <-] pair. rewrite contig_seen_empty.
    split; [by left|]. by intros [?|(_ & _ & ?)]. }
  intros [id2 head2] pairs2 m2 r Hfresh IH pmap2 Hstep pair.
  apply result_bind_Ok in Hstep as (pmap1 & -> & Hstep).
  specialize (IH pmap1 eq_refl pair).
  unfold pair_end2, at_key in Hstep.
  rewrite contig_seen_insert by done.
  destruct (contigToLength !! id2) as [length2|] eqn:Hl2; [simpl in Hstep|done].
  destruct (validBarcodeMapping length2 pairs2 params) eqn:Hvalid;
    simpl in Hstep.
  2:{ injection Hstep as <-. by rewrite andb_false_r, orb_false_r. }
  rewrite andb_true_r.
  destruct (String.ltb id2 id1) eqn:Hlt.
  { injection Hstep as <-. rewrite IH.
    destruct (decide (pair.2 = id2)) as [Heq|Hne].
    - rewrite Heq, Hlt. split; (intros [?|(? & ? & ?)]; [by left|done]).
    - by rewrite (bool_decide_eq_false_2 _ Hne), orb_false_r. }
  injection Hstep as <-.
  assert (Hdom : forall p : ContigPair,
    is_Some (alter (bump (orientation head1 head2)) (id1, id2)
               match pmap1 !! (id1, id2) with
               | None => <[(id1, id2) := fill PairRecord_default]> pmap1
               | Some _ => pmap1
               end !! p)
    <-> is_Some (pmap1 !! p) \/ p = (id1, id2)).
  { intros p. destruct (decide (p = (id1, id2))) as [->|Hp].
    - rewrite lookup_alter_eq.
      destruct (pmap1 !! (id1, id2)) as [recs|] eqn:H1.
      + rewrite H1. simpl. split; [by left|eauto].
      + rewrite lookup_insert_eq. simpl. split; [by right|eauto].
    - rewrite lookup_alter_ne by done.
      destruct (pmap1 !! (id1, id2)) as [recs|] eqn:H1.
      + split; [tauto|]. by intros [?|?].
      + rewrite lookup_insert_ne by done. split; [tauto|]. by intros [?|?]. }
  rewrite Hdom, IH. destruct pair as [p1 p2]. simpl.
  destruct (decide (p2 = id2)) as [->|Hne].
  - rewrite bool_decide_eq_true_2 by done. rewrite orb_true_r.
    split.
    + intros [[?|(? & ? & ?)]|[= ->]]; [by left|by right|by right].
    + intros [?|(-> & _ & _)]; [by left; left|by right].
  - rewrite (bool_decide_eq_false_2 _ Hne), orb_false_r.
    split; [|tauto]. intros [?|[= _ ?]]; [done|done].
Qed.

(** The pairs stored by the loop over the first end. *)
Lemma pair_barcode_domain (contigToLength : ContigToLength)
    (params : ArcsParams) (M : ScafMap) (counts : gmap CI Z) (pmap : PairMap)
    (m1 : ScafMap) :
  forall counts' pmap',
    for_each (fun key1 pairs1 acc =>
                acc ≫= pair_end1 contigToLength params M key1 pairs1)
             (Ok (counts, pmap)) m1 = Ok (counts', pmap') ->
    forall pair : ContigPair,
      is_Some (pmap' !! pair) <->
      is_Some (pmap !! pair) \/
      (String.ltb (pair.2) (pair.1) = false /\
       contig_seen contigToLength params m1 (pair.1) = true /\
       contig_seen contigToLength params M (pair.2) = true).
Proof.
  revert m1.
  apply (for_each_ind (fun r (m1 : ScafMap) =>
    forall counts' pmap', r = Ok (counts', pmap') ->
    forall pair : ContigPair,
      is_Some (pmap' !! pair) <->
      is_Some (pmap !! pair) \/
      (String.ltb (pair.2) (pair.1) = false /\
       contig_seen contigToLength params m1 (pair.1) = true /\
       contig_seen contigToLength params M (pair.2) = true))).
  { intros counts' pmap' [= <- <-] pair. rewrite contig_seen_empty.
    split; [by left|]. by intros [?|(_ & ? & _)]. }
  intros [id1 head1] pairs1 m1 r Hfresh IH counts2 pmap2 Hstep pair.
  apply result_bind_Ok in Hstep as ([counts1 pmap1] & -> & Hstep).
  specialize (IH counts1 pmap1 eq_refl pair).
  unfold pair_end1, at_key in Hstep.
  rewrite contig_seen_insert by done.
  destruct (contigToLength !! id1) as [length1|] eqn:Hl1; [simpl in Hstep|done].
  destruct (validBarcodeMapping length1 pairs1 params) eqn:Hvalid;
    simpl in Hstep.
  2:{ injection Hstep as <- <-. by rewrite andb_false_r, orb_false_r. }
  rewrite andb_true_r.
  apply result_bind_Ok in Hstep as (pmap1' & Hinner & [= <- <-]).
  rewrite (pair_end2_domain _ _ _ _ _ _ _ Hinner pair), IH.
  destruct (decide (pair.1 = id1)) as [Heq|Hne].
  - rewrite bool_decide_eq_true_2 by done. rewrite orb_true_r.
    rewrite Heq. tauto.
  - rewrite (bool_decide_eq_false_2 _ Hne), orb_false_r. tauto.
Qed.

(** The state after the first pass, started from an empty pair map:
    the side table holds the ends with a valid mapping and how many
    barcodes map to each, a variant holds the number of barcodes that map
    to both its ends, and a pair is stored when some barcode maps to an
    end of each of its contigs, first contig first. *)
Lemma pair_scan_counts (imap : IndexMap) (indexMultMap : gmap string Z)
    (contigToLength : ContigToLength) (params : ArcsParams) :
  Z.of_nat (size imap) <= UINT_MAX ->
  forall counts pmap,
    pair_scan imap indexMultMap contigToLength params ∅ = Ok (counts, pmap) ->
    (forall e,
       counts !! e =
       if 0 <? valid_count imap contigToLength indexMultMap params e
       then Some (valid_count imap contigToLength indexMultMap params e)
       else None) /\
    (forall pair o,
       intersect_of pmap pair o =
       if String.ltb (pair.2) (pair.1) then 0
       else shared_count imap contigToLength indexMultMap params pair o) /\
    (forall pair : ContigPair,
       is_Some (pmap !! pair) <->
       String.ltb (pair.2) (pair.1) = false /\
       0 < pair_count imap contigToLength indexMultMap params pair).
Proof.
  unfold pair_scan, valid_count, shared_count, pair_count. revert imap.
  apply (for_each_ind (fun r (im : IndexMap) =>
    Z.of_nat (size im) <= UINT_MAX -> forall counts pmap,
    r = Ok (counts, pmap) ->
    (forall e,
       counts !! e =
       if 0 <? barcode_count indexMultMap params
                 (fun m => valid_end contigToLength params m e) im
       then Some (barcode_count indexMultMap params
                    (fun m => valid_end contigToLength params m e) im)
       else None) /\
    (forall pair o,
       intersect_of pmap pair o =
       if String.ltb (pair.2) (pair.1) then 0
       else barcode_count indexMultMap params
              (fun m => valid_end contigToLength params m (first_end pair o)
                        && valid_end contigToLength params m (second_end pair o))
              im) /\
    (forall pair : ContigPair,
       is_Some (pmap !! pair) <->
       String.ltb (pair.2) (pair.1) = false /\
       0 < barcode_count indexMultMap params
             (fun m => contig_seen contigToLength params m (pair.1)
                       && contig_seen contigToLength params m (pair.2)) im))).
  { intros _ counts pmap [= <- <-]. split; [|split].
    - intros e. by rewrite barcode_count_empty, lookup_empty.
    - intros pair o. rewrite barcode_count_empty. unfold intersect_of.
      rewrite lookup_empty. simpl.
      by destruct o, (String.ltb (pair.2) (pair.1)).
    - intros pair. rewrite barcode_count_empty, lookup_empty.
      split; [by intros [? ?]|]. intros [_ ?]. lia. }
  intros index m im r Hfresh IH Hsize counts' pmap' Hstep.
  rewrite map_size_insert_None in Hsize by done.
  apply result_bind_Ok in Hstep as ([counts pmap] & -> & Hstep).
  assert (Hsize0 : Z.of_nat (size im) <= UINT_MAX) by lia.
  destruct (IH Hsize0 counts pmap eq_refl) as (IHc & IHi & IHd). clear IH.
  apply pair_index_Ok in Hstep as (k & Hk & Hstep).
  assert (Hins : forall p,
    barcode_count indexMultMap params p (<[index := m]> im)
    = barcode_count indexMultMap params p im
      + Z.b2z (mult_in_range k params && p m)).
  { intros p. rewrite barcode_count_insert by done.
    by rewrite (in_mult_range_Some _ _ _ _ Hk). }
  destruct (mult_in_range k params).
  2:{ injection Hstep as -> ->. split; [|split].
      - intros e. rewrite Hins. simpl. rewrite Z.add_0_r. apply IHc.
      - intros pair o. rewrite Hins. simpl. rewrite Z.add_0_r. apply IHi.
      - intros pair. rewrite Hins. simpl. rewrite Z.add_0_r. apply IHd. }
  simpl in Hins.
  destruct (pair_barcode_effect _ _ _ _ _ _ _ Hstep) as [Hc Hi].
  pose proof (pair_barcode_domain _ _ _ _ _ _ _ _ Hstep) as Hd.
  split; [|split].
  - intros e. rewrite Hins, Hc.
    pose proof (barcode_count_range indexMultMap params
                  (fun m => valid_end contigToLength params m e) im) as Hr.
    assert (Hcount : count_of counts e
                     = barcode_count indexMultMap params
                         (fun m => valid_end contigToLength params m e) im).
    { unfold count_of. rewrite IHc.
      destruct (Z.ltb_spec 0 (barcode_count indexMultMap params
                  (fun m => valid_end contigToLength params m e) im));
        simpl; lia. }
    destruct (valid_end contigToLength params m e); simpl.
    + rewrite Hcount, szincr_small by (unfold UINT_MAX in *; lia).
      assert ((0 <? barcode_count indexMultMap params
                 (fun m => valid_end contigToLength params m e) im + 1) = true)
        as -> by (apply Z.ltb_lt; lia).
      done.
    + rewrite Z.add_0_r. apply IHc.
  - intros pair o. rewrite Hins, Hi, IHi.
    pose proof (barcode_count_range indexMultMap params
      (fun m => valid_end contigToLength params m (first_end pair o)
                && valid_end contigToLength params m (second_end pair o)) im)
      as Hr.
    destruct (String.ltb (pair.2) (pair.1)).
    + by rewrite andb_false_r.
    + rewrite andb_true_r.
      destruct (valid_end contigToLength params m (first_end pair o)
                && valid_end contigToLength params m (second_end pair o));
        simpl; [|lia].
      apply uincr_small. lia.
  - intros pair. rewrite Hins, Hd, IHd.
    pose proof (barcode_count_range indexMultMap params
      (fun m => contig_seen contigToLength params m (pair.1)
                && contig_seen contigToLength params m (pair.2)) im) as Hr.
    destruct (contig_seen contigToLength params m (pair.1)),
      (contig_seen contigToLength params m (pair.2)); simpl;
      split; try (intros [[? ?]|(? & ? & ?)]); try (intros [? ?]);
      try done; try (split; [done|lia]); try (left; split; [done|lia]).
    right. done.
Qed.

(** *** When the first pass returns *)

Lemma pair_end2_Ok_iff (contigToLength : ContigToLength) (params : ArcsParams)
    (id1 : string) (head1 : bool) (key2 : CI) (pairs2 : Z) (pmap : PairMap) :
  (exists pmap', pair_end2 contigToLength params id1 head1 key2 pairs2 pmap
                 = Ok pmap') <->
  is_Some (contigToLength !! (key2.1)).
Proof.
  destruct key2 as [id2 head2]. unfold pair_end2, at_key. simpl.
  destruct (contigToLength !! id2) as [l|]; simpl.
  - split; [eauto|]. intros _.
    destruct (negb (validBarcodeMapping l pairs2 params)); [eauto|].
    destruct (String.ltb id2 id1); eauto.
  - split; [by intros [? ?]|by intros [? ?]].
Qed.

Lemma pair_end1_Ok_iff (contigToLength : ContigToLength) (params : ArcsParams)
    (M : ScafMap) (key1 : CI) (pairs1 : Z) (st : gmap CI Z * PairMap) :
  (exists st', pair_end1 contigToLength params M key1 pairs1 st = Ok st') <->
  exists l, contigToLength !! (key1.1) = Some l /\
    (validBarcodeMapping l pairs1 params = true ->
     forall key2 pairs2, M !! key2 = Some pairs2 ->
       is_Some (contigToLength !! (key2.1))).
Proof.
  destruct key1 as [id1 head1]. unfold pair_end1, at_key. simpl.
  destruct (contigToLength !! id1) as [l|]; simpl.
  2:{ split; [by intros [? ?]|by intros (? & ? & _)]. }
  destruct (validBarcodeMapping l pairs1 params) eqn:Hvalid; simpl.
  2:{ split; [|eauto]. intros _. exists l. split; [done|]. intros ?; congruence. }
  pose proof (for_each_Ok_iff
    (fun (key2 : CI) (_ : Z) => is_Some (contigToLength !! (key2.1)))
    (pair_end2 contigToLength params id1 head1) (st.2)
    (fun key2 pairs2 pm =>
       pair_end2_Ok_iff contigToLength params id1 head1 key2 pairs2 pm) M)
    as Hinner.
  split.
  - intros (st' & (pm & Hpm & _)%result_bind_Ok).
    exists l. split; [done|]. intros _. apply Hinner. eauto.
  - intros (l' & [= <-] & Hall).
    destruct (proj2 Hinner (Hall Hvalid)) as [pm ->]. simpl. eauto.
Qed.

Lemma pair_barcode_Ok_iff (contigToLength : ContigToLength)
    (params : ArcsParams) (m : ScafMap) (st : gmap CI Z * PairMap) :
  (exists st', pair_barcode contigToLength params m st = Ok st') <->
  (forall c e n, m !! (c, e) = Some n -> is_Some (contigToLength !! c)).
Proof.
  unfold pair_barcode.
  rewrite (for_each_Ok_iff
    (fun (key1 : CI) pairs1 =>
       exists l, contigToLength !! (key1.1) = Some l /\
         (validBarcodeMapping l pairs1 params = true ->
          forall key2 pairs2, m !! key2 = Some pairs2 ->
            is_Some (contigToLength !! (key2.1))))).
  - split.
    + intros Hall c e n Hc. destruct (Hall (c, e) n Hc) as (l & Hl & _).
      simpl in Hl. eauto.
    + intros Hall [c e] n Hc. destruct (Hall c e n Hc) as [l Hl].
      exists l. split; [done|]. intros _ [c2 e2] n2 H2. by apply (Hall c2 e2 n2).
  - intros key1 pairs1 st1. apply pair_end1_Ok_iff.
Qed.

Lemma pair_scan_Ok_iff (imap : IndexMap) (indexMultMap : gmap string Z)
    (contigToLength : ContigToLength) (params : ArcsParams) (pmap : PairMap) :
  (exists st, pair_scan imap indexMultMap contigToLength params pmap = Ok st)
  <-> pair_lookups_hit imap contigToLength indexMultMap params.
Proof.
  unfold pair_scan, pair_lookups_hit.
  apply for_each_Ok_iff.
  intros index m st. unfold pair_index, at_key.
  destruct (indexMultMap !! index) as [k|]; simpl.
  - destruct (mult_in_range k params) eqn:Hr.
    + rewrite pair_barcode_Ok_iff. split.
      * intros Hall. exists k. split; [done|]. by intros _.
      * intros (k' & [= <-] & Hall). by apply Hall.
    + split; [|eauto]. intros _. exists k. split; [done|].
      intros ?; congruence.
  - split; [by intros [? ?]|]. by intros (k & ? & _).
Qed.

(** *** When the second pass returns *)

(** After the first pass a record whose two ends are in the side table
    is completed: the three assertions hold. *)
Lemma complete_record_total (n : Z) (counts : gmap CI Z) (pmap : PairMap)
    (pair : ContigPair) (recs : PairRecords) (i : PairOrientation)
    (c1 c2 : Z) :
  0 <= n <= INT_MAX ->
  scan_ok n counts pmap ->
  pmap !! pair = Some recs ->
  counts !! first_end pair i = Some c1 ->
  counts !! second_end pair i = Some c2 ->
  complete_record counts (pair.1) (pair.2) i (get_rec i recs)
  = Ok {| ARCS.barcodesIntersect := ARCS.barcodesIntersect (get_rec i recs);
          barcodes1 := c1;
          barcodes2 := c2;
          ARCS.barcodesUnion :=
            c1 + c2 - ARCS.barcodesIntersect (get_rec i recs) |}.
Proof.
  intros Hn [Hcounts Hshared] Hpair Hc1 Hc2. unfold complete_record, at_key.
  destruct (Hshared pair i) as (HI0 & HI1 & HI2).
  unfold intersect_of in HI0, HI1, HI2. rewrite Hpair in HI0, HI1, HI2.
  simpl in HI0, HI1, HI2. unfold count_of in HI1, HI2.
  rewrite Hc1 in HI1. rewrite Hc2 in HI2. simpl in HI1, HI2.
  unfold first_end in Hc1. unfold second_end in Hc2.
  rewrite Hc1, Hc2. simpl.
  pose proof (Hcounts _ _ Hc1) as Hr1. pose proof (Hcounts _ _ Hc2) as Hr2.
  unfold INT_MAX in Hn.
  rewrite (to_unsigned_id c1) by (unfold UINT_MAX; lia).
  rewrite (to_unsigned_id c2) by (unfold UINT_MAX; lia).
  rewrite (to_unsigned_id (c1 + c2)) by (unfold UINT_MAX; lia).
  rewrite to_unsigned_id by (unfold UINT_MAX; lia).
  assert ((0 <? c1) = true) as -> by (apply Z.ltb_lt; lia).
  assert ((0 <? c2) = true) as -> by (apply Z.ltb_lt; lia).
  assert ((ARCS.barcodesIntersect (get_rec i recs) <=? c1 + c2) = true)
    as -> by (apply Z.leb_le; lia).
  done.
Qed.

Lemma complete_records_total (counts : gmap CI Z) (pair : ContigPair)
    (recs : PairRecords) :
  (forall i, exists rec,
     complete_record counts (pair.1) (pair.2) i (get_rec i recs) = Ok rec) ->
  exists recs', complete_records counts pair recs = Ok recs'.
Proof.
  intros Hall. unfold complete_records, foldl.
  destruct (Hall HH) as [r0 H0]. destruct (Hall HT) as [r1 H1].
  destruct (Hall TH) as [r2 H2]. destruct (Hall TT) as [r3 H3].
  simpl in *. rewrite H0. simpl. rewrite H1. simpl. rewrite H2. simpl.
  rewrite H3. simpl. eauto.
Qed.

Lemma pair_complete_Ok_iff (counts : gmap CI Z) (pmap : PairMap) :
  (exists pmap', pair_complete counts pmap = Ok pmap') <->
  (forall pair recs, pmap !! pair = Some recs ->
     exists recs', complete_records counts pair recs = Ok recs').
Proof.
  unfold pair_complete.
  apply (for_each_Ok_iff
    (fun pair recs => exists recs', complete_records counts pair recs = Ok recs')
    (fun pair recs pm =>
       recs' ← complete_records counts pair recs; Ok (<[pair := recs']> pm))).
  intros pair recs pm. split.
  - intros (pm' & (recs' & Hc & _)%result_bind_Ok). eauto.
  - intros [recs' ->]. simpl. eauto.
Qed.

(** *** The map that [calcContigPairBarcodeStats] returns *)

Lemma ltb_false_leb (a b : string) :
  String.ltb b a = false <-> String.leb a b = true.
Proof.
  unfold String.ltb, String.leb. rewrite (String.compare_antisym a b).
  by destruct (String.compare b a).
Qed.

Lemma ltb_irrefl (c : string) : String.ltb c c = false.
Proof.
  unfold String.ltb. pose proof (String.compare_antisym c c) as H.
  destruct (String.compare c c); simpl in H; done.
Qed.

Lemma PairRecords_eq (recs recs' : PairRecords) :
  (forall i, get_rec i recs = get_rec i recs') -> recs = recs'.
Proof.
  intros H. destruct recs, recs'.
  pose proof (H HH). pose proof (H HT). pose proof (H TH). pose proof (H TT).
  simpl in *. congruence.
Qed.

(** The returned map, entry by entry. *)
Lemma calcContigPairBarcodeStats_lookup (imap : IndexMap)
    (indexMultMap : gmap string Z) (contigToLength : ContigToLength)
    (params : ArcsParams) (pmap : PairMap) :
  Z.of_nat (size imap) <= INT_MAX ->
  calcContigPairBarcodeStats imap indexMultMap contigToLength params ∅
    = Ok pmap ->
  forall pair,
    pmap !! pair = counted_pair imap contigToLength indexMultMap params pair.
Proof.
  intros Hsize Hrun pair.
  unfold calcContigPairBarcodeStats in Hrun.
  apply result_bind_Ok in Hrun as ([counts pmap0] & Hscan & Hcomplete).
  simpl in Hcomplete.
  assert (Hn : Z.of_nat (size imap) <= UINT_MAX)
    by (unfold INT_MAX, UINT_MAX in *; lia).
  destruct (pair_scan_counts _ _ _ _ Hn _ _ Hscan) as (Hc & Hi & Hd).
  pose proof (pair_scan_ok _ _ _ _ Hn _ _ Hscan) as Hok.
  pose proof (pair_complete_progress counts pmap0 pmap0 (reflexivity _)
                pmap Hcomplete pair) as Hgen.
  unfold counted_pair.
  destruct (pmap0 !! pair) as [recs|] eqn:Hpair.
  - destruct Hgen as (recs' & Hrecs & ->).
    destruct (proj1 (Hd pair)) as [Hlt Hpos]; [by rewrite Hpair|].
    rewrite Hlt. simpl.
    assert ((0 <? pair_count imap contigToLength indexMultMap params pair)
            = true) as -> by (by apply Z.ltb_lt).
    f_equal. apply PairRecords_eq. intros i.
    pose proof (complete_records_Ok _ _ _ _ Hrecs i) as Hrec.
    destruct (complete_record_Ok _ _ _ _ _ _ Hrec)
      as (c1 & c2 & Hc1 & Hc2 & _).
    rewrite (complete_record_total (Z.of_nat (size imap)) counts pmap0 pair
               recs i c1 c2) in Hrec; [|lia|done|done|done|done].
    injection Hrec as <-.
    assert (H1 : c1 = valid_count imap contigToLength indexMultMap params
                        (first_end pair i)).
    { unfold first_end. rewrite Hc in Hc1.
      destruct (0 <? _); congruence. }
    assert (H2 : c2 = valid_count imap contigToLength indexMultMap params
                        (second_end pair i)).
    { unfold second_end. rewrite Hc in Hc2.
      destruct (0 <? _); congruence. }
    assert (HI : ARCS.barcodesIntersect (get_rec i recs)
                 = shared_count imap contigToLength indexMultMap params pair i).
    { specialize (Hi pair i). unfold intersect_of in Hi.
      rewrite Hpair, Hlt in Hi. done. }
    rewrite HI, H1, H2.
    assert (get_rec i
              {| recHH := counted_record imap contigToLength indexMultMap
                            params pair HH;
                 recHT := counted_record imap contigToLength indexMultMap
                            params pair HT;
                 recTH := counted_record imap contigToLength indexMultMap
                            params pair TH;
                 recTT := counted_record imap contigToLength indexMultMap
                            params pair TT |}
            = counted_record imap contigToLength indexMultMap params pair i)
      as -> by (by destruct i).
    unfold counted_record. f_equal.
    unfold either_count, valid_count, shared_count.
    by rewrite barcode_count_either.
  - rewrite Hgen.
    destruct (String.ltb (pair.2) (pair.1)) eqn:Hlt; [done|]. simpl.
    destruct (Z.ltb_spec 0 (pair_count imap contigToLength indexMultMap params
                              pair)) as [Hpos|]; [|done].
    destruct (proj2 (Hd pair)) as [? ?]; [done|congruence].
Qed.

(** X10: in every record of the map returned by
    [calcContigPairBarcodeStats] the counters are numbers of barcodes
    within the multiplicity range: those with a valid mapping to the
    first end, to the second end, to both ends and to one at least. *)
Theorem pair_record_counts_barcodes (imap : IndexMap)
    (indexMultMap : gmap string Z) (contigToLength : ContigToLength)
    (params : ArcsParams) (pmap : PairMap) (pair : ContigPair)
    (recs : PairRecords) (o : PairOrientation) :
  Z.of_nat (size imap) <= INT_MAX ->
  calcContigPairBarcodeStats imap indexMultMap contigToLength params ∅
    = Ok pmap ->
  pmap !! pair = Some recs ->
  let rec := get_rec o recs in
  barcodes1 rec
    = valid_count imap contigToLength indexMultMap params (first_end pair o) /\
  barcodes2 rec
    = valid_count imap contigToLength indexMultMap params (second_end pair o) /\
  ARCS.barcodesIntersect rec
    = shared_count imap contigToLength indexMultMap params pair o /\
  ARCS.barcodesUnion rec
    = either_count imap contigToLength indexMultMap params pair o.
Proof.
  intros Hsize Hrun Hpair.
  rewrite (calcContigPairBarcodeStats_lookup _ _ _ _ _ Hsize Hrun pair) in Hpair.
  unfold counted_pair in Hpair. destruct (_ && _); [|done].
  injection Hpair as <-. by destruct o.
Qed.

(** X11: a pair is in the returned map exactly when its first contig is
    not after its second one and some barcode within the multiplicity
    range has a valid mapping to an end of each of them; so two distinct
    contigs are never stored in both orders. *)
Theorem pair_stored_iff (imap : IndexMap)
    (indexMultMap : gmap string Z) (contigToLength : ContigToLength)
    (params : ArcsParams) (pmap : PairMap) :
  Z.of_nat (size imap) <= INT_MAX ->
  calcContigPairBarcodeStats imap indexMultMap contigToLength params ∅
    = Ok pmap ->
  (forall pair : ContigPair,
     is_Some (pmap !! pair) <->
     String.leb (pair.1) (pair.2) = true /\
     exists index m,
       imap !! index = Some m /\
       in_mult_range indexMultMap params index = true /\
       contig_seen contigToLength params m (pair.1) = true /\
       contig_seen contigToLength params m (pair.2) = true) /\
  (forall a b, is_Some (pmap !! (a, b)) -> is_Some (pmap !! (b, a)) -> a = b).
Proof.
  intros Hsize Hrun.
  assert (Hiff : forall pair : ContigPair,
     is_Some (pmap !! pair) <->
     String.leb (pair.1) (pair.2) = true /\
     exists index m,
       imap !! index = Some m /\
       in_mult_range indexMultMap params index = true /\
       contig_seen contigToLength params m (pair.1) = true /\
       contig_seen contigToLength params m (pair.2) = true).
  { intros pair.
    rewrite (calcContigPairBarcodeStats_lookup _ _ _ _ _ Hsize Hrun pair).
    unfold counted_pair. rewrite <- ltb_false_leb.
    destruct (String.ltb (pair.2) (pair.1)); simpl.
    { split; [by intros [? ?]|by intros [? _]]. }
    destruct (Z.ltb_spec 0 (pair_count imap contigToLength indexMultMap params
                              pair)) as [Hpos|Hzero].
    - split; [|eauto]. intros _. split; [done|].
      apply barcode_count_pos in Hpos as (index & m & Hm & Hr & Hseen).
      apply andb_true_iff in Hseen as [? ?]. by exists index, m.
    - split; [by intros [? ?]|]. intros (_ & index & m & Hm & Hr & H1 & H2).
      assert (0 < pair_count imap contigToLength indexMultMap params pair);
        [|lia].
      apply barcode_count_pos. exists index, m. by rewrite H1, H2. }
  split; [exact Hiff|].
  intros a b [Hab _]%Hiff [Hba _]%Hiff. simpl in *.
  by apply String.leb_antisym.
Qed.

Lemma pair_count_ends (imap : IndexMap) (indexMultMap : gmap string Z)
    (contigToLength : ContigToLength) (params : ArcsParams)
    (pair : ContigPair) :
  0 < pair_count imap contigToLength indexMultMap params pair ->
  (exists h, 0 < valid_count imap contigToLength indexMultMap params
                   (pair.1, h)) /\
  (exists h, 0 < valid_count imap contigToLength indexMultMap params
                   (pair.2, h)).
Proof.
  intros (index & m & Hm & Hr & Hseen)%barcode_count_pos.
  apply andb_true_iff in Hseen as [H1 H2]. unfold contig_seen in H1, H2.
  apply orb_true_iff in H1, H2. split.
  - destruct H1 as [H1|H1]; [exists true|exists false];
      apply barcode_count_pos; by exists index, m.
  - destruct H2 as [H2|H2]; [exists true|exists false];
      apply barcode_count_pos; by exists index, m.
Qed.

(** [calcContigPairBarcodeStats] returns exactly when the lookups of its
    first pass hit and every contig with a valid mapping at one end has
    one at the other end. *)
Lemma calcContigPairBarcodeStats_Ok_iff (imap : IndexMap)
    (indexMultMap : gmap string Z) (contigToLength : ContigToLength)
    (params : ArcsParams) :
  Z.of_nat (size imap) <= INT_MAX ->
  (exists pmap,
     calcContigPairBarcodeStats imap indexMultMap contigToLength params ∅
     = Ok pmap) <->
  pair_lookups_hit imap contigToLength indexMultMap params /\
  (forall c,
     0 < valid_count imap contigToLength indexMultMap params (c, true) <->
     0 < valid_count imap contigToLength indexMultMap params (c, false)).
Proof.
  intros Hsize.
  assert (Hn : Z.of_nat (size imap) <= UINT_MAX)
    by (unfold INT_MAX, UINT_MAX in *; lia).
  unfold calcContigPairBarcodeStats. split.
  - intros (pmap & ([counts pmap0] & Hscan & Hcomplete)%result_bind_Ok).
    simpl in Hcomplete.
    split; [apply (pair_scan_Ok_iff imap indexMultMap contigToLength params ∅);
            eauto|].
    destruct (pair_scan_counts _ _ _ _ Hn _ _ Hscan) as (Hc & Hi & Hd).
    assert (Hends : forall c h,
      0 < valid_count imap contigToLength indexMultMap params (c, h) ->
      forall h',
        0 < valid_count imap contigToLength indexMultMap params (c, h')).
    { intros c h Hpos h'.
      destruct (proj2 (Hd (c, c))) as [recs Hrecs].
      { simpl. split; [apply ltb_irrefl|].
        eapply Z.lt_le_trans; [exact Hpos|].
        apply barcode_count_mono. intros m Hv. simpl. unfold contig_seen.
        destruct h; rewrite Hv; by rewrite ?orb_true_r. }
      destruct (pair_complete_all _ _ _ Hcomplete _ _ Hrecs) as [recs' Hall].
      pose proof (complete_records_Ok _ _ _ _ Hall
                    (if h' then HH else TT)) as Hrec.
      apply complete_record_Ok in Hrec as (c1 & _ & Hc1 & _).
      simpl in Hc1. rewrite Hc in Hc1.
      assert (first_is_head (if h' then HH else TT) = h') as Hh
        by (by destruct h').
      rewrite Hh in Hc1.
      destruct (Z.ltb_spec 0 (valid_count imap contigToLength indexMultMap
                                params (c, h'))); [done|discriminate]. }
    intros c. split; intros Hpos; by apply (Hends c _ Hpos).
  - intros [Hhit Hboth].
    destruct (proj2 (pair_scan_Ok_iff imap indexMultMap contigToLength params
                       ∅) Hhit) as [[counts pmap0] Hscan].
    rewrite Hscan. simpl.
    destruct (pair_scan_counts _ _ _ _ Hn _ _ Hscan) as (Hc & Hi & Hd).
    pose proof (pair_scan_ok _ _ _ _ Hn _ _ Hscan) as Hok.
    apply pair_complete_Ok_iff. intros pair recs Hpair.
    apply complete_records_total. intros i.
    destruct (proj1 (Hd pair)) as [_ Hpos]; [by rewrite Hpair|].
    destruct (pair_count_ends _ _ _ _ _ Hpos) as [[h1 H1] [h2 H2]].
    assert (Hall : forall c h h',
      0 < valid_count imap contigToLength indexMultMap params (c, h) ->
      is_Some (counts !! (c, h'))).
    { intros c h h' Hpos'. rewrite Hc.
      assert (0 < valid_count imap contigToLength indexMultMap params (c, h'))
        as Hpos''.
      { destruct h, h';
          [exact Hpos'|exact (proj1 (Hboth c) Hpos')
          |exact (proj2 (Hboth c) Hpos')|exact Hpos']. }
      apply Z.ltb_lt in Hpos''. rewrite Hpos''. eauto. }
    destruct (Hall _ _ (first_is_head i) H1) as [c1 Hc1].
    destruct (Hall _ _ (second_is_head i) H2) as [c2 Hc2].
    eexists.
    apply (complete_record_total (Z.of_nat (size imap)) counts pmap0 pair
             recs i c1 c2); [lia|done|done|done|done].
Qed.

(** X12: started from an empty pair map, [calcContigPairBarcodeStats]
    returns exactly when each barcode has a multiplicity, each contig to
    which a barcode within the multiplicity range maps has a length, and
    every contig with a valid mapping to one of its ends has one to its
    other end; in every other case it ends with [std::out_of_range]. *)
Theorem calcContigPairBarcodeStats_returns_iff (imap : IndexMap)
    (indexMultMap : gmap string Z) (contigToLength : ContigToLength)
    (params : ArcsParams) :
  Z.of_nat (size imap) <= INT_MAX ->
  let run :=
    calcContigPairBarcodeStats imap indexMultMap contigToLength params ∅ in
  let both_ends :=
    forall c,
      0 < valid_count imap contigToLength indexMultMap params (c, true) <->
      0 < valid_count imap contigToLength indexMultMap params (c, false) in
  ((exists pmap, run = Ok pmap) <->
   pair_lookups_hit imap contigToLength indexMultMap params /\ both_ends) /\
  (run = Raise out_of_range <->
   ~ (pair_lookups_hit imap contigToLength indexMultMap params /\ both_ends)).
Proof.
  intros Hsize run both_ends.
  pose proof (calcContigPairBarcodeStats_Ok_iff imap indexMultMap
                contigToLength params Hsize) as Hiff.
  fold run both_ends in Hiff.
  split; [exact Hiff|]. rewrite <- Hiff. split.
  - intros -> [pmap Hp]. done.
  - intros Hno. destruct run as [pmap|e] eqn:Hrun.
    + destruct Hno. eauto.
    + f_equal. by apply (calcContigPairBarcodeStats_Raise _ _ _ _ _ Hsize Hrun).
Qed.

(** On a contig that is long enough, a valid mapping is a mapping with
    at least [min_reads] read pairs. *)
Lemma valid_end_qualifies (contigToLength : ContigToLength)
    (params : ArcsParams) (m : ScafMap) (c : string) (h : bool) (l : Z) :
  contigToLength !! c = Some l -> sample_min_length params <= l ->
  valid_end contigToLength params m (c, h) = qualifies m c h params.
Proof.
  intros Hl Hlong. unfold valid_end, qualifies. simpl.
  destruct (m !! (c, h)) as [n|]; [|done]. rewrite Hl.
  unfold validBarcodeMapping. rewrite <- min_length_agree.
  destruct (Z.ltb_spec n (min_reads params)),
    (Z.ltb_spec l (sample_min_length params)),
    (Z.leb_spec (min_reads params) n); (done || lia).
Qed.

(** X13: the pair that a contig forms with itself carries the contig's
    sample: when both builders return, the head-tail variant of the pair
    has the head count, the tail count, the intersection and the union
    of the sample that [calcDistSamples] stores for the contig, and the
    head-head and tail-tail variants have the same number in all four
    counters. *)
Theorem self_pair_is_sample (imap : IndexMap) (indexMultMap : gmap string Z)
    (contigToLength : ContigToLength) (params : ArcsParams)
    (distSamples : DistSampleMap) (pmap : PairMap) (contigID : string)
    (s : DistSample) :
  Z.of_nat (size imap) <= INT_MAX ->
  calcDistSamples imap contigToLength indexMultMap params ∅ = Ok distSamples ->
  calcContigPairBarcodeStats imap indexMultMap contigToLength params ∅
    = Ok pmap ->
  distSamples !! contigID = Some s ->
  exists recs,
    pmap !! (contigID, contigID) = Some recs /\
    get_rec HT recs
    = {| ARCS.barcodesIntersect := barcodesIntersect s;
         barcodes1 := barcodesHead s;
         barcodes2 := barcodesTail s;
         ARCS.barcodesUnion := barcodesUnion s |} /\
    get_rec HH recs
    = {| ARCS.barcodesIntersect := barcodesHead s;
         barcodes1 := barcodesHead s;
         barcodes2 := barcodesHead s;
         ARCS.barcodesUnion := barcodesHead s |} /\
    get_rec TT recs
    = {| ARCS.barcodesIntersect := barcodesTail s;
         barcodes1 := barcodesTail s;
         barcodes2 := barcodesTail s;
         ARCS.barcodesUnion := barcodesTail s |}.
Proof.
  intros Hsize Hsamples Hpairs Hs.
  assert (Hn : Z.of_nat (size imap) <= UINT_MAX)
    by (unfold INT_MAX, UINT_MAX in *; lia).
  pose proof (calcDistSamples_lookup _ _ _ _ _ Hn Hsamples contigID) as Hlook.
  rewrite Hs in Hlook. unfold counted_sample in Hlook.
  destruct (contigToLength !! contigID) as [l|] eqn:Hl; [|done].
  destruct (Z.leb_spec (sample_min_length params) l) as [Hlong|]; [|done].
  destruct (Z.ltb_spec 0 (barcode_count indexMultMap params
              (fun m => qualifies m contigID true params
                        || qualifies m contigID false params) imap))
    as [Hpos|]; [|done].
  simpl in Hlook. injection Hlook as ->. simpl.
  pose proof (fun m h => valid_end_qualifies contigToLength params m contigID
                           h l Hl Hlong) as Hq.
  rewrite (calcContigPairBarcodeStats_lookup _ _ _ _ _ Hsize Hpairs).
  unfold counted_pair. simpl. rewrite ltb_irrefl. simpl.
  assert (pair_count imap contigToLength indexMultMap params
            (contigID, contigID)
          = barcode_count indexMultMap params
              (fun m => qualifies m contigID true params
                        || qualifies m contigID false params) imap) as ->.
  { apply barcode_count_ext. intros m. simpl. unfold contig_seen.
    rewrite !Hq. by destruct (_ || _). }
  assert ((0 <? barcode_count indexMultMap params
                  (fun m => qualifies m contigID true params
                            || qualifies m contigID false params) imap)
          = true) as -> by (by apply Z.ltb_lt).
  eexists. split; [reflexivity|]. simpl.
  unfold counted_record, shared_count, valid_count, either_count,
    first_end, second_end. simpl.
  repeat split; f_equal; apply barcode_count_ext; intros m; rewrite !Hq;
    by destruct (qualifies m contigID true params),
         (qualifies m contigID false params).
Qed.

(** X14: in every record of the returned map each end has at least as
    many barcodes as the two ends share and at most as many as their
    union, which is therefore positive: [estimateDistance] returns
    without an estimate on such a record only when the index is
    empty. *)
Theorem completed_record_usable (imap : IndexMap)
    (indexMultMap : gmap string Z) (contigToLength : ContigToLength)
    (params : ArcsParams) (pmap : PairMap) (pair : ContigPair)
    (recs : PairRecords) (o : PairOrientation) :
  Z.of_nat (size imap) <= INT_MAX ->
  calcContigPairBarcodeStats imap indexMultMap contigToLength params ∅
    = Ok pmap ->
  pmap !! pair = Some recs ->
  let rec := get_rec o recs in
  ARCS.barcodesIntersect rec <= barcodes1 rec <= ARCS.barcodesUnion rec /\
  ARCS.barcodesIntersect rec <= barcodes2 rec <= ARCS.barcodesUnion rec /\
  0 < ARCS.barcodesUnion rec /\
  forall (M : MapUtil) (S : StatUtil) jaccardToDist params' est,
    estimateDistance rec jaccardToDist params' = Ok (est, false) ->
    jaccardToDist = [].
Proof.
  intros Hsize Hrun Hpair rec.
  unfold calcContigPairBarcodeStats in Hrun.
  apply result_bind_Ok in Hrun as ([counts pmap0] & Hscan & Hcomplete).
  simpl in Hcomplete.
  assert (Hn : Z.of_nat (size imap) <= UINT_MAX)
    by (unfold INT_MAX, UINT_MAX in *; lia).
  pose proof (pair_scan_ok _ _ _ _ Hn _ _ Hscan) as Hok.
  destruct (pair_complete_lookup _ _ _ Hcomplete _ _ Hpair)
    as (recs0 & Hpair0 & Hrecs).
  pose proof (complete_records_Ok _ _ _ _ Hrecs o) as Hrec.
  destruct (complete_record_Ok _ _ _ _ _ _ Hrec)
    as (c1 & c2 & Hc1 & Hc2 & _).
  rewrite (complete_record_total (Z.of_nat (size imap)) counts pmap0 pair
             recs0 o c1 c2) in Hrec; [|lia|done|done|done|done].
  injection Hrec as Hrec. fold rec in Hrec.
  destruct Hok as [Hcounts Hshared].
  pose proof (Hcounts _ _ Hc1) as Hr1. pose proof (Hcounts _ _ Hc2) as Hr2.
  destruct (Hshared pair o) as (HI0 & HI1 & HI2).
  unfold intersect_of in HI0, HI1, HI2. rewrite Hpair0 in HI0, HI1, HI2.
  simpl in HI0, HI1, HI2.
  unfold count_of, first_end, second_end in HI1, HI2.
  rewrite Hc1 in HI1. rewrite Hc2 in HI2. simpl in HI1, HI2.
  rewrite <- Hrec. simpl.
  split; [lia|]. split; [lia|]. split; [lia|].
  intros M S jaccardToDist params' est. unfold estimateDistance.
  destruct jaccardToDist as [|e m]; [done|]. simpl.
  assert ((c1 + c2 - ARCS.barcodesIntersect (get_rec o recs0) =? 0) = false)
    as -> by (apply Z.eqb_neq; lia).
  intros Hest.
  apply result_bind_Ok in Hest as (_ & _ & Hest).
  destruct (closestKeys _ _ _) as [lowerIt upperIt].
  apply result_bind_Ok in Hest as (ds & _ & Hest).
  apply result_bind_Ok in Hest as (q1 & _ & Hest).
  apply result_bind_Ok in Hest as (lo & _ & Hest).
  apply result_bind_Ok in Hest as (q99 & _ & Hest).
  apply result_bind_Ok in Hest as (hi & _ & Hest).
  discriminate.
Qed.

(** *** A pair map that is not empty *)

(** The state after the first pass, started from any pair map: the
    shared counts are added to the ones the map held. *)
Lemma pair_scan_adds (imap : IndexMap) (indexMultMap : gmap string Z)
    (contigToLength : ContigToLength) (params : ArcsParams)
    (pmap0 : PairMap) :
  Z.of_nat (size imap) <= UINT_MAX ->
  forall counts pmap,
    pair_scan imap indexMultMap contigToLength params pmap0
      = Ok (counts, pmap) ->
    (forall e,
       counts !! e =
       if 0 <? valid_count imap contigToLength indexMultMap params e
       then Some (valid_count imap contigToLength indexMultMap params e)
       else None) /\
    (forall pair o,
       0 <= intersect_of pmap0 pair o ->
       intersect_of pmap0 pair o + Z.of_nat (size imap) <= UINT_MAX ->
       intersect_of pmap pair o =
       intersect_of pmap0 pair o
       + if String.ltb (pair.2) (pair.1) then 0
         else shared_count imap contigToLength indexMultMap params pair o) /\
    (forall pair : ContigPair,
       is_Some (pmap !! pair) <->
       is_Some (pmap0 !! pair) \/
       (String.ltb (pair.2) (pair.1) = false /\
        0 < pair_count imap contigToLength indexMultMap params pair)).
Proof.
  unfold pair_scan, valid_count, shared_count, pair_count. revert imap.
  apply (for_each_ind (fun r (im : IndexMap) =>
    Z.of_nat (size im) <= UINT_MAX -> forall counts pmap,
    r = Ok (counts, pmap) ->
    (forall e,
       counts !! e =
       if 0 <? barcode_count indexMultMap params
                 (fun m => valid_end contigToLength params m e) im
       then Some (barcode_count indexMultMap params
                    (fun m => valid_end contigToLength params m e) im)
       else None) /\
    (forall pair o,
       0 <= intersect_of pmap0 pair o ->
       intersect_of pmap0 pair o + Z.of_nat (size im) <= UINT_MAX ->
       intersect_of pmap pair o =
       intersect_of pmap0 pair o
       + if String.ltb (pair.2) (pair.1) then 0
         else barcode_count indexMultMap params
                (fun m => valid_end contigToLength params m (first_end pair o)
                          && valid_end contigToLength params m
                               (second_end pair o)) im) /\
    (forall pair : ContigPair,
       is_Some (pmap !! pair) <->
       is_Some (pmap0 !! pair) \/
       (String.ltb (pair.2) (pair.1) = false /\
        0 < barcode_count indexMultMap params
              (fun m => contig_seen contigToLength params m (pair.1)
                        && contig_seen contigToLength params m (pair.2)) im)))).
  { intros _ counts pmap [= <- <-]. split; [|split].
    - intros e. by rewrite barcode_count_empty, lookup_empty.
    - intros pair o _ _. rewrite barcode_count_empty.
      destruct (String.ltb (pair.2) (pair.1)); lia.
    - intros pair. rewrite barcode_count_empty.
      split; [by left|]. intros [?|[_ ?]]; [done|lia]. }
  intros index m im r Hfresh IH Hsize counts' pmap' Hstep.
  rewrite map_size_insert_None in * by done.
  apply result_bind_Ok in Hstep as ([counts pmap] & -> & Hstep).
  assert (Hsize0 : Z.of_nat (size im) <= UINT_MAX) by lia.
  destruct (IH Hsize0 counts pmap eq_refl) as (IHc & IHi & IHd). clear IH.
  apply pair_index_Ok in Hstep as (k & Hk & Hstep).
  assert (Hins : forall p,
    barcode_count indexMultMap params p (<[index := m]> im)
    = barcode_count indexMultMap params p im
      + Z.b2z (mult_in_range k params && p m)).
  { intros p. rewrite barcode_count_insert by done.
    by rewrite (in_mult_range_Some _ _ _ _ Hk). }
  destruct (mult_in_range k params).
  2:{ injection Hstep as -> ->. split; [|split].
      - intros e. rewrite Hins. simpl. rewrite Z.add_0_r. apply IHc.
      - intros pair o H0 Hb. rewrite Hins. simpl. rewrite Z.add_0_r.
        apply IHi; lia.
      - intros pair. rewrite Hins. simpl. rewrite Z.add_0_r. apply IHd. }
  simpl in Hins.
  destruct (pair_barcode_effect _ _ _ _ _ _ _ Hstep) as [Hc Hi].
  pose proof (pair_barcode_domain _ _ _ _ _ _ _ _ Hstep) as Hd.
  split; [|split].
  - intros e. rewrite Hins, Hc.
    pose proof (barcode_count_range indexMultMap params
                  (fun m => valid_end contigToLength params m e) im) as Hr.
    assert (Hcount : count_of counts e
                     = barcode_count indexMultMap params
                         (fun m => valid_end contigToLength params m e) im).
    { unfold count_of. rewrite IHc.
      destruct (Z.ltb_spec 0 (barcode_count indexMultMap params
                  (fun m => valid_end contigToLength params m e) im));
        simpl; lia. }
    destruct (valid_end contigToLength params m e); simpl.
    + rewrite Hcount, szincr_small by (unfold UINT_MAX in *; lia).
      assert ((0 <? barcode_count indexMultMap params
                 (fun m => valid_end contigToLength params m e) im + 1) = true)
        as -> by (apply Z.ltb_lt; lia).
      done.
    + rewrite Z.add_0_r. apply IHc.
  - intros pair o H0 Hb. rewrite Hins, Hi, IHi by lia.
    pose proof (barcode_count_range indexMultMap params
      (fun m => valid_end contigToLength params m (first_end pair o)
                && valid_end contigToLength params m (second_end pair o)) im)
      as Hr.
    destruct (String.ltb (pair.2) (pair.1)).
    + by rewrite andb_false_r.
    + rewrite andb_true_r.
      destruct (valid_end contigToLength params m (first_end pair o)
                && valid_end contigToLength params m (second_end pair o));
        simpl; [|lia].
      rewrite uincr_small by lia. lia.
  - intros pair. rewrite Hins, Hd, IHd.
    pose proof (barcode_count_range indexMultMap params
      (fun m => contig_seen contigToLength params m (pair.1)
                && contig_seen contigToLength params m (pair.2)) im) as Hr.
    destruct (contig_seen contigToLength params m (pair.1)),
      (contig_seen contigToLength params m (pair.2)); simpl;
      rewrite ?Z.add_0_r; split;
      try (intros [[?|[? ?]]|(? & ? & ?)]); try (intros [?|[? ?]]);
      try done; try (by left; left); try (by left);
      try (left; right; split; [done|lia]);
      try (right; split; [done|lia]).
Qed.

(** A completed record: the lookups hit and the assertions held. *)
Lemma complete_record_asserts (counts : gmap CI Z) (id1 id2 : string)
    (i : PairOrientation) (rec rec' : PairRecord) :
  complete_record counts id1 id2 i rec = Ok rec' ->
  exists c1 c2,
    counts !! (id1, first_is_head i) = Some c1 /\
    counts !! (id2, second_is_head i) = Some c2 /\
    0 < to_unsigned c1 /\ 0 < to_unsigned c2 /\
    ARCS.barcodesIntersect rec <= to_unsigned (to_unsigned c1 + to_unsigned c2).
Proof.
  unfold complete_record. intros Hrun.
  apply result_bind_Ok in Hrun as (c1 & Hc1%at_key_Ok & Hrun).
  apply result_bind_Ok in Hrun as (_ & H1%assert_Ok & Hrun).
  apply result_bind_Ok in Hrun as (c2 & Hc2%at_key_Ok & Hrun).
  apply result_bind_Ok in Hrun as (_ & H2%assert_Ok & Hrun).
  apply result_bind_Ok in Hrun as (_ & H3%assert_Ok & _).
  exists c1, c2. repeat split; (done || lia).
Qed.

(** X18: [calcContigPairBarcodeStats] adds to the pair map it is given.
    The pairs of the map are kept, and in a record of the returned map
    [barcodesIntersect] is the value the map held for the variant (0 for
    a new pair) plus the number of barcodes with a valid mapping to both
    ends, while [barcodes1], [barcodes2] and [barcodesUnion] are
    overwritten with the two end counts of this run and their sum minus
    [barcodesIntersect]. *)
Theorem calcContigPairBarcodeStats_accumulates (imap : IndexMap)
    (indexMultMap : gmap string Z) (contigToLength : ContigToLength)
    (params : ArcsParams) (pmap0 pmap : PairMap) :
  Z.of_nat (size imap) <= INT_MAX ->
  calcContigPairBarcodeStats imap indexMultMap contigToLength params pmap0
    = Ok pmap ->
  (forall pair, is_Some (pmap0 !! pair) -> is_Some (pmap !! pair)) /\
  (forall pair recs o,
     pmap !! pair = Some recs ->
     0 <= intersect_of pmap0 pair o ->
     intersect_of pmap0 pair o + Z.of_nat (size imap) <= UINT_MAX ->
     let rec := get_rec o recs in
     ARCS.barcodesIntersect rec
       = intersect_of pmap0 pair o
         + (if String.ltb (pair.2) (pair.1) then 0
            else shared_count imap contigToLength indexMultMap params pair o) /\
     barcodes1 rec
       = valid_count imap contigToLength indexMultMap params (first_end pair o) /\
     barcodes2 rec
       = valid_count imap contigToLength indexMultMap params (second_end pair o) /\
     ARCS.barcodesUnion rec
       = barcodes1 rec + barcodes2 rec - ARCS.barcodesIntersect rec /\
     0 <= ARCS.barcodesUnion rec).
Proof.
  intros Hsize Hrun.
  unfold calcContigPairBarcodeStats in Hrun.
  apply result_bind_Ok in Hrun as ([counts pmap1] & Hscan & Hcomplete).
  simpl in Hcomplete.
  assert (Hn : Z.of_nat (size imap) <= UINT_MAX)
    by (unfold INT_MAX, UINT_MAX in *; lia).
  destruct (pair_scan_adds _ _ _ _ _ Hn _ _ Hscan) as (Hc & Hi & Hd).
  split.
  - intros pair H0.
    destruct (proj2 (Hd pair)) as [recs1 H1]; [by left|].
    pose proof (pair_complete_progress counts pmap1 pmap1 (reflexivity _)
                  pmap Hcomplete pair) as Hgen.
    rewrite H1 in Hgen. destruct Hgen as (recs' & _ & ->). eauto.
  - intros pair recs o Hpair H0 Hb rec.
    destruct (pair_complete_lookup _ _ _ Hcomplete _ _ Hpair)
      as (recs1 & Hpair1 & Hrecs).
    pose proof (complete_records_Ok _ _ _ _ Hrecs o) as Hrec.
    destruct (complete_record_asserts _ _ _ _ _ _ Hrec)
      as (c1 & c2 & Hc1 & Hc2 & Hp1 & Hp2 & Hsum).
    destruct (complete_record_Ok _ _ _ _ _ _ Hrec)
      as (c1' & c2' & Hc1' & Hc2' & HI & Hb1 & Hb2 & HU).
    assert (c1' = c1) as -> by congruence.
    assert (c2' = c2) as -> by congruence.
    fold rec in HI, Hb1, Hb2, HU.
    assert (H1 : c1 = valid_count imap contigToLength indexMultMap params
                        (first_end pair o)).
    { unfold first_end. rewrite Hc in Hc1. destruct (0 <? _); congruence. }
    assert (H2 : c2 = valid_count imap contigToLength indexMultMap params
                        (second_end pair o)).
    { unfold second_end. rewrite Hc in Hc2. destruct (0 <? _); congruence. }
    pose proof (barcode_count_range indexMultMap params
      (fun m => valid_end contigToLength params m (first_end pair o)) imap)
      as R1.
    pose proof (barcode_count_range indexMultMap params
      (fun m => valid_end contigToLength params m (second_end pair o)) imap)
      as R2.
    fold (valid_count imap contigToLength indexMultMap params
            (first_end pair o)) in R1.
    fold (valid_count imap contigToLength indexMultMap params
            (second_end pair o)) in R2.
    rewrite <- H1 in R1. rewrite <- H2 in R2. unfold INT_MAX in Hsize.
    rewrite (to_unsigned_id c1) in * by (unfold UINT_MAX; lia).
    rewrite (to_unsigned_id c2) in * by (unfold UINT_MAX; lia).
    rewrite (to_unsigned_id (c1 + c2)) in * by (unfold UINT_MAX; lia).
    assert (HI1 : ARCS.barcodesIntersect (get_rec o recs1)
                  = intersect_of pmap1 pair o).
    { unfold intersect_of. by rewrite Hpair1. }
    pose proof (Hi pair o H0 Hb) as Hadd. rewrite <- HI1, <- HI in Hadd.
    assert (0 <= ARCS.barcodesIntersect rec).
    { rewrite Hadd.
      pose proof (barcode_count_range indexMultMap params
        (fun m => valid_end contigToLength params m (first_end pair o)
                  && valid_end contigToLength params m (second_end pair o))
        imap) as Rs.
      unfold shared_count. destruct (String.ltb (pair.2) (pair.1)); lia. }
    rewrite <- HI in Hsum, HU.
    rewrite to_unsigned_id in HU by (unfold UINT_MAX; lia).
    rewrite <- H1, <- H2.
    split; [exact Hadd|]. split; [done|]. split; [done|]. split; lia.
Qed.

(** ** The table of [writeDistSamples] *)

Lemma string_app_cons (a : ascii) (s1 s2 : string) :
  String a s1 +:+ s2 = String a (s1 +:+ s2).
Proof. reflexivity. Qed.

Lemma string_app_nil_l (s : string) : "" +:+ s = s.
Proof. reflexivity. Qed.

Lemma string_app_nil_r (s : string) : s +:+ "" = s.
Proof.
  induction s as [|a s IH]; [done|]. rewrite string_app_cons. by f_equal.
Qed.

Lemma string_app_assoc (s1 s2 s3 : string) :
  (s1 +:+ s2) +:+ s3 = s1 +:+ (s2 +:+ s3).
Proof.
  induction s1 as [|a s1 IH]; [done|].
  rewrite !string_app_cons. by f_equal.
Qed.

Lemma count_char_app (a : ascii) (s1 s2 : string) :
  count_char a (s1 +:+ s2) = (count_char a s1 + count_char a s2)%nat.
Proof.
  induction s1 as [|b s1 IH]; [done|].
  rewrite string_app_cons. simpl. rewrite IH. lia.
Qed.

(** Two texts that agree and whose first occurrence of [a] ends a prefix
    free of [a] agree before and after it. *)
Lemma sep_split (a : ascii) (s1 s2 r1 r2 : string) :
  count_char a s1 = 0%nat -> count_char a s2 = 0%nat ->
  s1 +:+ String a r1 = s2 +:+ String a r2 -> s1 = s2 /\ r1 = r2.
Proof.
  revert s2. induction s1 as [|b s1 IH]; intros [|b' s2] H1 H2 Heq;
    rewrite ?string_app_cons, ?string_app_nil_l in Heq; simpl in H1, H2.
  - by injection Heq as ->.
  - injection Heq as <- _. by rewrite Ascii.eqb_refl in H2.
  - injection Heq as -> _. by rewrite Ascii.eqb_refl in H1.
  - injection Heq as -> Heq.
    destruct (IH s2) as [-> ->]; [lia|lia|done|done].
Qed.

(** The decimal digits of a number hold no character that is not a
    digit. *)
Lemma count_char_pretty_N_go (a : ascii) (x : N) (s : string) :
  (forall d, pretty_N_char d <> a) ->
  count_char a (pretty_N_go x s) = count_char a s.
Proof.
  intros Ha. revert s.
  induction (N.lt_wf_0 x) as [x _ IH]. intros s.
  assert (x = 0 \/ 0 < x)%N as [->|Hx] by lia.
  - by rewrite pretty_N_go_0.
  - rewrite pretty_N_go_step by done.
    rewrite IH by (by apply N.div_lt). simpl.
    destruct (Ascii.eqb_spec a (pretty_N_char (x `mod` 10))) as [Heq|]; [|done].
    by destruct (Ha (x `mod` 10)%N).
Qed.

Lemma count_char_digits (a : ascii) (n : N) :
  (forall d, pretty_N_char d <> a) -> count_char a (pretty n) = 0%nat.
Proof.
  intros Ha. unfold pretty, pretty_N.
  case_decide.
  - simpl. destruct (Ascii.eqb_spec a "0"); [|done].
    by destruct (Ha 0%N).
  - by rewrite count_char_pretty_N_go.
Qed.

Lemma digit_not_tab d : pretty_N_char d <> tab.
Proof. unfold pretty_N_char. by repeat case_match. Qed.

Lemma digit_not_newline d : pretty_N_char d <> newline.
Proof. unfold pretty_N_char. by repeat case_match. Qed.

Lemma write_sample_line (out contigID : string) (sample : DistSample) :
  write_sample out contigID sample = out +:+ sample_line contigID sample "".
Proof.
  unfold write_sample, sample_line, put, put_char, put_unsigned.
  rewrite !string_app_assoc. rewrite !string_app_cons, !string_app_nil_l.
  done.
Qed.

Lemma sample_line_app (contigID : string) (sample : DistSample)
    (rest : string) :
  sample_line contigID sample "" +:+ rest = sample_line contigID sample rest.
Proof.
  unfold sample_line.
  rewrite ?string_app_assoc, ?string_app_cons, ?string_app_nil_l.
  repeat (rewrite ?string_app_assoc, ?string_app_cons, ?string_app_nil_l;
          f_equal).
Qed.

Lemma write_header_line (out : string) : write_header out = out +:+ header_line.
Proof.
  unfold header_line, write_header, put, put_char.
  rewrite !string_app_assoc. done.
Qed.

(** The text after the call: the text before it, the header line and
    the lines of the samples in iteration order. *)
Lemma writeDistSamples_lines (out : string) (distSamples : DistSampleMap) :
  writeDistSamples out distSamples
  = out +:+ header_line +:+ sample_lines (entries distSamples).
Proof.
  unfold writeDistSamples, for_each. rewrite write_header_line.
  rewrite <- string_app_assoc.
  generalize (out +:+ header_line). intros acc.
  revert acc. induction (entries distSamples) as [|[c s] l IH]; intros acc.
  - simpl. by rewrite string_app_nil_r.
  - simpl. rewrite IH, write_sample_line, string_app_assoc.
    by rewrite sample_line_app.
Qed.

Lemma string_app_inj_l (s r1 r2 : string) : s +:+ r1 = s +:+ r2 -> r1 = r2.
Proof.
  induction s as [|a s IH]; [done|].
  rewrite !string_app_cons. intros [= Heq]. by apply IH.
Qed.

Lemma unsigned_digits_inj (x y : Z) :
  0 <= x -> 0 <= y -> pretty (Z.to_N x) = pretty (Z.to_N y) -> x = y.
Proof. intros Hx Hy Heq. apply (inj pretty) in Heq. lia. Qed.

(** The lines of two lists of samples agree only if the lists do. *)
Lemma sample_lines_inj (l1 l2 : list (string * DistSample)) :
  Forall (fun e => count_char tab (e.1) = 0%nat /\ unsigned_sample (e.2)) l1 ->
  Forall (fun e => count_char tab (e.1) = 0%nat /\ unsigned_sample (e.2)) l2 ->
  sample_lines l1 = sample_lines l2 -> l1 = l2.
Proof.
  intros H1. revert l2.
  induction H1 as [|[c s] l1 [Hc Hs] _ IH]; intros l2 H2 Heq.
  - destruct H2 as [|[c' s'] l2 _ _]; [done|].
    simpl in Heq. unfold sample_line in Heq. by destruct c'.
  - destruct H2 as [|[c' s'] l2 [Hc' Hs'] H2].
    { simpl in Heq. unfold sample_line in Heq. by destruct c. }
    simpl in *. unfold sample_line in Heq.
    destruct Hs as (Sd & Sh & St & Su & Si).
    destruct Hs' as (Sd' & Sh' & St' & Su' & Si').
    unfold is_unsigned in *.
    apply sep_split in Heq as [-> Heq]; [|done|done].
    apply sep_split in Heq as [Hd Heq];
      [|by apply count_char_digits, digit_not_tab..].
    apply sep_split in Heq as [Hh Heq];
      [|by apply count_char_digits, digit_not_tab..].
    apply sep_split in Heq as [Ht Heq];
      [|by apply count_char_digits, digit_not_tab..].
    apply sep_split in Heq as [Hu Heq];
      [|by apply count_char_digits, digit_not_tab..].
    apply sep_split in Heq as [Hi Heq];
      [|by apply count_char_digits, digit_not_newline..].
    apply unsigned_digits_inj in Hd, Hh, Ht, Hu, Hi; try lia.
    f_equal; [|by apply IH].
    f_equal. destruct s, s'. simpl in *. congruence.
Qed.

Lemma sample_line_fields (contigID : string) (sample : DistSample)
    (rest : string) :
  sample_line contigID sample rest
  = table_line (sample_fields contigID sample) +:+ rest.
Proof.
  unfold sample_line, table_line, sample_fields. simpl tab_separated.
  rewrite ?string_app_assoc, ?string_app_cons, ?string_app_nil_l.
  repeat (rewrite ?string_app_assoc, ?string_app_cons, ?string_app_nil_l;
          f_equal).
Qed.

Lemma sample_lines_table (l : list (string * DistSample)) :
  sample_lines l = table (map (fun e => sample_fields (e.1) (e.2)) l).
Proof.
  induction l as [|[c s] l IH]; [done|].
  simpl. by rewrite sample_line_fields, IH.
Qed.

Lemma header_line_fields : header_line = table_line header_fields.
Proof. reflexivity. Qed.

Lemma count_char_cons (a b : ascii) (s : string) :
  count_char a (String b s)
  = ((if Ascii.eqb a b then 1 else 0) + count_char a s)%nat.
Proof. reflexivity. Qed.

Lemma count_char_tab_separated (a : ascii) (fields : list string) :
  a <> tab -> Forall (fun f => count_char a f = 0%nat) fields ->
  count_char a (tab_separated fields) = 0%nat.
Proof.
  intros Ha. induction 1 as [|f fields Hf Hall IH]; [done|].
  destruct fields as [|f' fields]; [done|].
  change (tab_separated (f :: f' :: fields))
    with (f +:+ String tab (tab_separated (f' :: fields))).
  rewrite count_char_app, Hf, count_char_cons, IH.
  by destruct (Ascii.eqb_spec a tab).
Qed.

Lemma count_tab_tab_separated (fields : list string) :
  Forall (fun f => count_char tab f = 0%nat) fields ->
  count_char tab (tab_separated fields) = pred (length fields).
Proof.
  induction 1 as [|f fields Hf Hall IH]; [done|].
  destruct fields as [|f' fields]; [by simpl|].
  change (tab_separated (f :: f' :: fields))
    with (f +:+ String tab (tab_separated (f' :: fields))).
  rewrite count_char_app, Hf, count_char_cons, IH.
  rewrite Ascii.eqb_refl. simpl. lia.
Qed.

(** A line of plain fields has a tab between two fields and no other,
    and one newline, its last character. *)
Lemma table_line_plain (fields : list string) :
  Forall plain_field fields ->
  count_char tab (table_line fields) = pred (length fields) /\
  count_char newline (table_line fields) = 1%nat.
Proof.
  intros Hall. unfold table_line. rewrite !count_char_app. split.
  - rewrite count_tab_tab_separated.
    + simpl. lia.
    + eapply Forall_impl; [exact Hall|]. by intros f [? ?].
  - rewrite count_char_tab_separated; [done|done|].
    eapply Forall_impl; [exact Hall|]. by intros f [? ?].
Qed.

Lemma plain_digits (n : N) : plain_field (pretty n).
Proof.
  split; apply count_char_digits; [apply digit_not_tab|apply digit_not_newline].
Qed.

(** X16: [writeDistSamples] appends a table to the stream: the header
    line, then one line for each sample, in the order of the iteration.
    A line is six fields separated by tabs and ended by a newline: the
    contig name and the decimal digits of the distance and of the four
    counters.  When the contig name holds neither a tab nor a newline,
    no field of the line does, and the line has exactly five tabs and
    one newline. *)
Theorem writeDistSamples_table (out : string) (distSamples : DistSampleMap) :
  writeDistSamples out distSamples
  = out +:+ table (header_fields
                   :: map (fun e => sample_fields (e.1) (e.2))
                        (entries distSamples)) /\
  length (entries distSamples) = size distSamples /\
  (forall c s, (c, s) ∈ entries distSamples <-> distSamples !! c = Some s) /\
  Forall plain_field header_fields /\
  count_char tab (table_line header_fields) = 5%nat /\
  count_char newline (table_line header_fields) = 1%nat /\
  (forall c s, plain_field c ->
     length (sample_fields c s) = 6%nat /\
     Forall plain_field (sample_fields c s) /\
     count_char tab (table_line (sample_fields c s)) = 5%nat /\
     count_char newline (table_line (sample_fields c s)) = 1%nat).
Proof.
  split.
  { by rewrite writeDistSamples_lines, sample_lines_table, header_line_fields. }
  split; [apply length_entries|].
  split; [intros c s; apply elem_of_entries|].
  split; [by repeat constructor|].
  split; [reflexivity|]. split; [reflexivity|].
  intros c s Hc.
  assert (Hall : Forall plain_field (sample_fields c s)).
  { unfold sample_fields. repeat constructor; (apply Hc || apply plain_digits). }
  split; [done|]. split; [exact Hall|].
  by destruct (table_line_plain _ Hall).
Qed.

(** X17: the text written determines the samples: two maps whose contig
    names hold no tab and whose fields are values of an [unsigned] are
    written as the same text only if they are equal. *)
Theorem writeDistSamples_lossless (out : string)
    (distSamples distSamples' : DistSampleMap) :
  map_Forall (fun c s => count_char tab c = 0%nat /\ unsigned_sample s)
    distSamples ->
  map_Forall (fun c s => count_char tab c = 0%nat /\ unsigned_sample s)
    distSamples' ->
  writeDistSamples out distSamples = writeDistSamples out distSamples' ->
  distSamples = distSamples'.
Proof.
  intros H1 H2. rewrite !writeDistSamples_lines.
  intros Heq. apply string_app_inj_l, string_app_inj_l in Heq.
  apply sample_lines_inj in Heq.
  - by rewrite <- (entries_map distSamples), <- (entries_map distSamples'), Heq.
  - apply Forall_forall. intros [c s] Hin.
    apply elem_of_entries in Hin. by apply (H1 c s).
  - apply Forall_forall. intros [c s] Hin.
    apply elem_of_entries in Hin. by apply (H2 c s).
Qed.

End DistanceEst.

(** * Independence of the iteration order *)

(** X5: the map built by [calcDistSamples] does not depend on the order
    in which the two unordered maps are traversed. *)
Theorem calcDistSamples_order_independent
    (index_order index_order' : IterationOrder string)
    (end_order end_order' : IterationOrder (string * bool))
    (imap : IndexMap) (contigToLength : ContigToLength)
    (indexMultMap : gmap string Z) (params : ArcsParams) :
  Z.of_nat (size imap) <= UINT_MAX ->
  @calcDistSamples index_order end_order imap contigToLength indexMultMap
    params ∅
  = @calcDistSamples index_order' end_order' imap contigToLength indexMultMap
      params ∅.
Proof.
  intros Hsize.
  destruct (@calcDistSamples index_order end_order imap contigToLength
              indexMultMap params ∅) as [ds|e] eqn:Hrun;
    destruct (@calcDistSamples index_order' end_order' imap contigToLength
                indexMultMap params ∅) as [ds'|e'] eqn:Hrun'.
  - f_equal. apply map_eq. intros c.
    rewrite (calcDistSamples_lookup _ _ _ _ _ Hsize Hrun c).
    by rewrite (calcDistSamples_lookup _ _ _ _ _ Hsize Hrun' c).
  - assert (exists ds0, @calcDistSamples index_order' end_order' imap
              contigToLength indexMultMap params ∅ = Ok ds0) as [ds0 H0].
    { apply (proj2 (@calcDistSamples_Ok_iff index_order' end_order' imap
                      contigToLength indexMultMap params ∅)).
      apply (proj1 (@calcDistSamples_Ok_iff index_order end_order imap
                      contigToLength indexMultMap params ∅)). eauto. }
    congruence.
  - assert (exists ds0, @calcDistSamples index_order end_order imap
              contigToLength indexMultMap params ∅ = Ok ds0) as [ds0 H0].
    { apply (proj2 (@calcDistSamples_Ok_iff index_order end_order imap
                      contigToLength indexMultMap params ∅)).
      apply (proj1 (@calcDistSamples_Ok_iff index_order' end_order' imap
                      contigToLength indexMultMap params ∅)). eauto. }
    congruence.
  - apply calcDistSamples_Raise in Hrun, Hrun'. congruence.
Qed.

(** X15: the map returned by [calcContigPairBarcodeStats] does not
    depend on the order in which the unordered maps are traversed. *)
Theorem calcContigPairBarcodeStats_order_independent
    (index_order index_order' : IterationOrder string)
    (end_order end_order' : IterationOrder (string * bool))
    (pair_order pair_order' : IterationOrder (string * string))
    (imap : IndexMap) (indexMultMap : gmap string Z)
    (contigToLength : ContigToLength) (params : ArcsParams) :
  Z.of_nat (size imap) <= INT_MAX ->
  @calcContigPairBarcodeStats index_order end_order pair_order imap
    indexMultMap contigToLength params ∅
  = @calcContigPairBarcodeStats index_order' end_order' pair_order' imap
      indexMultMap contigToLength params ∅.
Proof.
  intros Hsize.
  pose proof (@calcContigPairBarcodeStats_Ok_iff index_order end_order
                pair_order imap indexMultMap contigToLength params Hsize)
    as Hiff.
  pose proof (@calcContigPairBarcodeStats_Ok_iff index_order' end_order'
                pair_order' imap indexMultMap contigToLength params Hsize)
    as Hiff'.
  destruct (@calcContigPairBarcodeStats index_order end_order pair_order imap
              indexMultMap contigToLength params ∅) as [pmap|e] eqn:Hrun;
    destruct (@calcContigPairBarcodeStats index_order' end_order' pair_order'
                imap indexMultMap contigToLength params ∅) as [pmap'|e']
      eqn:Hrun'.
  - f_equal. apply map_eq. intros pair.
    rewrite (calcContigPairBarcodeStats_lookup _ _ _ _ _ Hsize Hrun pair).
    by rewrite (calcContigPairBarcodeStats_lookup _ _ _ _ _ Hsize Hrun' pair).
  - destruct (proj2 Hiff') as [? ?]; [|done]. apply Hiff. eauto.
  - destruct (proj2 Hiff) as [? ?]; [|done]. apply Hiff'. eauto.
  - apply calcContigPairBarcodeStats_Raise in Hrun, Hrun'; [|done..].
    congruence.
Qed.

(** * The examples, run *)

#[global] Existing Instance map_order.

(** C6 as stated fails on a contig shorter than twice the end length: the
    barcode BX1 passes the multiplicity filter and maps to both ends of
    the contig S with 5 read pairs each ([min_reads] is 3), and neither
    counter of S is incremented: S gets no sample at all. *)
Lemma short_contig_no_contribution :
  Examples.mults !! "BX1"%string = Some 2 /\
  mult_in_range 2 Examples.params = true /\
  qualifies Examples.short_ends "S" true Examples.params = true /\
  qualifies Examples.short_ends "S" false Examples.params = true /\
  calcDistSamples Examples.short_contig Examples.lengths Examples.mults
    Examples.params ∅ = Ok ∅ /\
  exists distSamples',
    sample_index Examples.lengths Examples.mults Examples.params "BX1"
      Examples.short_ends ∅ = Ok distSamples' /\
    barcodesIntersect (sample_of distSamples' "S")
      <> uincr (barcodesIntersect (sample_of ∅ "S")) /\
    barcodesUnion (sample_of distSamples' "S")
      <> uincr (barcodesUnion (sample_of ∅ "S")).
Proof.
  do 5 (split; [vm_compute; reflexivity|]).
  exists ∅. repeat split; vm_compute; congruence.
Qed.

(** The barcode of Scenario A on the contig C1, which has 300 bases: the
    bound is 200. *)
Lemma barcode_contribution_witness :
  barcodesIntersect (sample_of Examples.scenarioA_samples "C1")
    = uincr (barcodesIntersect (sample_of ∅ "C1")) /\
  barcodesUnion (sample_of Examples.scenarioA_samples "C1")
    = uincr (barcodesUnion (sample_of ∅ "C1")).
Proof.
  pose proof (barcode_contribution Examples.lengths Examples.mults
                Examples.params "BX1" Examples.both_ends ∅
                Examples.scenarioA_samples "C1" 300 2) as Hc.
  destruct Hc as (_ & Hlong & _); try (vm_compute; reflexivity).
  destruct Hlong as [Hboth _]; [vm_compute; discriminate|].
  destruct Hboth as (HI & HU & _); [split; reflexivity|].
  split; [exact HI | exact HU].
Defined.

(** The sample of Scenario A. *)
Lemma sample_invariant_witness :
  0 <= 1 <= 1 /\ 1 <= 1 /\
  exists l, Examples.lengths !! "C1"%string = Some l /\ 100 = l - 2 * 100.
Proof.
  refine ((fun H => conj (proj1 H) (conj (proj1 (proj2 H))
                     (proj1 (proj2 (proj2 H))))) _).
  apply (sample_invariant Examples.lengths Examples.mults Examples.params
           Examples.scenarioA Examples.scenarioA_samples "C1"
           {| distance := 100; barcodesHead := 1; barcodesTail := 1;
              barcodesUnion := 1; barcodesIntersect := 1 |}).
  - vm_compute. split; discriminate.
  - apply (bool_decide_unpack _). vm_compute. exact I.
  - vm_compute. discriminate.
  - vm_compute. reflexivity.
  - vm_compute. reflexivity.
Defined.

(** The sample of Scenario B: 2 + 1 = 2 + 1.  Its second barcode, which
    qualifies at the head of C1 only, adds 1 to both sums of the sample
    of Scenario A. *)
Lemma head_tail_union_intersect_witness :
  2 + 1 = 2 + 1 /\
  2 + 1 = 1 + 1 + (1 + 0) /\
  2 + 1 = 1 + 1 + (1 + 0).
Proof.
  assert (Hsize : Z.of_nat (size Examples.scenarioB) <= UINT_MAX)
    by (vm_compute; discriminate).
  pose proof (head_tail_union_intersect Examples.lengths Examples.mults
                Examples.params Examples.scenarioB Examples.scenarioB_samples
                "C1"
                {| distance := 100; barcodesHead := 2; barcodesTail := 1;
                   barcodesUnion := 2; barcodesIntersect := 1 |}
                Hsize eq_refl eq_refl) as (Hsum & _ & _ & Hstep).
  split; [exact Hsum|].
  apply (Hstep "BX2"%string Examples.head_only Examples.scenarioA_samples
           Examples.scenarioB_samples 300).
  - vm_compute. reflexivity.
  - vm_compute. discriminate.
  - vm_compute. reflexivity.
  - vm_compute. reflexivity.
  - vm_compute. split; [discriminate|reflexivity].
  - vm_compute. split; [discriminate|reflexivity].
  - vm_compute. split; [discriminate|reflexivity].
  - vm_compute. split; [discriminate|reflexivity].
Defined.


(** The index of three samples, two of which tie: the scores of P and Q
    round to the same [double]. *)
Lemma index_keeps_one_sample_per_key_witness :
  length (buildJaccardToDist Examples.near_one_samples [])
  = distinct_keys (sample_keys Examples.near_one_samples) /\
  (length (buildJaccardToDist Examples.near_one_samples [])
   < size Examples.near_one_samples)%nat.
Proof.
  assert (H : map_Forall (fun _ s => 0 < barcodesUnion s)
                Examples.near_one_samples)
    by (apply (bool_decide_unpack _); vm_compute; exact I).
  pose proof (index_keeps_one_sample_per_key Examples.near_one_samples H)
    as (_ & _ & _ & Hlen & _ & Htie).
  split; [exact Hlen|].
  apply (Htie "P"%string "Q"%string Examples.sample_P Examples.sample_Q).
  - discriminate.
  - vm_compute. reflexivity.
  - vm_compute. reflexivity.
  - vm_compute. reflexivity.
Defined.

(** C2 as stated fails when two samples tie: the barcode BX1 maps to both
    ends of the contigs A and B, [calcDistSamples] gives each of them a
    sample with intersection 1 and union 1, both keys are 1, and the
    index built from the two samples has one entry. *)
Lemma tied_samples_dropped :
  calcDistSamples Examples.all_ends Examples.lengths Examples.mults
    Examples.params ∅ = Ok Examples.all_ends_samples /\
  size Examples.all_ends_samples = 2%nat /\
  length (buildJaccardToDist Examples.all_ends_samples []) = 1%nat /\
  length (buildJaccardToDist Examples.all_ends_samples [])
    <> size Examples.all_ends_samples.
Proof. repeat split; vm_compute; congruence. Qed.

(** The variant head-tail of the pair (A,B), both ends of both contigs
    being observed. *)
Lemma pair_record_invariant_witness :
  let rec := get_rec HT (fill Examples.shared_once) in
  0 < barcodes1 rec /\
  0 < barcodes2 rec /\
  ARCS.barcodesUnion rec
    = barcodes1 rec + barcodes2 rec - ARCS.barcodesIntersect rec /\
  ARCS.barcodesIntersect rec <= ARCS.barcodesUnion rec /\
  (0 < ARCS.barcodesUnion rec ->
   let j := ddiv (ARCS.barcodesIntersect rec) (ARCS.barcodesUnion rec) in
   (0 <= j <= 1)%Q /\
   assert (Qleb 0 j && Qleb j 1) = Ok tt /\
   forall (M : MapUtil) (S : StatUtil) jaccardToDist params' est,
     estimateDistance rec jaccardToDist params' = Ok (est, true) ->
     jaccard est = j).
Proof.
  apply (pair_record_invariant Examples.all_ends Examples.mults
           Examples.lengths Examples.params Examples.all_ends_pairs
           ("A"%string, "B"%string) (fill Examples.shared_once) HT).
  - vm_compute. discriminate.
  - vm_compute. reflexivity.
  - vm_compute. reflexivity.
Defined.

(** C1 fails on the code: the barcode BX1 maps to the heads of the
    contigs A and B only.  The first pass stores the pair (A,B) with its
    four variants and counts the two heads; the second pass looks the
    tail of B up for the variant head-tail, [at] throws, and the run
    ends with [std::out_of_range]. *)
Lemma heads_only_lookup_throws :
  exists counts pmap recs,
    pair_scan Examples.heads_only Examples.mults Examples.lengths
      Examples.params ∅ = Ok (counts, pmap) /\
    pmap !! ("A"%string, "B"%string) = Some recs /\
    counts !! ("A"%string, true) = Some 1 /\
    counts !! ("B"%string, true) = Some 1 /\
    counts !! ("B"%string, false) = None /\
    complete_record counts "A" "B" HT (get_rec HT recs) = Raise out_of_range /\
    calcContigPairBarcodeStats Examples.heads_only Examples.mults
      Examples.lengths Examples.params ∅ = Raise out_of_range.
Proof.
  eexists _, _, _. split; [vm_compute; reflexivity|].
  repeat split; vm_compute; reflexivity.
Qed.

(** An empty index. *)
Lemma estimateDistance_fails_soft_witness :
  @estimateDistance spec_closestKeys spec_quantile Examples.far_record []
    Examples.params = Ok (DistanceEstimate_default, false).
Proof.
  apply (estimateDistance_fails_soft spec_closestKeys spec_quantile
           Examples.far_record [] Examples.params).
  left. reflexivity.
Defined.

(** A record whose window is empty. *)
Lemma estimateDistance_no_window_check_witness :
  @estimateDistance spec_closestKeys spec_quantile Examples.far_record
    Examples.far_index Examples.params =
  (q1 ← spec_quantile [] (1 # 100)%Q;
   lo ← double_to_int (Qfloor q1);
   q99 ← spec_quantile [] (99 # 100)%Q;
   hi ← double_to_int (Qceiling q99);
   Ok ({| minDist := lo; maxDist := hi; jaccard := ddiv 3 15 |}, true)).
Proof.
  refine (proj2 (estimateDistance_no_window_check spec_closestKeys
                   spec_quantile Examples.far_record Examples.far_index
                   Examples.params _ _) _ _).
  - vm_compute. reflexivity.
  - discriminate.
  - vm_compute. split; discriminate.
  - vm_compute. reflexivity.
Defined.

(** C3 as stated fails: the record has union 15 and Jaccard score 3/15,
    the index is not empty, no key lies within 1/20 of the score, and
    [estimateDistance] does not return [false]: the empty list of
    distances goes to [quantile], which has no value for it. *)
Lemma empty_window_not_reported :
  0 < ARCS.barcodesUnion Examples.far_record /\
  Examples.far_index <> [] /\
  window Examples.far_index
    (ddiv (ARCS.barcodesIntersect Examples.far_record)
          (ARCS.barcodesUnion Examples.far_record))
    (dist_bin_size Examples.params) = [] /\
  collect_distances Examples.far_index
    (spec_closestKeys Examples.far_index (ddiv 3 15) (1 # 20)).1
    (spec_closestKeys Examples.far_index (ddiv 3 15) (1 # 20)).2 = Ok [] /\
  @estimateDistance spec_closestKeys spec_quantile Examples.far_record
    Examples.far_index Examples.params = Raise undefined_behaviour /\
  forall est,
    @estimateDistance spec_closestKeys spec_quantile Examples.far_record
      Examples.far_index Examples.params <> Ok (est, false).
Proof.
  assert (Hrun : @estimateDistance spec_closestKeys spec_quantile
            Examples.far_record Examples.far_index Examples.params
            = Raise undefined_behaviour) by (vm_compute; reflexivity).
  split; [vm_compute; reflexivity|].
  split; [discriminate|].
  split; [vm_compute; reflexivity|].
  split; [vm_compute; reflexivity|].
  split; [exact Hrun|].
  intros est. rewrite Hrun. discriminate.
Qed.

(** The index of Scenario D. *)
Lemma estimateDistance_quantiles_witness :
  let known :=
    map (fun e => distance (e.2))
      (window Examples.scenarioD_index (ddiv 3 15) (1 # 20)) in
  exists q1 q99,
    interpolated (sort known) (1 # 100) q1 /\
    interpolated (sort known) (99 # 100) q99 /\
    80 = Qfloor q1 /\ 478 = Qceiling q99.
Proof.
  refine (proj2 (proj2 (proj2
    (estimateDistance_quantiles Examples.far_record Examples.scenarioD_index
       Examples.params Examples.scenarioD_estimate _ _)))).
  - repeat constructor.
  - vm_compute. reflexivity.
Defined.

(** ** Further examples *)

(** The sample of Scenario B, counted. *)
Lemma sample_counts_barcodes_witness :
  2 = barcode_count Examples.mults Examples.params
        (fun m => qualifies m "C1" true Examples.params) Examples.scenarioB /\
  1 = barcode_count Examples.mults Examples.params
        (fun m => qualifies m "C1" false Examples.params) Examples.scenarioB.
Proof.
  refine ((fun H => conj (proj1 H) (proj1 (proj2 H))) _).
  apply (sample_counts_barcodes Examples.lengths Examples.mults Examples.params
           Examples.scenarioB Examples.scenarioB_samples "C1"
           {| distance := 100; barcodesHead := 2; barcodesTail := 1;
              barcodesUnion := 2; barcodesIntersect := 1 |}).
  - vm_compute. discriminate.
  - vm_compute. reflexivity.
  - vm_compute. reflexivity.
Defined.

(** The contig C1 of Scenario A has a sample. *)
Lemma sample_stored_iff_witness :
  is_Some (Examples.scenarioA_samples !! "C1"%string) <->
  exists l index m,
    Examples.lengths !! "C1"%string = Some l /\
    2 * end_length Examples.params <= l /\
    Examples.scenarioA !! index = Some m /\
    in_mult_range Examples.mults Examples.params index = true /\
    qualifies m "C1" true Examples.params
    || qualifies m "C1" false Examples.params = true.
Proof.
  apply (sample_stored_iff Examples.lengths Examples.mults Examples.params
           Examples.scenarioA Examples.scenarioA_samples "C1").
  - vm_compute. split; discriminate.
  - vm_compute. discriminate.
  - vm_compute. reflexivity.
Defined.

(** Scenario A: every lookup hits. *)
Lemma calcDistSamples_returns_iff_witness :
  (exists distSamples',
     calcDistSamples Examples.scenarioA Examples.lengths Examples.mults
       Examples.params ∅ = Ok distSamples') <->
  sample_lookups_hit Examples.scenarioA Examples.lengths Examples.mults
    Examples.params.
Proof.
  exact (proj1 (calcDistSamples_returns_iff Examples.scenarioA
                  Examples.lengths Examples.mults Examples.params ∅)).
Defined.

(** The second barcode of Scenario B, added to the sample of
    Scenario A. *)
Lemma calcDistSamples_accumulates_witness :
  2 = 1 + barcode_count Examples.mults Examples.params
            (fun m => qualifies m "C1" true Examples.params)
            Examples.second_barcode.
Proof.
  refine (proj1 (proj2 (proj2 (proj2
    (calcDistSamples_accumulates Examples.lengths Examples.mults
       Examples.params Examples.second_barcode Examples.scenarioA_samples
       Examples.scenarioB_samples "C1" _))) 300 1 _ _ _ _ _ _ _)).
  - vm_compute. reflexivity.
  - vm_compute. reflexivity.
  - vm_compute. discriminate.
  - vm_compute. split; discriminate.
  - vm_compute. split; discriminate.
  - vm_compute. split; discriminate.
  - vm_compute. split; discriminate.
  - vm_compute. discriminate.
Defined.

(** Scenario B, traversed in two opposite orders. *)
Lemma calcDistSamples_order_independent_witness :
  @calcDistSamples map_order map_order Examples.scenarioB Examples.lengths
    Examples.mults Examples.params ∅
  = @calcDistSamples rev_order rev_order Examples.scenarioB Examples.lengths
      Examples.mults Examples.params ∅.
Proof.
  apply calcDistSamples_order_independent. vm_compute. discriminate.
Defined.

(** Three samples, two of which tie, added to an index with one entry:
    Q is visited before P and is the one stored. *)
Lemma buildJaccardToDist_adds_witness :
  StronglySorted key_lt
    (buildJaccardToDist Examples.near_one_samples Examples.far_index) /\
  (sample_jaccard Examples.sample_Q, Examples.sample_Q)
  ∈ buildJaccardToDist Examples.near_one_samples Examples.far_index.
Proof.
  assert (H : map_Forall (fun _ s => 0 < barcodesUnion s)
                Examples.near_one_samples)
    by (apply (bool_decide_unpack _); vm_compute; exact I).
  assert (Hsorted : StronglySorted key_lt Examples.far_index)
    by (repeat constructor).
  pose proof (buildJaccardToDist_adds Examples.near_one_samples
                Examples.far_index H Hsorted) as (Hs & _ & _ & _ & Hfirst).
  split; [exact Hs|].
  apply (Hfirst 1%nat "Q"%string Examples.sample_Q).
  - vm_compute. reflexivity.
  - vm_compute. reflexivity.
  - vm_compute. reflexivity.
Defined.

(** The index of Scenario B. *)
Lemma calibration_index_wellformed_witness :
  StronglySorted key_lt (buildJaccardToDist Examples.scenarioB_samples []).
Proof.
  refine (proj1 (calibration_index_wellformed Examples.lengths Examples.mults
                   Examples.params Examples.scenarioB
                   Examples.scenarioB_samples _ _ _ _)).
  - vm_compute. split; discriminate.
  - apply (bool_decide_unpack _). vm_compute. exact I.
  - vm_compute. discriminate.
  - vm_compute. reflexivity.
Defined.

(** Scenario E: the only contig is shorter than twice the end length. *)
Lemma no_training_data_witness :
  @estimateDistance spec_closestKeys spec_quantile Examples.far_record
    (buildJaccardToDist ∅ []) Examples.params
  = Ok (DistanceEstimate_default, false).
Proof.
  refine (proj2 (proj2 (no_training_data Examples.short_lengths Examples.mults
                          Examples.params Examples.short_contig ∅ _ _ _))
            spec_closestKeys spec_quantile Examples.far_record).
  - vm_compute. split; discriminate.
  - apply (bool_decide_unpack _). vm_compute. exact I.
  - vm_compute. reflexivity.
Defined.

(** A record with intersection 5 and union 3. *)
Lemma estimateDistance_asserts_score_witness :
  @estimateDistance spec_closestKeys spec_quantile
    Examples.inconsistent_record Examples.far_index Examples.params
  = Raise assertion_failed.
Proof.
  apply estimateDistance_asserts_score.
  - discriminate.
  - vm_compute. split; reflexivity.
  - vm_compute. discriminate.
Defined.

(** The variant head-tail of the pair (A,B), counted. *)
Lemma pair_record_counts_barcodes_witness :
  1 = valid_count Examples.all_ends Examples.lengths Examples.mults
        Examples.params ("A"%string, true) /\
  1 = shared_count Examples.all_ends Examples.lengths Examples.mults
        Examples.params ("A"%string, "B"%string) HT.
Proof.
  refine ((fun H => conj (proj1 H) (proj1 (proj2 (proj2 H)))) _).
  apply (pair_record_counts_barcodes Examples.all_ends Examples.mults
           Examples.lengths Examples.params Examples.all_ends_pairs
           ("A"%string, "B"%string) (fill Examples.shared_once) HT).
  - vm_compute. discriminate.
  - vm_compute. reflexivity.
  - vm_compute. reflexivity.
Defined.

(** The pair (A,B) is stored. *)
Lemma pair_stored_iff_witness :
  is_Some (Examples.all_ends_pairs !! ("A"%string, "B"%string)) <->
  String.leb "A" "B" = true /\
  exists index m,
    Examples.all_ends !! index = Some m /\
    in_mult_range Examples.mults Examples.params index = true /\
    contig_seen Examples.lengths Examples.params m "A" = true /\
    contig_seen Examples.lengths Examples.params m "B" = true.
Proof.
  refine (proj1 (pair_stored_iff Examples.all_ends Examples.mults
                   Examples.lengths Examples.params Examples.all_ends_pairs
                   _ _) ("A"%string, "B"%string)).
  - vm_compute. discriminate.
  - vm_compute. reflexivity.
Defined.

(** Both ends of both contigs are observed: the run returns. *)
Lemma calcContigPairBarcodeStats_returns_iff_witness :
  (exists pmap,
     calcContigPairBarcodeStats Examples.all_ends Examples.mults
       Examples.lengths Examples.params ∅ = Ok pmap) <->
  pair_lookups_hit Examples.all_ends Examples.lengths Examples.mults
    Examples.params /\
  (forall c,
     0 < valid_count Examples.all_ends Examples.lengths Examples.mults
           Examples.params (c, true) <->
     0 < valid_count Examples.all_ends Examples.lengths Examples.mults
           Examples.params (c, false)).
Proof.
  refine (proj1 (calcContigPairBarcodeStats_returns_iff Examples.all_ends
                   Examples.mults Examples.lengths Examples.params _)).
  vm_compute. discriminate.
Defined.

(** The pair (A,A) and the sample of the contig A. *)
Lemma self_pair_is_sample_witness :
  exists recs,
    Examples.all_ends_pairs !! ("A"%string, "A"%string) = Some recs /\
    get_rec HT recs = Examples.shared_once /\
    get_rec HH recs = Examples.shared_once /\
    get_rec TT recs = Examples.shared_once.
Proof.
  apply (self_pair_is_sample Examples.all_ends Examples.mults Examples.lengths
           Examples.params Examples.all_ends_samples Examples.all_ends_pairs
           "A" {| distance := 100; barcodesHead := 1; barcodesTail := 1;
                  barcodesUnion := 1; barcodesIntersect := 1 |}).
  - vm_compute. discriminate.
  - vm_compute. reflexivity.
  - vm_compute. reflexivity.
  - vm_compute. reflexivity.
Defined.

(** The variant head-tail of the pair (A,B) has a positive union. *)
Lemma completed_record_usable_witness :
  0 < ARCS.barcodesUnion (get_rec HT (fill Examples.shared_once)).
Proof.
  refine (proj1 (proj2 (proj2
    (completed_record_usable Examples.all_ends Examples.mults Examples.lengths
       Examples.params Examples.all_ends_pairs ("A"%string, "B"%string)
       (fill Examples.shared_once) HT _ _ _)))).
  - vm_compute. discriminate.
  - vm_compute. reflexivity.
  - vm_compute. reflexivity.
Defined.

(** The pairs of the contigs A and B, traversed in two opposite
    orders. *)
Lemma calcContigPairBarcodeStats_order_independent_witness :
  @calcContigPairBarcodeStats map_order map_order map_order Examples.all_ends
    Examples.mults Examples.lengths Examples.params ∅
  = @calcContigPairBarcodeStats rev_order rev_order rev_order
      Examples.all_ends Examples.mults Examples.lengths Examples.params ∅.
Proof.
  apply calcContigPairBarcodeStats_order_independent.
  vm_compute. discriminate.
Defined.

(** A second run on the pairs of the contigs A and B: the shared count
    of the variant head-tail of (A,B) becomes 2. *)
Lemma calcContigPairBarcodeStats_accumulates_witness :
  2 = 1 + shared_count Examples.all_ends Examples.lengths Examples.mults
            Examples.params ("A"%string, "B"%string) HT.
Proof.
  refine (proj1 (proj2
    (calcContigPairBarcodeStats_accumulates Examples.all_ends Examples.mults
       Examples.lengths Examples.params Examples.all_ends_pairs
       Examples.all_ends_pairs_twice _ _)
    ("A"%string, "B"%string) (fill Examples.shared_twice) HT _ _ _)).
  - vm_compute. discriminate.
  - vm_compute. reflexivity.
  - vm_compute. reflexivity.
  - vm_compute. discriminate.
  - vm_compute. discriminate.
Defined.

(** An end length of -1: the bound is 2^32 - 2. *)
Lemma negative_end_length_bound_witness :
  valid_min_length Examples.negative_params = 2 ^ 32 + 2 * -1.
Proof.
  refine (proj1 (negative_end_length_bound 300 5 Examples.negative_params _)).
  vm_compute. split; [discriminate|reflexivity].
Defined.

(** The table of Scenario B: the header line and the line of C1. *)
Lemma writeDistSamples_table_witness :
  writeDistSamples "" Examples.scenarioB_samples
  = table [header_fields; ["C1"; "100"; "2"; "1"; "2"; "1"]%string].
Proof.
  rewrite (proj1 (writeDistSamples_table "" Examples.scenarioB_samples)).
  vm_compute. reflexivity.
Defined.

(** The table of Scenario A, written from two maps built in different
    ways. *)
Lemma writeDistSamples_lossless_witness :
  Examples.scenarioA_samples
  = delete "S"%string (<["S"%string := DistSample_default]>
                         Examples.scenarioA_samples).
Proof.
  apply (writeDistSamples_lossless "").
  - apply (bool_decide_unpack _). vm_compute. exact I.
  - apply (bool_decide_unpack _). vm_compute. exact I.
  - vm_compute. reflexivity.
Defined.

(** ** The quotients of the examples *)

(** On the quotients of the examples and on a grid of 2550 pairs of
    counters, [ddiv] is the division of binary64; a quotient by zero is
    a NaN or an infinity there. *)
Example ddiv_is_binary64_division :
  let agree (p : Z * Z) :=
    match binary64_value (binary64_div (p.1) (p.2)) with
    | Some q => Qeq_bool q (ddiv (p.1) (p.2))
    | None => false
    end in
  forallb agree Examples.quotients = true /\
  forallb agree Examples.quotient_grid = true /\
  Z.of_nat (length Examples.quotient_grid) = 2550 /\
  binary64_div 0 0 = SpecFloat.S754_nan /\
  binary64_div 1 0 = SpecFloat.S754_infinity false.
Proof.
  intros agree.
  split; [vm_compute; reflexivity|].
  split; [vm_compute; reflexivity|].
  split; [vm_compute; reflexivity|].
  split; vm_compute; reflexivity.
Qed.

(** The scores of P and Q are different quotients and the same [double]:
    of the three samples the index keeps two. *)
Example rounded_scores_tie :
  ~ (4294967294 # 4294967295 == 4294967293 # 4294967294)%Q /\
  sample_jaccard Examples.sample_P = sample_jaccard Examples.sample_Q /\
  (sample_jaccard Examples.sample_P == 1 - (1 # 2 ^ 32))%Q /\
  map fst (buildJaccardToDist Examples.near_one_samples [])
  = [ddiv 1 2; ddiv 4294967294 4294967295].
Proof.
  split; [vm_compute; discriminate|].
  repeat split; vm_compute; reflexivity.
Qed.

(** ** The scenarios of the spec *)

(** Scenario A: one barcode on both ends of C1 (length 300, end length
    100): distance 100, one barcode at the head, one at the tail, union 1
    and intersection 1. *)
Example scenario_A :
  calcDistSamples Examples.scenarioA Examples.lengths Examples.mults
    Examples.params ∅ = Ok Examples.scenarioA_samples.
Proof. vm_compute. reflexivity. Qed.

(** Scenario B: a second barcode on the head only: two barcodes at the
    head, union 2, intersection 1, Jaccard score 1/2. *)
Example scenario_B :
  calcDistSamples Examples.scenarioB Examples.lengths Examples.mults
    Examples.params ∅ = Ok Examples.scenarioB_samples /\
  (sample_jaccard (sample_of Examples.scenarioB_samples "C1") == 1 # 2)%Q.
Proof. split; vm_compute; reflexivity. Qed.

(** Scenario C: 10 and 8 barcodes at the two ends, 3 of them shared: the
    union is 15 and the Jaccard score the [double] nearest to 1/5. *)
Example scenario_C :
  let counts : gmap CI Z :=
    <[("A"%string, true) := 10]> (<[("B"%string, false) := 8]> ∅) in
  let rec := {| ARCS.barcodesIntersect := 3; barcodes1 := 0; barcodes2 := 0;
                ARCS.barcodesUnion := 0 |} in
  complete_record counts "A" "B" HT rec = Ok Examples.far_record /\
  ddiv (ARCS.barcodesIntersect Examples.far_record)
       (ARCS.barcodesUnion Examples.far_record) = round64 (1 # 5) /\
  (ddiv (ARCS.barcodesIntersect Examples.far_record)
        (ARCS.barcodesUnion Examples.far_record)
   == 3602879701896397 # 18014398509481984)%Q.
Proof. repeat split; vm_compute; reflexivity. Qed.

(** Scenario D: the distances 80, 90, 100, 100, 110, 120 and 500 in the
    window: the 1st percentile is 80.6 and the 99th is 477.2. *)
Example scenario_D :
  @estimateDistance spec_closestKeys spec_quantile Examples.far_record
    Examples.scenarioD_index Examples.params
  = Ok (Examples.scenarioD_estimate, true) /\
  (exists q1, spec_quantile [80; 90; 100; 100; 110; 120; 500] (1 # 100) = Ok q1
              /\ (q1 == 806 # 10)%Q) /\
  (exists q99, spec_quantile [80; 90; 100; 100; 110; 120; 500] (99 # 100) = Ok q99
               /\ (q99 == 4772 # 10)%Q).
Proof.
  split; [vm_compute; reflexivity|].
  split; eexists; (split; [vm_compute; reflexivity|vm_compute; reflexivity]).
Qed.

(** Scenario E: a contig shorter than twice the end length gets no sample
    and no pair, whatever maps to it. *)
Example scenario_E :
  calcDistSamples Examples.short_contig Examples.lengths Examples.mults
    Examples.params ∅ = Ok ∅ /\
  calcContigPairBarcodeStats Examples.short_contig Examples.mults
    Examples.lengths Examples.params ∅ = Ok ∅.
Proof. split; vm_compute; reflexivity. Qed.
